(** * ISM43362-M3G-L44 WiFi driver: the framing layer of [Core/Src/wifi.c]

    A shallow embedding of [trimstr], [WIFI_SPI_Receive], [WIFI_SPI_Transmit],
    [WIFI_Init], [WIFI_SendATCommand], [WIFI_CreateNewNetwork] and
    [WIFI_WebServerInit], and the properties of the framing and exchange
    layer.

    Bytes are [ascii]; a C array is a [list ascii] whose length is the size of
    the object; every access is bounds-checked and an access outside the
    object is undefined behaviour.  Machine integers are [Z] with their
    wrap-around written out. *)

From Stdlib Require Import ZArith List Ascii String Bool Lia.
From Stdlib Require Import DecimalString.
From stdpp Require Import gmap.

Local Open Scope Z_scope.
Local Open Scope list_scope.

(** ** Outcomes *)

(** What a C computation can do besides returning a value. *)
Inductive undefined : Type :=
| OutOfBounds (i : Z)       (* access at index [i] outside the object *)
| FormatArgument            (* a conversion of a format string reads an argument that was not passed *)
| NullPointer               (* arithmetic on, or access through, a null pointer *)
| WildPointer (address : N) (* access through an integer converted to a pointer *)
| NoObject (b : N)          (* access through a pointer to no object *)
| Overlap.                  (* copying between objects that overlap *)

Inductive outcome (A : Type) : Type :=
| Ret (a : A)               (* normal completion *)
| Fatal                     (* [Error_Handler ()] was called: it does not return *)
| Undef (u : undefined)     (* undefined behaviour *)
| Hang.                     (* a busy-wait loop that never ends *)

Arguments Ret {A} a.
Arguments Fatal {A}.
Arguments Undef {A} u.
Arguments Hang {A}.

Definition obind {A B : Type} (x : outcome A) (f : A -> outcome B) : outcome B :=
  match x with
  | Ret a => f a
  | Fatal => Fatal
  | Undef u => Undef u
  | Hang => Hang
  end.

Declare Scope outcome_scope.
Delimit Scope outcome_scope with outcome.
Notation "'let*' x ':=' c 'in' k" := (obind c (fun x => k))
  (at level 10, x pattern, c at level 200, k at level 200) : outcome_scope.

(** ** Bytes and arrays *)

Definition nul : ascii := Ascii.zero.
Definition percent : ascii := "%"%char.

Definition len (buf : list ascii) : Z := Z.of_nat (length buf).

Definition in_bounds (buf : list ascii) (i : Z) : bool :=
  (0 <=? i) && (i <? len buf).

(** [buf[i]] as an rvalue. *)
Definition load (buf : list ascii) (i : Z) : outcome ascii :=
  if in_bounds buf i then
    match buf !! Z.to_nat i with
    | Some a => Ret a
    | None => Undef (OutOfBounds i)
    end
  else Undef (OutOfBounds i).

(** [buf[i] = a]. *)
Definition store (buf : list ascii) (i : Z) (a : ascii) : outcome (list ascii) :=
  if in_bounds buf i then Ret (<[Z.to_nat i := a]> buf)
  else Undef (OutOfBounds i).

Definition uint32 (z : Z) : Z := z mod 2 ^ 32.
Definition uint16 (z : Z) : Z := z mod 2 ^ 16.

(** ** The C library functions the driver calls *)

Section Libc.
Local Open Scope outcome_scope.

(** Where a format string lives: in the object that is being written (the
    two pointers of the call point into one array), or in another object. *)
Inductive source : Type :=
| Same (ofs : Z)
| Other (obj : list ascii) (ofs : Z).

Definition fetch (dst : list ascii) (fmt : source) (k : Z) : outcome ascii :=
  match fmt with
  | Same ofs => load dst (ofs + k)
  | Other obj ofs => load obj (ofs + k)
  end.

Definition extent (dst : list ascii) (fmt : source) : nat :=
  match fmt with
  | Same _ => length dst
  | Other obj _ => length obj
  end.

(** One character of output: stored while it fits in front of the terminator,
    counted in any case. *)
Definition emit (dst : list ascii) (d room j : Z) (a : ascii) : outcome (list ascii) :=
  if j <? room then store dst (d + j) a else Ret dst.

(** The formatting loop of [snprintf (dst + d, room + 1, fmt)] called with no
    argument after the format: the format is read byte by byte, forward, and
    the output is written as it is produced.  [%%] produces one [%]; every
    other conversion would read an argument that was never passed. *)
Fixpoint format_loop (fuel : nat) (dst : list ascii) (d room : Z)
    (fmt : source) (k j : Z) : outcome (list ascii * Z) :=
  match fuel with
  | O => Undef (OutOfBounds k)
  | S fuel' =>
      let* a := fetch dst fmt k in
      if Ascii.eqb a nul then Ret (dst, j)
      else if Ascii.eqb a percent then
        let* b := fetch dst fmt (k + 1) in
        if Ascii.eqb b percent then
          let* dst' := emit dst d room j percent in
          format_loop fuel' dst' d room fmt (k + 2) (j + 1)
        else Undef FormatArgument
      else
        let* dst' := emit dst d room j a in
        format_loop fuel' dst' d room fmt (k + 1) (j + 1)
  end.

(** Whether the format of [snprintf (dst + d, n, fmt)] lies in the array
    that is written and starts at the first byte of the output or in front
    of it: the format would be copied onto itself, or onto bytes of it that
    are still to be read. *)
Definition overlaps (d : Z) (fmt : source) : bool :=
  match fmt with
  | Same ofs => ofs <=? d
  | Other _ _ => false
  end.

(** [snprintf (dst + d, n, fmt)]: at most [n - 1] characters and a
    terminator are written; the value is the new content of [dst] and the
    length of the whole output.  C11 7.21.6.5 leaves a copy between
    objects that overlap undefined.  A format that starts behind the first
    byte of the output, in the same array, is read forward while the output
    is stored in front of the byte that was just read; no byte is written
    over before it is read, every library that copies forward leaves the
    same bytes, and these are the result.  A format that is the output
    itself, or starts in front of it, is copied onto bytes of the format
    that are still to be read, and what is left in the array depends on
    the library: the call is given no result, [Overlap] when the format
    could be read to its end, and the fault met on the way when it could
    not. *)
Definition snprintf (dst : list ascii) (d n : Z) (fmt : source)
    : outcome (list ascii * Z) :=
  let* (dst', total) := format_loop (S (extent dst fmt)) dst d (n - 1) fmt 0 0 in
  if overlaps d fmt then Undef Overlap
  else if 0 <? n then
    let* dst'' := store dst' (d + Z.min total (n - 1)) nul in
    Ret (dst'', total)
  else Ret (dst', total).

(** [memset (buf, a, n)]. *)
Definition memset (buf : list ascii) (a : ascii) (n : Z) : outcome (list ascii) :=
  if n <=? len buf then Ret (replicate (Z.to_nat n) a ++ drop (Z.to_nat n) buf)
  else Undef (OutOfBounds (len buf)).

(** [strlen (buf + ofs)]. *)
Fixpoint strlen_loop (fuel : nat) (buf : list ascii) (ofs k : Z) : outcome Z :=
  match fuel with
  | O => Undef (OutOfBounds (ofs + k))
  | S fuel' =>
      let* a := load buf (ofs + k) in
      if Ascii.eqb a nul then Ret k else strlen_loop fuel' buf ofs (k + 1)
  end.

Definition strlen (buf : list ascii) (ofs : Z) : outcome Z :=
  strlen_loop (S (length buf)) buf ofs 0.

(** The string at [buf + ofs], without its terminator (what [%s] prints). *)
Definition cstring (buf : list ascii) (ofs : Z) : outcome (list ascii) :=
  let* l := strlen buf ofs in
  Ret (take (Z.to_nat l) (drop (Z.to_nat ofs) buf)).

(** [strcat (dst, src + s)]: the string is copied, terminator included, over
    the terminator of [dst]. *)
Fixpoint copy_string (fuel : nat) (dst : list ascii) (d : Z)
    (src : list ascii) (s k : Z) : outcome (list ascii) :=
  match fuel with
  | O => Undef (OutOfBounds (s + k))
  | S fuel' =>
      let* a := load src (s + k) in
      let* dst' := store dst (d + k) a in
      if Ascii.eqb a nul then Ret dst'
      else copy_string fuel' dst' d src s (k + 1)
  end.

Definition strcat (dst src : list ascii) (s : Z) : outcome (list ascii) :=
  let* l := strlen dst 0 in
  copy_string (S (length src)) dst l src s 0.

Definition code (a : ascii) : Z := Z.of_N (N_of_ascii a).

(** [strcmp (s1, s2)]: the difference of the first two bytes that differ. *)
Fixpoint strcmp_loop (fuel : nat) (s1 s2 : list ascii) (k : Z) : outcome Z :=
  match fuel with
  | O => Undef (OutOfBounds k)
  | S fuel' =>
      let* a := load s1 k in
      let* b := load s2 k in
      if negb (Ascii.eqb a b) then Ret (code a - code b)
      else if Ascii.eqb a nul then Ret 0
      else strcmp_loop fuel' s1 s2 (k + 1)
  end.

Definition strcmp (s1 s2 : list ascii) : outcome Z :=
  strcmp_loop (S (length s1)) s1 s2 0.

(** [strstr (buf + ofs, needle)]: the index in [buf] of the first occurrence,
    [None] for the null pointer. *)
Fixpoint match_at (buf : list ascii) (i : Z) (needle : list ascii) : outcome bool :=
  match needle with
  | [] => Ret true
  | x :: needle' =>
      let* a := load buf i in
      if Ascii.eqb a x then match_at buf (i + 1) needle' else Ret false
  end.

Fixpoint strstr_loop (fuel : nat) (buf : list ascii) (i : Z)
    (needle : list ascii) : outcome (option Z) :=
  match fuel with
  | O => Undef (OutOfBounds i)
  | S fuel' =>
      let* m := match_at buf i needle in
      if m : bool then Ret (Some i)
      else
        let* a := load buf i in
        if Ascii.eqb a nul then Ret None
        else strstr_loop fuel' buf (i + 1) needle
  end.

Definition strstr (buf : list ascii) (ofs : Z) (needle : list ascii)
    : outcome (option Z) :=
  strstr_loop (S (length buf)) buf ofs needle.

(** [sprintf (dst, ...)] once its output [out] is known: no bound but the
    object's own; the value is the content of [dst] and the output length. *)
Definition sprintf (dst out : list ascii) : outcome (list ascii * Z) :=
  if len out <? len dst
  then Ret (out ++ nul :: drop (S (length out)) dst, len out)
  else Undef (OutOfBounds (len dst)).

(** What [%d] prints. *)
Definition decimal (z : Z) : list ascii :=
  list_ascii_of_string (NilZero.string_of_int (Z.to_int z)).

End Libc.

(** ** [trimstr] (wifi.c, lines 224-258) *)

Section Trimstr.
Local Open Scope outcome_scope.

(** Lines 230-236: the first [i < strSize] with [str[i] == '\0'];
    [endPos] keeps its initial value 0 when there is none. *)
Fixpoint find_end (fuel : nat) (str : list ascii) (strSize i : Z) : outcome Z :=
  if i <? strSize then
    match fuel with
    | O => Undef (OutOfBounds i)
    | S fuel' =>
        let* a := load str i in
        if negb (Ascii.eqb a nul) then find_end fuel' str strSize (i + 1)
        else Ret i
    end
  else Ret 0.

(** Lines 242-248: [for (i = endPos - 1; i > 0; i--)]. *)
Fixpoint back_scan (fuel : nat) (str : list ascii) (c : ascii) (i endPos : Z)
    : outcome (list ascii * Z) :=
  if 0 <? i then
    match fuel with
    | O => Undef (OutOfBounds i)
    | S fuel' =>
        let* a := load str i in
        if Ascii.eqb a c then
          let* str' := store str i nul in
          back_scan fuel' str' c (i - 1) i
        else Ret (str, endPos)
    end
  else Ret (str, endPos).

(** Lines 251-255: the length of the leading run of [c]. *)
Fixpoint lead_run (fuel : nat) (str : list ascii) (strSize : Z) (c : ascii)
    (i trimPos : Z) : outcome Z :=
  if i <? strSize then
    match fuel with
    | O => Undef (OutOfBounds i)
    | S fuel' =>
        let* a := load str i in
        if Ascii.eqb a c then lead_run fuel' str strSize c (i + 1) (i + 1)
        else Ret trimPos
    end
  else Ret trimPos.

(** Lines 224-258.  The string itself is the format of the [snprintf] call,
    and source and destination are one array: the format starts [trimPos]
    bytes behind the output, and is the output itself when the string has
    no leading [c] ([trimPos] is 0).  The loops read inside the array or
    stop at the first index outside it, so [length str] iterations are
    enough for each of them. *)
Definition trimstr (str : list ascii) (strSize : Z) (c : ascii)
    : outcome (list ascii) :=
  let trimPos := 0 in
  let endPos := 0 in
  let* endPos := find_end (length str) str strSize 0 in
  let* (str, endPos) := back_scan (length str) str c (uint32 (endPos - 1)) endPos in
  let* trimPos := lead_run (length str) str strSize c 0 trimPos in
  let* (str, _) := snprintf str 0 (uint32 (endPos + 1 - trimPos)) (Same trimPos) in
  Ret str.

End Trimstr.

(** ** The board: memory, the Ready pin and the SPI peripheral *)

Inductive event : Type :=
| EvReset                                     (* WIFI_RESET_MODULE () *)
| EvNSS (selected : bool)                     (* WIFI_ENABLE_NSS () / WIFI_DISABLE_NSS () *)
| EvReady (level : bool)                      (* one reading of WIFI_IS_CMDDATA_READY () *)
| EvSpiTx (data : list ascii) (ok : bool)     (* HAL_SPI_Transmit: the bytes clocked out *)
| EvSpiRx (cursor : Z) (data : option (ascii * ascii))  (* HAL_SPI_Receive at buffer + cursor *)
| EvErrorHandler.                             (* Error_Handler () *)

(** [mem] maps the name of an array to its bytes.  [ready] holds the levels
    the next readings of the Ready pin will see (low for ever once the list
    is used up); [spi_rx] the results of the next receive transfers, one
    16-bit frame each, [None] for a transfer that does not return [HAL_OK];
    [spi_tx] whether the next transmit transfers return [HAL_OK]; a transfer
    past the end of its list times out.  [flash] gives the string found at an
    absolute address, when the address can be read; [stack] the bytes a new
    automatic array starts with.  [trace] is what was done so far, oldest
    first. *)
Record world : Type := World {
  mem : gmap N (list ascii);
  ready : list bool;
  spi_rx : list (option (ascii * ascii));
  spi_tx : list bool;
  flash : N -> option (list ascii);
  stack : nat -> ascii;
  trace : list event
}.

Definition set_mem (m : gmap N (list ascii)) (w : world) : world :=
  World m (ready w) (spi_rx w) (spi_tx w) (flash w) (stack w) (trace w).
Definition set_ready (r : list bool) (w : world) : world :=
  World (mem w) r (spi_rx w) (spi_tx w) (flash w) (stack w) (trace w).
Definition set_spi_rx (r : list (option (ascii * ascii))) (w : world) : world :=
  World (mem w) (ready w) r (spi_tx w) (flash w) (stack w) (trace w).
Definition set_spi_tx (t : list bool) (w : world) : world :=
  World (mem w) (ready w) (spi_rx w) t (flash w) (stack w) (trace w).
Definition log (e : event) (w : world) : world :=
  World (mem w) (ready w) (spi_rx w) (spi_tx w) (flash w) (stack w) (trace w ++ [e]).

(** Computations of the driver: state passing over the world, with the
    outcomes of [outcome]; the world of a computation that does not return is
    the world at the point where it stopped. *)
Definition M (A : Type) : Type := world -> outcome A * world.

Definition ret {A : Type} (a : A) : M A := fun w => (Ret a, w).

Definition bind {A B : Type} (m : M A) (f : A -> M B) : M B :=
  fun w =>
    match m w with
    | (Ret a, w') => f a w'
    | (Fatal, w') => (Fatal, w')
    | (Undef u, w') => (Undef u, w')
    | (Hang, w') => (Hang, w')
    end.

Definition lift {A : Type} (o : outcome A) : M A := fun w => (o, w).

Declare Scope wifi_scope.
Delimit Scope wifi_scope with wifi.
Notation "'let*' x ':=' c 'in' k" := (bind c (fun x => k))
  (at level 10, x pattern, c at level 200, k at level 200) : wifi_scope.
Notation "c ;; k" := (bind c (fun _ => k))
  (at level 100, k at level 200, right associativity) : wifi_scope.

Section Board.
Local Open Scope wifi_scope.

Definition emit_event (e : event) : M unit := fun w => (Ret tt, log e w).

(** Modelled from the spec: the macros of wifi.h that drive the pins.  Reset
    is a one-shot side-effecting call, select and deselect are the two
    side-effecting calls that bracket each transfer phase. *)
Definition WIFI_RESET_MODULE : M unit := emit_event EvReset.
Definition WIFI_ENABLE_NSS : M unit := emit_event (EvNSS true).
Definition WIFI_DISABLE_NSS : M unit := emit_event (EvNSS false).

(** Modelled from the spec: the macro of wifi.h that reads the Ready signal,
    a level that is polled. *)
Definition WIFI_IS_CMDDATA_READY : M bool :=
  fun w =>
    match ready w with
    | [] => (Ret false, log (EvReady false) w)
    | level :: rest => (Ret level, log (EvReady level) (set_ready rest w))
    end.

(** Modelled from the spec: [Error_Handler], defined outside wifi.c, is the
    fatal escalation hook that by contract does not return. *)
Definition Error_Handler {A : Type} : M A :=
  fun w => (Fatal, log EvErrorHandler w).

Definition read_array (b : N) : M (list ascii) :=
  fun w =>
    match mem w !! b with
    | Some l => (Ret l, w)
    | None => (Undef (NoObject b), w)
    end.

Definition write_array (b : N) (l : list ascii) : M unit :=
  fun w => (Ret tt, set_mem (<[b := l]> (mem w)) w).

(** [HAL_SPI_Receive (hspi, buffer + cursor, 1, timeout)] of the vendor's
    library: one frame, stored as two bytes (the SPI moves 16 bits at a time,
    line 53, and the cursor of the caller advances by 2, line 27); the value
    tells whether the status is [HAL_OK]. *)
Definition HAL_SPI_Receive (buffer : N) (cursor : Z) : M bool :=
  fun w =>
    match spi_rx w with
    | Some (a, b) :: rest =>
        (let* l := read_array buffer in
         let* l1 := lift (store l cursor a) in
         let* l2 := lift (store l1 (cursor + 1) b) in
         write_array buffer l2 ;;
         ret true)
          (log (EvSpiRx cursor (Some (a, b))) (set_spi_rx rest w))
    | None :: rest => (Ret false, log (EvSpiRx cursor None) (set_spi_rx rest w))
    | [] => (Ret false, log (EvSpiRx cursor None) w)
    end.

(** [HAL_SPI_Transmit (hspi, data, units, timeout)] of the vendor's library:
    [units] frames of 16 bits, that is the first [2 * units] bytes of
    [data]. *)
Definition HAL_SPI_Transmit (data : list ascii) (units : Z) : M bool :=
  fun w =>
    if 2 * units <=? len data then
      let sent := take (Z.to_nat (2 * units)) data in
      match spi_tx w with
      | ok :: rest => (Ret ok, log (EvSpiTx sent ok) (set_spi_tx rest w))
      | [] => (Ret false, log (EvSpiTx sent false) w)
      end
    else (Undef (OutOfBounds (len data)), w).

(** [while (!WIFI_IS_CMDDATA_READY ());] *)
Fixpoint wait_ready (fuel : nat) : M unit :=
  match fuel with
  | O => fun w => (Hang, w)
  | S fuel' =>
      let* r := WIFI_IS_CMDDATA_READY in
      if negb r then wait_ready fuel' else ret tt
  end.

(** Once the readings of [ready] are used up the pin stays low, so a wait
    that has not ended after one more reading never ends. *)
Definition while_not_ready : M unit :=
  fun w => wait_ready (S (length (ready w))) w.

End Board.

(** ** The driver (wifi.c) *)

(** Modelled from the spec: the status type of wifi.h, a two-valued outcome;
    wifi.c only ever produces [WIFI_OK]. *)
Inductive WIFI_StatusTypeDef : Type := WIFI_OK | WIFI_ERROR.

Definition status_eqb (a b : WIFI_StatusTypeDef) : bool :=
  match a, b with
  | WIFI_OK, WIFI_OK | WIFI_ERROR, WIFI_ERROR => true
  | _, _ => false
  end.

(** The fields of the handle wifi.c uses; [passphrase] and [ssid] are the
    arrays the two pointers point to, [ipAddress] is the array in the handle. *)
Record WIFI_HandleTypeDef : Type := Handle {
  securityType : Z;
  passphrase : list ascii;
  ssid : list ascii;
  transportProtocol : Z;
  port : Z;
  ipAddress : list ascii
}.

(** The two module-level arrays. *)
Definition wifiTxBuffer : N := 1%N.
Definition wifiRxBuffer : N := 2%N.

Definition bytes (s : string) : list ascii := list_ascii_of_string s.
Definition CR : ascii := "013"%char.

Section Driver.
Local Open Scope wifi_scope.

(** The constants of wifi.h. *)
Variable WIFI_RX_PADDING : ascii.
Variable WIFI_TX_PADDING : ascii.
Variable WIFI_MSG_POWERUP : list ascii.
Variable WIFI_RX_BUFFER_SIZE : Z.

(** Lines 20-28 of [WIFI_SPI_Receive]. *)
Fixpoint receive_loop (fuel : nat) (buffer : N) (size cnt : Z) : M unit :=
  match fuel with
  | O => fun w => (Hang, w)
  | S fuel' =>
      let* r := WIFI_IS_CMDDATA_READY in
      if r : bool then
        let* failed :=
          (if size - 2 <? cnt then ret true
           else let* ok := HAL_SPI_Receive buffer cnt in ret (negb ok)) in
        (if failed : bool then Error_Handler else ret tt) ;;
        receive_loop fuel' buffer size (uint16 (cnt + 2))
      else ret tt
  end.

(** Lines 15-34.  Every iteration of the loop uses one reading of [ready]
    that is high, so the loop ends within [length (ready w) + 1] readings. *)
Definition WIFI_SPI_Receive (buffer : N) (size : Z) : M WIFI_StatusTypeDef :=
  let cnt := 0 in
  let* b := read_array buffer in
  let* b := lift (memset b nul size) in
  write_array buffer b ;;
  (fun w => receive_loop (S (length (ready w))) buffer size cnt w) ;;
  let* b := read_array buffer in
  let* b := lift (trimstr b size WIFI_RX_PADDING) in
  write_array buffer b ;;
  ret WIFI_OK.

(** [char bTx[n]], not initialised. *)
Definition automatic (n : Z) : M (list ascii) :=
  fun w => (Ret (map (stack w) (seq 0 (Z.to_nat n))), w).

(** [(char) WIFI_TX_PADDING] passed where [strcat] expects a pointer: the
    byte is converted to an address. *)
Definition string_at_address (a : ascii) : M (list ascii) :=
  fun w =>
    match flash w (N_of_ascii a) with
    | Some s => (Ret (s ++ [nul]), w)
    | None => (Undef (WildPointer (N_of_ascii a)), w)
    end.

(** Lines 46-59.  The command is the format of the [snprintf] call; [bTx]
    is an array of the call, gone when it returns. *)
Definition WIFI_SPI_Transmit (buffer : N) (size : Z) : M WIFI_StatusTypeDef :=
  let* bTx := automatic ((size / 2) * 2 + 1) in
  let* cmd := read_array buffer in
  let* (bTx, _) := lift (snprintf bTx 0 size (Other cmd 0)) in
  let* bTx :=
    (if size mod 2 =? 0 then
       let* padding := string_at_address WIFI_TX_PADDING in
       lift (strcat bTx padding 0)
     else ret bTx) in
  let* ok := HAL_SPI_Transmit bTx (size / 2) in
  (if negb ok then Error_Handler else ret tt) ;;
  ret WIFI_OK.

(** Lines 68-82. *)
Definition WIFI_Init : M WIFI_StatusTypeDef :=
  WIFI_RESET_MODULE ;;
  WIFI_ENABLE_NSS ;;
  while_not_ready ;;
  let* st := WIFI_SPI_Receive wifiRxBuffer (uint16 WIFI_RX_BUFFER_SIZE) in
  (if negb (status_eqb st WIFI_OK) then Error_Handler else ret tt) ;;
  let* rx := read_array wifiRxBuffer in
  let* d := lift (strcmp rx (WIFI_MSG_POWERUP ++ [nul])) in
  (if negb (d =? 0) then Error_Handler else ret tt) ;;
  WIFI_DISABLE_NSS ;;
  ret WIFI_OK.

(** Lines 96-117. *)
Definition WIFI_SendATCommand (bCmd : N) (sizeCmd : Z) (bRx : N) (sizeRx : Z)
    : M WIFI_StatusTypeDef :=
  while_not_ready ;;
  WIFI_ENABLE_NSS ;;
  let* st := WIFI_SPI_Transmit bCmd sizeCmd in
  (if negb (status_eqb st WIFI_OK) then Error_Handler else ret tt) ;;
  WIFI_DISABLE_NSS ;;
  while_not_ready ;;
  WIFI_ENABLE_NSS ;;
  let* st := WIFI_SPI_Receive bRx sizeRx in
  (if negb (status_eqb st WIFI_OK) then Error_Handler else ret tt) ;;
  let* r := WIFI_IS_CMDDATA_READY in
  (if r : bool then Error_Handler else ret tt) ;;
  WIFI_DISABLE_NSS ;;
  ret WIFI_OK.

(** Lines 70-75: [WIFI_Init] up to the return of [WIFI_SPI_Receive]. *)
Definition Init_until_received : M WIFI_StatusTypeDef :=
  WIFI_RESET_MODULE ;;
  WIFI_ENABLE_NSS ;;
  while_not_ready ;;
  WIFI_SPI_Receive wifiRxBuffer (uint16 WIFI_RX_BUFFER_SIZE).

(** Lines 98-110: [WIFI_SendATCommand] up to the return of
    [WIFI_SPI_Receive]. *)
Definition SendATCommand_until_received (bCmd : N) (sizeCmd : Z) (bRx : N)
    (sizeRx : Z) : M WIFI_StatusTypeDef :=
  while_not_ready ;;
  WIFI_ENABLE_NSS ;;
  let* st := WIFI_SPI_Transmit bCmd sizeCmd in
  (if negb (status_eqb st WIFI_OK) then Error_Handler else ret tt) ;;
  WIFI_DISABLE_NSS ;;
  while_not_ready ;;
  WIFI_ENABLE_NSS ;;
  WIFI_SPI_Receive bRx sizeRx.

(** [msgLength = sprintf (wifiTxBuffer, ...)] with the output [out]. *)
Definition sprintf_wifiTxBuffer (out : list ascii) : M Z :=
  let* tx := read_array wifiTxBuffer in
  let* (tx, n) := lift (sprintf tx out) in
  write_array wifiTxBuffer tx ;;
  ret n.

(** One command of [WIFI_CreateNewNetwork]: format, then exchange with
    [msgLength + 1] as the size of the command. *)
Definition command (out : list ascii) : M WIFI_StatusTypeDef :=
  let* msgLength := sprintf_wifiTxBuffer out in
  WIFI_SendATCommand wifiTxBuffer (uint16 (msgLength + 1))
    wifiRxBuffer (uint16 WIFI_RX_BUFFER_SIZE).

(** Lines 136-153. *)
Definition commands (hwifi : WIFI_HandleTypeDef) : M unit :=
  command (bytes "A1=" ++ decimal (securityType hwifi) ++ [CR]) ;;
  let* s := lift (cstring (passphrase hwifi) 0) in
  command (bytes "A2=" ++ s ++ [CR]) ;;
  let* s := lift (cstring (ssid hwifi) 0) in
  command (bytes "AS=0," ++ s ++ [CR]) ;;
  command (bytes "AD" ++ [CR]) ;;
  command (bytes "A?" ++ [CR]) ;;
  ret tt.

(** Lines 156-161. *)
Definition save_address (hwifi : WIFI_HandleTypeDef) : M WIFI_HandleTypeDef :=
  let* rx := read_array wifiRxBuffer in
  let* p := lift (strstr rx 0 (bytes ",")) in
  match p with
  | None => lift (Undef NullPointer)
  | Some comma =>
      let ipStart := comma + 1 in
      let* q := lift (strstr rx ipStart (bytes ",")) in
      match q with
      | None => lift (Undef NullPointer)
      | Some ipEnd =>
          let* ip := lift (memset (ipAddress hwifi) nul (len (ipAddress hwifi))) in
          let* (ip, _) :=
            lift (snprintf ip 0 (uint32 (ipEnd - ipStart + 1)) (Other rx ipStart)) in
          ret (Handle (securityType hwifi) (passphrase hwifi) (ssid hwifi)
                 (transportProtocol hwifi) (port hwifi) ip)
      end
  end.

(** Lines 127-164: the handle after the call, and the status. *)
Definition WIFI_CreateNewNetwork (hwifi : WIFI_HandleTypeDef)
    : M (WIFI_HandleTypeDef * WIFI_StatusTypeDef) :=
  commands hwifi ;;
  let* hwifi := save_address hwifi in
  ret (hwifi, WIFI_OK).

(** Lines 173-188.  [msgLength] is not declared in the function: it is the
    variable of that name that is in scope there, assigned and read as in
    [WIFI_CreateNewNetwork]. *)
Definition WIFI_WebServerInit (hwifi : WIFI_HandleTypeDef) : M WIFI_StatusTypeDef :=
  command (bytes "P0=0" ++ [CR]) ;;
  command (bytes "P1=" ++ decimal (transportProtocol hwifi) ++ [CR]) ;;
  command (bytes "P2=" ++ decimal (port hwifi) ++ [CR]) ;;
  ret WIFI_OK.

(** Lines 199-201. *)
Definition WIFI_WebServerListen (buffer : N) (size : Z) : M WIFI_StatusTypeDef :=
  ret WIFI_OK.

(** Lines 211-213. *)
Definition WIFI_WebServerSend (buffer : N) (size : Z) : M WIFI_StatusTypeDef :=
  ret WIFI_OK.

End Driver.

(** ** Vocabulary of the statements *)

(** A receive transfer at [cursor] stores its two bytes inside an array of
    [size] bytes. *)
Definition rx_inside (size : Z) (e : event) : Prop :=
  match e with
  | EvSpiRx cursor _ => 0 <= cursor /\ cursor + 2 <= size
  | _ => True
  end.

(** What the loop of [WIFI_SPI_Receive] adds to the trace for the frames it
    stores: a high reading of Ready, then the transfer, for each of them. *)
Fixpoint rx_events (frames : list (ascii * ascii)) (cnt : Z) : list event :=
  match frames with
  | [] => []
  | f :: frames' => EvReady true :: EvSpiRx cnt (Some f) :: rx_events frames' (cnt + 2)
  end.

(** The events of one complete exchange: [a] low readings of Ready and a
    high one, select, the transfer of [data], deselect, [b] low readings and
    a high one, select, the frames of the answer, the low reading that ends
    the receive loop, the low reading of the overflow check, deselect. *)
Definition exchange_events (a : nat) (data : list ascii) (b : nat)
    (frames : list (ascii * ascii)) : list event :=
  replicate a (EvReady false)
  ++ [EvReady true; EvNSS true; EvSpiTx data true; EvNSS false]
  ++ replicate b (EvReady false)
  ++ [EvReady true; EvNSS true]
  ++ rx_events frames 0
  ++ [EvReady false; EvReady false; EvNSS false].

Definition is_transmit (e : event) : Prop :=
  match e with
  | EvSpiTx _ _ => True
  | _ => False
  end.

(** A computation that leaves every array as it found it. *)
Definition keeps_mem {A} (m : M A) : Prop :=
  forall w, mem (snd (m w)) = mem w.

(** An outcome of [strcmp]: the call returns, and returns 0 exactly when [P]. *)
Definition zero_iff (P : Prop) (o : outcome Z) : Prop :=
  match o with
  | Ret d => d = 0 <-> P
  | _ => False
  end.

(** What a computation adds to the trace satisfies [Q], event by event,
    however the computation ends. *)
Definition emits {A} (Q : event -> Prop) (m : M A) : Prop :=
  forall w, exists evs, trace (snd (m w)) = trace w ++ evs /\ Forall Q evs.

(** A byte of a format that is copied as it is. *)
Definition plain (a : ascii) : Prop := a <> nul /\ a <> percent.

(** The answer to the status query in the end-to-end example. *)
Definition status_response : list ascii := bytes "AT,10.0.0.5,END" ++ [CR].

(** The protocol state machine of the exchange, after the spec (section 4.3):
    WaitReadyForCmd, Selected (write), Deselected, WaitReadyForResp,
    Selected (read), OverflowCheck, Deselected, Done, strictly in sequence,
    every failure fatal.  The states in between are those the events of the
    trace tell apart. *)
Inductive phase : Type :=
| WaitReadyForCmd      (* polling Ready before the command *)
| ReadyForCmd          (* Ready seen high *)
| SelectedWrite        (* selected, the command not yet sent *)
| Written              (* the command sent *)
| WaitReadyForResp     (* deselected, polling Ready before the answer *)
| ReadyForResp         (* Ready seen high *)
| SelectedRead         (* selected, between two frames *)
| Receiving            (* Ready seen high in the receive loop *)
| OverflowCheck        (* Ready seen low: the receive loop has ended *)
| Checked              (* Ready seen low again *)
| Done                 (* deselected *)
| Faulted              (* a failure was seen *)
| Aborted.             (* Error_Handler was called *)

Definition step (p : phase) (e : event) : option phase :=
  match p, e with
  | WaitReadyForCmd, EvReady false => Some WaitReadyForCmd
  | WaitReadyForCmd, EvReady true => Some ReadyForCmd
  | ReadyForCmd, EvNSS true => Some SelectedWrite
  | SelectedWrite, EvSpiTx _ true => Some Written
  | SelectedWrite, EvSpiTx _ false => Some Faulted
  | Written, EvNSS false => Some WaitReadyForResp
  | WaitReadyForResp, EvReady false => Some WaitReadyForResp
  | WaitReadyForResp, EvReady true => Some ReadyForResp
  | ReadyForResp, EvNSS true => Some SelectedRead
  | SelectedRead, EvReady true => Some Receiving
  | SelectedRead, EvReady false => Some OverflowCheck
  | Receiving, EvSpiRx _ (Some _) => Some SelectedRead
  | Receiving, EvSpiRx _ None => Some Faulted
  | Receiving, EvErrorHandler => Some Aborted
  | OverflowCheck, EvReady false => Some Checked
  | OverflowCheck, EvReady true => Some Faulted
  | Checked, EvNSS false => Some Done
  | Faulted, EvErrorHandler => Some Aborted
  | _, _ => None
  end.

Fixpoint steps (p : phase) (evs : list event) : option phase :=
  match evs with
  | [] => Some p
  | e :: evs' =>
      match step p e with
      | Some q => steps q evs'
      | None => None
      end
  end.

(** From phase [p] the events of [m] are steps of the machine; a call that
    returns [a] has brought it to [q a], a call that ends in [Error_Handler]
    to [Aborted]. *)
Definition follows {A} (p : phase) (m : M A) (q : A -> phase) : Prop :=
  forall w, exists evs r,
    trace (snd (m w)) = trace w ++ evs
    /\ steps p evs = Some r
    /\ match fst (m w) with
       | Ret a => r = q a
       | Fatal => r = Aborted
       | _ => True
       end.

(** A computation without events that never calls [Error_Handler]. *)
Definition quiet {A} (m : M A) : Prop :=
  forall w, trace (snd (m w)) = trace w /\ fst (m w) <> Fatal.

(** The C library functions return or have no defined behaviour: they
    neither call [Error_Handler] nor wait. *)
Definition pure {A} (o : outcome A) : Prop := o <> Fatal /\ o <> Hang.

(** The phase after a call that returned [st]: [p] for [WIFI_OK]. *)
Definition after_status (p : phase) (st : WIFI_StatusTypeDef) : phase :=
  if status_eqb st WIFI_OK then p else Faulted.

(** The bytes of a sequence of frames, in the order they are stored. *)
Definition unframe (frames : list (ascii * ascii)) : list ascii :=
  flat_map (fun f => [fst f; snd f]) frames.

(** A computation that leaves every array but those named in [bs] as it
    found it, however it ends. *)
Definition writes_only {A} (bs : list N) (m : M A) : Prop :=
  forall w b, ~ In b bs -> mem (snd (m w)) !! b = mem w !! b.

(** A computation that returns no other value than [a]. *)
Definition returns_only {A} (a : A) (m : M A) : Prop :=
  forall w b w', m w = (Ret b, w') -> b = a.

(** The events of [n] complete exchanges, one after the other. *)
Fixpoint exchanges (n : nat) (evs : list event) : Prop :=
  match n with
  | O => evs = []
  | S n' =>
      exists a data b frames rest,
        evs = exchange_events a data b frames ++ rest /\ exchanges n' rest
  end.

(** A computation that, when it returns, has added [n] complete exchanges to
    the trace. *)
Definition exchanging {A} (n : nat) (m : M A) : Prop :=
  forall w a w', m w = (Ret a, w') ->
    exists evs, trace w' = trace w ++ evs /\ exchanges n evs.

Definition comma : ascii := ","%char.

(** A response with two commas: [pre], the text [ip] between the first comma
    and the next one, [post], the terminator, and what the array holds
    behind it. *)
Definition address_response (pre ip post rest : list ascii) : list ascii :=
  pre ++ comma :: ip ++ comma :: post ++ nul :: rest.

(** The handle with [ip] as its [ipAddress] array. *)
Definition with_address (hwifi : WIFI_HandleTypeDef) (ip : list ascii)
    : WIFI_HandleTypeDef :=
  Handle (securityType hwifi) (passphrase hwifi) (ssid hwifi)
    (transportProtocol hwifi) (port hwifi) ip.

(** ** Scenarios *)

(** The padding bytes of the ISM43362: NAK on the receive side, a line feed
    on the transmit side. *)
Definition NAK : ascii := "021"%char.
Definition LF : ascii := "010"%char.

(** The frames of an answer: its bytes two by two, the last frame of an odd
    answer filled with the receive padding. *)
Fixpoint frames_of (s : list ascii) : list (ascii * ascii) :=
  match s with
  | a :: b :: s' => (a, b) :: frames_of s'
  | [a] => [(a, NAK)]
  | [] => []
  end.

(** An answer with one padding byte in front of it. *)
Definition padded (s : list ascii) : list ascii := NAK :: s.

(** A board whose two arrays hold 32 bytes each, whose flash holds an empty
    string wherever it is read and whose stack holds ['x'] bytes. *)
Definition board (polls : list bool) (answers : list (list ascii))
    (transfers : list bool) : world :=
  World (<[wifiTxBuffer := replicate 32 nul]>
           (<[wifiRxBuffer := replicate 32 nul]> ∅))
    polls (map Some (concat (map frames_of answers))) transfers
    (fun _ => Some []) (fun _ => "x"%char) [].

(** The readings of Ready during one exchange whose answer has [n] frames. *)
Definition exchange_polls (n : nat) : list bool :=
  [true; true] ++ replicate n true ++ [false; false].

Definition example_handle : WIFI_HandleTypeDef :=
  Handle 3 (bytes "secret" ++ [nul]) (bytes "myssid" ++ [nul]) 0 80
    (replicate 17 "y"%char).

Definition example_board : world :=
  board (concat (replicate 4 (exchange_polls 2)) ++ exchange_polls 9)
    (replicate 4 (padded (bytes "OK")) ++ [padded status_response])
    (replicate 5 true).

(** The board with a command in [wifiTxBuffer]. *)
Definition with_command (cmd : list ascii) (w : world) : world :=
  set_mem (<[wifiTxBuffer := cmd ++ [nul]]> (mem w)) w.

(** The same board where no address of the flash can be read. *)
Definition without_flash (w : world) : world :=
  World (mem w) (ready w) (spi_rx w) (spi_tx w) (fun _ => None) (stack w) (trace w).

(** The board ready to transmit the command [A?\r]. *)
Definition transmit_board : world :=
  with_command (bytes "A?" ++ [CR]) (board [] [] [true]).

(** One exchange of [AD\r] answered by [OK] behind a padding byte; and the
    same exchange with Ready high again right after the receive loop has
    ended. *)
Definition exchange_board : world :=
  with_command (bytes "AD" ++ [CR])
    (board (exchange_polls 2) [padded (bytes "OK")] [true]).

Definition overflow_board : world :=
  with_command (bytes "AD" ++ [CR])
    (board [true; true; true; true; false; true] [padded (bytes "OK")] [true]).

(** The board with a response in [wifiRxBuffer]. *)
Definition with_response (resp : list ascii) (w : world) : world :=
  set_mem (<[wifiRxBuffer := resp ++ [nul]]> (mem w)) w.

(** Three exchanges, each answered by [OK] behind a padding byte. *)
Definition server_board : world :=
  board (concat (replicate 3 (exchange_polls 2))) (replicate 3 (padded (bytes "OK")))
    (replicate 3 true).

(** One exchange of [P2=80\r], a command of odd declared size, answered by
    [OK] behind a padding byte. *)
Definition port_board : world :=
  with_command (bytes "P2=80" ++ [CR])
    (board (exchange_polls 2) [padded (bytes "OK")] [true]).

(** * Properties *)

(** ** Arrays *)

Lemma len_cons a l : len (a :: l) = len l + 1.
Proof. unfold len. simpl length. lia. Qed.

Lemma len_app l1 l2 : len (l1 ++ l2) = len l1 + len l2.
Proof. unfold len. rewrite length_app. lia. Qed.

Lemma len_replicate a n : len (replicate n a) = Z.of_nat n.
Proof. unfold len. now rewrite length_replicate. Qed.

Lemma len_nonneg l : 0 <= len l.
Proof. unfold len. lia. Qed.

Lemma in_bounds_nat buf k :
  (k < length buf)%nat -> in_bounds buf (Z.of_nat k) = true.
Proof.
  intros H. unfold in_bounds, len.
  apply andb_true_intro. split; [apply Z.leb_le | apply Z.ltb_lt]; lia.
Qed.

Lemma load_lookup buf k a : buf !! k = Some a -> load buf (Z.of_nat k) = Ret a.
Proof.
  intros H. unfold load.
  rewrite in_bounds_nat by (eapply lookup_lt_Some; eassumption).
  now rewrite Nat2Z.id, H.
Qed.

Lemma load_outside buf i : len buf <= i -> load buf i = Undef (OutOfBounds i).
Proof.
  intros H. unfold load, in_bounds.
  replace (i <? len buf) with false by (symmetry; apply Z.ltb_ge; lia).
  now rewrite andb_false_r.
Qed.

Lemma load_inside buf i :
  0 <= i < len buf -> exists a, buf !! Z.to_nat i = Some a /\ load buf i = Ret a.
Proof.
  intros H. destruct (lookup_lt_is_Some_2 buf (Z.to_nat i)) as [a Ha].
  - unfold len in H. lia.
  - exists a. split; [exact Ha|].
    rewrite <- (Z2Nat.id i) at 1 by lia. now apply load_lookup.
Qed.

Lemma load_middle (pre : list ascii) (a : ascii) (post : list ascii) :
  load (pre ++ a :: post) (len pre) = Ret a.
Proof.
  unfold len. apply load_lookup.
  rewrite lookup_app_r by lia. now rewrite Nat.sub_diag.
Qed.

Lemma load_Ret_inv buf i a :
  load buf i = Ret a -> 0 <= i < len buf /\ buf !! Z.to_nat i = Some a.
Proof.
  unfold load, in_bounds. intros H.
  destruct (Z.leb_spec 0 i); [|discriminate].
  destruct (Z.ltb_spec i (len buf)); [|discriminate]. cbn in H.
  destruct (buf !! Z.to_nat i); [|discriminate]. injection H as ->. auto with lia.
Qed.

Lemma store_inside buf k a :
  (k < length buf)%nat -> store buf (Z.of_nat k) a = Ret (<[k := a]> buf).
Proof.
  intros H. unfold store. rewrite in_bounds_nat by assumption.
  now rewrite Nat2Z.id.
Qed.

Lemma store_inside_Z buf i a :
  0 <= i < len buf -> store buf i a = Ret (<[Z.to_nat i := a]> buf).
Proof.
  intros H. unfold store, in_bounds.
  replace (0 <=? i) with true by (symmetry; apply Z.leb_le; lia).
  replace (i <? len buf) with true by (symmetry; apply Z.ltb_lt; lia).
  reflexivity.
Qed.

Lemma eqb_neq_false (a b : ascii) : a <> b -> Ascii.eqb a b = false.
Proof. intros H. now apply Ascii.eqb_neq. Qed.

Lemma not_in_replicate (a b : ascii) (n : nat) : a <> b -> ~ In a (replicate n b).
Proof.
  intros Hab Hin. apply list_elem_of_In, elem_of_replicate in Hin. tauto.
Qed.

Lemma replicate_shift (a : ascii) (t : nat) (rest : list ascii) :
  replicate t a ++ a :: rest = replicate (S t) a ++ rest.
Proof. induction t; cbn in *; congruence. Qed.

(** ** The C library functions *)

Lemma pure_Ret {A} (a : A) : pure (Ret a).
Proof. split; discriminate. Qed.

Lemma pure_Undef {A} u : pure (@Undef A u).
Proof. split; discriminate. Qed.

Lemma pure_obind {A B} (x : outcome A) (f : A -> outcome B) :
  pure x -> (forall a, pure (f a)) -> pure (obind x f).
Proof. intros [H1 H2] Hf. destruct x; cbn; auto; split; congruence. Qed.

Lemma pure_load buf i : pure (load buf i).
Proof.
  unfold load. destruct (in_bounds buf i); [|apply pure_Undef].
  destruct (buf !! Z.to_nat i); [apply pure_Ret | apply pure_Undef].
Qed.

Lemma pure_store buf i a : pure (store buf i a).
Proof. unfold store. destruct (in_bounds buf i); [apply pure_Ret | apply pure_Undef]. Qed.

Ltac pure_step :=
  first [ apply pure_Ret | apply pure_Undef | apply pure_load | apply pure_store
        | apply pure_obind; [|intros ?]
        | match goal with
          | |- pure (if ?b then _ else _) => destruct b
          | |- pure (match ?x with _ => _ end) => destruct x
          | |- pure (let 'pair _ _ := ?x in _) => destruct x
          end ].

Lemma pure_format_loop fuel : forall dst d room fmt k j,
  pure (format_loop fuel dst d room fmt k j).
Proof.
  induction fuel as [|fuel IH]; intros; cbn [format_loop]; [apply pure_Undef|].
  unfold fetch, emit. repeat (apply IH || pure_step).
Qed.

Lemma pure_snprintf dst d n fmt : pure (snprintf dst d n fmt).
Proof. unfold snprintf. repeat (apply pure_format_loop || pure_step). Qed.

Lemma pure_strlen_loop fuel : forall buf ofs k, pure (strlen_loop fuel buf ofs k).
Proof.
  induction fuel as [|fuel IH]; intros; cbn [strlen_loop]; [apply pure_Undef|].
  repeat (apply IH || pure_step).
Qed.

Lemma pure_copy_string fuel : forall dst d src s k, pure (copy_string fuel dst d src s k).
Proof.
  induction fuel as [|fuel IH]; intros; cbn [copy_string]; [apply pure_Undef|].
  repeat (apply IH || pure_step).
Qed.

Lemma pure_strcat dst src s : pure (strcat dst src s).
Proof.
  unfold strcat, strlen. repeat (apply pure_strlen_loop || apply pure_copy_string || pure_step).
Qed.

Lemma pure_memset buf a n : pure (memset buf a n).
Proof. unfold memset. repeat pure_step. Qed.

(** [strlen] returns the index of the first terminator. *)
Lemma strlen_loop_inv (fuel : nat) :
  forall buf (k : nat) l,
    strlen_loop fuel buf 0 (Z.of_nat k) = Ret l ->
    exists n, l = Z.of_nat (k + n)
      /\ buf !! (k + n)%nat = Some nul
      /\ ~ In nul (take n (drop k buf)).
Proof.
  induction fuel as [|fuel IH]; intros buf k l H; [discriminate|].
  cbn [strlen_loop] in H. rewrite Z.add_0_l in H.
  destruct (load buf (Z.of_nat k)) as [a| | |] eqn:Ha; try discriminate.
  cbn [obind] in H. apply load_Ret_inv in Ha as [_ Ha]. rewrite Nat2Z.id in Ha.
  destruct (Ascii.eqb_spec a nul) as [->|Hn].
  - injection H as <-. exists 0%nat. rewrite Nat.add_0_r. auto.
  - replace (Z.of_nat k + 1) with (Z.of_nat (S k)) in H by lia.
    apply IH in H as (n & -> & Hl & Hnot). exists (S n).
    replace (k + S n)%nat with (S k + n)%nat by lia. repeat split; [exact Hl|].
    rewrite (drop_S _ _ _ Ha). cbn [take]. intros [Heq|Hin]; [congruence | contradiction].
Qed.

Lemma cstring_inv buf s :
  cstring buf 0 = Ret s ->
  exists rest, buf = s ++ nul :: rest /\ ~ In nul s.
Proof.
  unfold cstring, strlen. intros H.
  destruct (strlen_loop _ buf 0 0) as [l| | |] eqn:Hl; try discriminate.
  cbn [obind] in H. injection H as <-.
  apply (strlen_loop_inv _ buf 0%nat) in Hl as (n & -> & Hn & Hnot).
  cbn [Nat.add] in *. rewrite Nat2Z.id. change (Z.to_nat 0) with 0%nat. cbn [drop] in *.
  exists (drop (S n) buf). split; [|exact Hnot].
  rewrite <- (drop_S _ _ _ Hn). symmetry. apply take_drop.
Qed.

Lemma strlen_loop_found (s : list ascii) :
  forall pre rest fuel,
    ~ In nul s -> (length s < fuel)%nat ->
    strlen_loop fuel (pre ++ s ++ nul :: rest) 0 (len pre) = Ret (len pre + len s).
Proof.
  induction s as [|a s IH]; intros pre rest fuel Hs Hf;
    (destruct fuel as [|fuel]; [cbn in Hf; lia|]); cbn [strlen_loop app];
    rewrite Z.add_0_l, load_middle; cbn [obind].
  - rewrite Ascii.eqb_refl. f_equal. unfold len. cbn. lia.
  - rewrite (eqb_neq_false a nul) by (intros ->; apply Hs; now left).
    specialize (IH (pre ++ [a]) rest fuel).
    rewrite <- app_assoc in IH. cbn [app] in IH.
    replace (len (pre ++ [a])) with (len pre + 1) in IH
      by (rewrite len_app; reflexivity).
    rewrite IH.
    + f_equal. rewrite len_cons. lia.
    + intros Hin. apply Hs. now right.
    + cbn in Hf. lia.
Qed.

Lemma cstring_spec (s rest : list ascii) :
  ~ In nul s -> cstring (s ++ nul :: rest) 0 = Ret s.
Proof.
  intros Hs. unfold cstring, strlen.
  rewrite (strlen_loop_found s [] rest) by (auto; rewrite length_app; lia).
  cbn [obind].
  unfold len. cbn [length]. rewrite Z.add_0_l, Nat2Z.id.
  change (Z.to_nat 0) with 0%nat. rewrite drop_0.
  now rewrite take_app_length.
Qed.

Lemma cstring_all_nul (n : nat) : cstring (replicate (S n) nul) 0 = Ret [].
Proof.
  unfold cstring, strlen. cbn [strlen_loop].
  rewrite load_lookup with (k := 0%nat) (a := nul) by reflexivity.
  reflexivity.
Qed.

Lemma code_nul_iff a : code a = 0 <-> a = nul.
Proof.
  unfold code. split.
  - intros H. assert (N_of_ascii a = 0%N) by lia.
    rewrite <- (ascii_N_embedding a), H0. reflexivity.
  - intros ->. reflexivity.
Qed.

Lemma code_inj a b : code a = code b -> a = b.
Proof.
  unfold code. intros H. assert (N_of_ascii a = N_of_ascii b) by lia.
  rewrite <- (ascii_N_embedding a), <- (ascii_N_embedding b). congruence.
Qed.

(** [strcmp] returns, and returns 0 exactly on equal strings. *)
Lemma strcmp_loop_spec (s : list ascii) :
  forall m p1 p2 r1 fuel,
    ~ In nul s -> ~ In nul m -> length p1 = length p2 -> (length s < fuel)%nat ->
    zero_iff (s = m)
      (strcmp_loop fuel (p1 ++ s ++ nul :: r1) (p2 ++ m ++ [nul]) (len p1)).
Proof.
  induction s as [|a s IH]; intros m p1 p2 r1 fuel Hs Hm Hp Hf;
    (destruct fuel as [|fuel]; [cbn in Hf; lia|]); cbn [strcmp_loop app].
  - rewrite load_middle. cbn [obind].
    replace (len p1) with (len p2) by (unfold len; lia).
    destruct m as [|b m]; cbn [app]; rewrite load_middle; cbn [obind].
    + cbn. tauto.
    + assert (b <> nul) by (intros ->; apply Hm; now left).
      rewrite (eqb_neq_false nul b) by congruence. cbn [negb zero_iff].
      split; [|discriminate].
      intros Hd. exfalso. apply H. apply code_nul_iff.
      change (code nul) with 0 in Hd. lia.
  - assert (Ha : a <> nul) by (intros ->; apply Hs; now left).
    rewrite load_middle. cbn [obind].
    replace (len p1) with (len p2) at 1 by (unfold len; lia).
    destruct m as [|b m]; cbn [app]; rewrite load_middle; cbn [obind].
    + rewrite (eqb_neq_false a nul) by assumption. cbn [negb zero_iff].
      split; [|discriminate].
      intros Hd. exfalso. apply Ha. apply code_nul_iff.
      change (code nul) with 0 in Hd. lia.
    + destruct (Ascii.eqb_spec a b) as [->|Hab]; cbn [negb].
      * rewrite (eqb_neq_false b nul) by assumption.
        assert (IH' : zero_iff (s = m)
                  (strcmp_loop fuel (p1 ++ b :: s ++ nul :: r1)
                     (p2 ++ b :: m ++ [nul]) (len p1 + 1))).
        { specialize (IH m (p1 ++ [b]) (p2 ++ [b]) r1 fuel).
          rewrite <- !app_assoc in IH. cbn [app] in IH.
          replace (len (p1 ++ [b])) with (len p1 + 1) in IH
            by (rewrite len_app; reflexivity).
          apply IH.
          - intros Hin. apply Hs. now right.
          - intros Hin. apply Hm. now right.
          - rewrite !length_app. cbn. lia.
          - cbn in Hf. lia. }
        replace (len p2 + 1) with (len p1 + 1) by (unfold len; lia).
        destruct (strcmp_loop fuel _ _ _) as [d| | |];
          cbn [zero_iff] in *; try contradiction.
        rewrite IH'. split; [congruence|]. intros Heq. now injection Heq.
      * cbn [zero_iff]. split; [|congruence].
        intros Hd. exfalso. apply Hab. apply code_inj. lia.
Qed.

Lemma strcmp_spec s m rest :
  ~ In nul s -> ~ In nul m ->
  zero_iff (s = m) (strcmp (s ++ nul :: rest) (m ++ [nul])).
Proof.
  intros Hs Hm. unfold strcmp.
  apply (strcmp_loop_spec s m [] [] rest); auto.
  rewrite length_app. lia.
Qed.

(** [strstr] for a needle of one byte. *)
Lemma strstr_loop_found (x : ascii) (pre : list ascii) :
  forall done post fuel,
    ~ In x pre -> ~ In nul pre -> (length pre < fuel)%nat ->
    strstr_loop fuel (done ++ pre ++ x :: post) (len done) [x]
    = Ret (Some (len done + len pre)).
Proof.
  induction pre as [|a pre IH]; intros done post fuel Hx Hn Hf;
    (destruct fuel as [|fuel]; [cbn in Hf; lia|]); cbn [strstr_loop match_at app].
  - rewrite load_middle. cbn [obind]. rewrite Ascii.eqb_refl. cbn [obind].
    f_equal. f_equal. unfold len. cbn. lia.
  - rewrite load_middle. cbn [obind].
    rewrite (eqb_neq_false a x) by (intros ->; apply Hx; now left). cbn [obind].
    rewrite (eqb_neq_false a nul) by (intros ->; apply Hn; now left).
    specialize (IH (done ++ [a]) post fuel).
    rewrite <- app_assoc in IH. cbn [app] in IH.
    replace (len (done ++ [a])) with (len done + 1) in IH
      by (rewrite len_app; reflexivity).
    rewrite IH.
    + f_equal. f_equal. rewrite len_cons. lia.
    + intros Hin. apply Hx. now right.
    + intros Hin. apply Hn. now right.
    + cbn in Hf. lia.
Qed.

Lemma strstr_found (x : ascii) (done pre post : list ascii) :
  ~ In x pre -> ~ In nul pre ->
  strstr (done ++ pre ++ x :: post) (len done) [x] = Ret (Some (len done + len pre)).
Proof.
  intros Hx Hn. unfold strstr. apply strstr_loop_found; auto.
  rewrite !length_app. lia.
Qed.

Lemma memset_all (buf : list ascii) (a : ascii) :
  memset buf a (len buf) = Ret (replicate (length buf) a).
Proof.
  unfold memset. rewrite Z.leb_refl. unfold len. rewrite Nat2Z.id.
  rewrite drop_all, app_nil_r. reflexivity.
Qed.

Lemma plain_not_nul (v : list ascii) : Forall plain v -> ~ In nul v.
Proof.
  intros Hv Hin. rewrite Forall_forall in Hv.
  apply list_elem_of_In, Hv in Hin. now destruct Hin.
Qed.

(** [snprintf] from another object: a format without conversions is copied,
    cut to the room there is, and read to its end. *)
Lemma format_loop_other (s : list ascii) :
  forall pre post fuel dst d room ofs k j p,
    Forall plain s -> (length s < fuel)%nat ->
    ofs + k = len pre -> Z.of_nat p = d + j ->
    (room <= j \/
     (p + Nat.min (length s) (Z.to_nat (room - j)) <= length dst)%nat) ->
    format_loop fuel dst d room (Other (pre ++ s ++ nul :: post) ofs) k j
    = Ret (list_inserts p (take (Z.to_nat (room - j)) s) dst, j + len s).
Proof.
  induction s as [|a s IH]; intros pre post fuel dst d room ofs k j p Hs Hf Hk Hp Hb;
    (destruct fuel as [|fuel]; [cbn in Hf; lia|]); cbn [format_loop fetch app].
  - rewrite Hk, load_middle. cbn [obind]. rewrite Ascii.eqb_refl.
    rewrite take_nil. cbn [list_inserts]. f_equal. f_equal. unfold len. cbn. lia.
  - inversion Hs as [|? ? [Ha1 Ha2] Hs']; subst.
    rewrite Hk, load_middle. cbn [obind].
    rewrite (eqb_neq_false a nul), (eqb_neq_false a percent) by assumption.
    specialize (IH (pre ++ [a]) post fuel).
    rewrite <- app_assoc in IH. cbn [app] in IH.
    unfold emit. destruct (Z.ltb_spec j room) as [Hlt|Hge].
    + destruct Hb as [Hb|Hb]; [lia|].
      replace (Z.to_nat (room - j)) with (S (Z.to_nat (room - (j + 1)))) in * by lia.
      cbn [length] in Hb.
      rewrite <- Hp, store_inside by lia. cbn [obind].
      rewrite (IH _ d room ofs (k + 1) (j + 1) (S p)).
      * cbn [take list_inserts]. rewrite list_insert_inserts_lt by lia.
        f_equal. f_equal. rewrite len_cons. lia.
      * exact Hs'.
      * cbn in Hf. lia.
      * rewrite len_app. unfold len at 2. cbn. lia.
      * lia.
      * right. rewrite length_insert. lia.
    + cbn [obind].
      rewrite (IH _ d room ofs (k + 1) (j + 1) (S p)).
      * replace (Z.to_nat (room - j)) with 0%nat by lia.
        replace (Z.to_nat (room - (j + 1))) with 0%nat by lia.
        cbn [take list_inserts]. f_equal. f_equal. rewrite len_cons. lia.
      * exact Hs'.
      * cbn in Hf. lia.
      * rewrite len_app. unfold len at 2. cbn. lia.
      * lia.
      * left. lia.
Qed.

(** [snprintf] inside one array, from a higher index to a lower one: the
    bytes that are written lie behind the byte that is read. *)
Lemma format_loop_same (v : list ascii) :
  forall pre post fuel room ofs k j (p : nat),
    Forall plain v -> (length v < fuel)%nat ->
    ofs + k = len pre -> j = Z.of_nat p -> (p <= length pre)%nat ->
    format_loop fuel (pre ++ v ++ nul :: post) 0 room (Same ofs) k j
    = Ret (list_inserts p (take (Z.to_nat (room - j)) v) (pre ++ v ++ nul :: post),
           j + len v).
Proof.
  induction v as [|a v IH]; intros pre post fuel room ofs k j p Hv Hf Hk Hj Hp;
    (destruct fuel as [|fuel]; [cbn in Hf; lia|]); cbn [format_loop fetch app].
  - rewrite Hk, load_middle. cbn [obind]. rewrite Ascii.eqb_refl.
    rewrite take_nil. cbn [list_inserts]. f_equal. f_equal. unfold len. cbn. lia.
  - inversion Hv as [|? ? [Ha1 Ha2] Hv']; subst.
    rewrite Hk, load_middle. cbn [obind].
    rewrite (eqb_neq_false a nul), (eqb_neq_false a percent) by assumption.
    assert (Hshape : pre ++ a :: v ++ nul :: post = (pre ++ [a]) ++ v ++ nul :: post)
      by (rewrite <- app_assoc; reflexivity).
    unfold emit. destruct (Z.ltb_spec (Z.of_nat p) room) as [Hlt|Hge].
    + replace (Z.to_nat (room - Z.of_nat p))
        with (S (Z.to_nat (room - (Z.of_nat p + 1)))) by lia.
      rewrite Z.add_0_l, store_inside by (rewrite length_app; cbn; lia).
      cbn [obind take list_inserts].
      rewrite list_insert_inserts_lt by lia.
      rewrite Hshape, insert_app_l by (rewrite length_app; cbn; lia).
      rewrite (IH _ post fuel room ofs (k + 1) (Z.of_nat p + 1) (S p)).
      * f_equal. f_equal. rewrite len_cons. lia.
      * exact Hv'.
      * cbn in Hf. lia.
      * unfold len in *. rewrite length_insert, length_app. cbn. lia.
      * lia.
      * rewrite length_insert, length_app. cbn. lia.
    + cbn [obind]. rewrite Hshape.
      rewrite (IH _ post fuel room ofs (k + 1) (Z.of_nat p + 1) (S p)).
      * replace (Z.to_nat (room - Z.of_nat p)) with 0%nat by lia.
        replace (Z.to_nat (room - (Z.of_nat p + 1))) with 0%nat by lia.
        cbn [take list_inserts]. f_equal. f_equal. rewrite len_cons. lia.
      * exact Hv'.
      * cbn in Hf. lia.
      * rewrite len_app. unfold len at 2. cbn. lia.
      * lia.
      * rewrite length_app. cbn. lia.
Qed.

(** ** [trimstr] *)

Lemma pure_find_end fuel : forall str strSize i, pure (find_end fuel str strSize i).
Proof.
  induction fuel as [|fuel IH]; intros; cbn [find_end].
  - repeat pure_step.
  - repeat (apply IH || pure_step).
Qed.

Lemma pure_back_scan fuel : forall str c i endPos, pure (back_scan fuel str c i endPos).
Proof.
  induction fuel as [|fuel IH]; intros; cbn [back_scan].
  - repeat pure_step.
  - repeat (apply IH || pure_step).
Qed.

Lemma pure_lead_run fuel : forall str strSize c i trimPos,
  pure (lead_run fuel str strSize c i trimPos).
Proof.
  induction fuel as [|fuel IH]; intros; cbn [lead_run].
  - repeat pure_step.
  - repeat (apply IH || pure_step).
Qed.

Lemma pure_trimstr str strSize c : pure (trimstr str strSize c).
Proof.
  unfold trimstr.
  repeat (apply pure_find_end || apply pure_back_scan || apply pure_lead_run
          || apply pure_snprintf || pure_step).
Qed.

(** The backward scan of a string that ends at [endPos >= 1] stays inside the
    array: it reads [endPos - 1] down to 1 at most, and returns. *)
Lemma back_scan_inside (c : ascii) (fuel : nat) :
  forall (str : list ascii) (i endPos : Z),
    0 <= i < len str -> i <= Z.of_nat fuel ->
    exists str' endPos',
      back_scan fuel str c i endPos = Ret (str', endPos')
      /\ length str' = length str
      /\ (endPos' = endPos \/ 1 <= endPos' <= i).
Proof.
  induction fuel as [|fuel IH]; intros str i endPos Hi Hf.
  - assert (i = 0) by lia. subst i. exists str, endPos. cbn. auto.
  - cbn [back_scan]. destruct (Z.ltb_spec 0 i) as [Hpos|Hz].
    + destruct (load_inside str i Hi) as (a & Ha & ->). cbn [obind].
      destruct (Ascii.eqb a c).
      * rewrite store_inside_Z by lia. cbn [obind].
        destruct (IH (<[Z.to_nat i := nul]> str) (i - 1) i) as (s' & e' & -> & Hl & He).
        -- unfold len. rewrite length_insert. unfold len in Hi. lia.
        -- lia.
        -- exists s', e'. rewrite Hl, length_insert.
           split; [reflexivity|]. split; [reflexivity|]. right. lia.
      * exists str, endPos. auto.
    + exists str, endPos. auto.
Qed.

(** A string that is empty (its first byte is the terminator) sends the
    backward scan to index [2^32 - 1]. *)
Lemma trimstr_empty_string (str : list ascii) (strSize : Z) (c : ascii) :
  str !! 0%nat = Some nul -> 0 < strSize -> len str < 2 ^ 32 ->
  trimstr str strSize c = Undef (OutOfBounds (2 ^ 32 - 1)).
Proof.
  intros H0 Hs Hl. unfold trimstr.
  destruct str as [|a str]; [discriminate|]. injection H0 as ->.
  cbn [length find_end].
  replace (0 <? strSize) with true by (symmetry; apply Z.ltb_lt; lia).
  rewrite load_lookup with (k := 0%nat) (a := nul) by reflexivity.
  cbn [obind]. change (Ascii.eqb nul nul) with true. cbn [negb obind].
  change (uint32 (0 - 1)) with (2 ^ 32 - 1).
  cbn [back_scan]. change (0 <? 2 ^ 32 - 1) with true. cbv iota.
  rewrite load_outside by lia. reflexivity.
Qed.

Section AllSentinel.
Variable c : ascii.
Hypothesis c_not_nul : c <> nul.

Lemma find_end_run (k m : nat) (strSize : Z) (fuel : nat) :
  Z.of_nat (k + m) < strSize -> (m < fuel)%nat ->
  find_end fuel (replicate (k + m) c ++ [nul]) strSize (Z.of_nat k)
  = Ret (Z.of_nat (k + m)).
Proof.
  revert k fuel. induction m as [|m IH]; intros k fuel Hs Hf.
  - destruct fuel as [|fuel]; [lia|]. cbn [find_end].
    replace (Z.of_nat k <? strSize) with true by (symmetry; apply Z.ltb_lt; lia).
    rewrite (load_lookup _ k nul).
    + cbn. rewrite Nat.add_0_r. reflexivity.
    + rewrite Nat.add_0_r, lookup_app_r by (rewrite length_replicate; lia).
      rewrite length_replicate, Nat.sub_diag. reflexivity.
  - destruct fuel as [|fuel]; [lia|]. cbn [find_end].
    replace (Z.of_nat k <? strSize) with true by (symmetry; apply Z.ltb_lt; lia).
    rewrite (load_lookup _ k c).
    + cbn [obind]. rewrite (eqb_neq_false c nul) by assumption. cbn [negb].
      replace (Z.of_nat k + 1) with (Z.of_nat (S k)) by lia.
      replace (k + S m)%nat with (S k + m)%nat by lia.
      apply IH; lia.
    + rewrite lookup_app_l by (rewrite length_replicate; lia).
      apply lookup_replicate_2. lia.
Qed.

Lemma lookup_run (k : nat) (rest : list ascii) :
  (c :: replicate k c ++ rest) !! k = Some c.
Proof. induction k as [|k IH]; [reflexivity | exact IH]. Qed.

Lemma insert_run (k m : nat) :
  <[S k := nul]> (c :: replicate (S k) c ++ replicate m nul)
  = c :: replicate k c ++ replicate (S m) nul.
Proof.
  change (<[S k := nul]> (c :: replicate (S k) c ++ replicate m nul))
    with (c :: <[k := nul]> (replicate (S k) c ++ replicate m nul)).
  f_equal. induction k as [|k IH]; [reflexivity|].
  change (<[S k := nul]> (replicate (S (S k)) c ++ replicate m nul))
    with (c :: <[k := nul]> (replicate (S k) c ++ replicate m nul)).
  rewrite IH. reflexivity.
Qed.

(** The backward scan turns the run into terminators down to index 1 and
    leaves index 0 alone. *)
Lemma back_scan_run (k m fuel : nat) (endPos : Z) :
  (k <= fuel)%nat ->
  back_scan fuel (c :: replicate k c ++ replicate m nul) c (Z.of_nat k) endPos
  = Ret (c :: replicate (k + m) nul, if (k =? 0)%nat then endPos else 1).
Proof.
  revert m fuel endPos. induction k as [|k IH]; intros m fuel endPos Hf.
  - destruct fuel; reflexivity.
  - destruct fuel as [|fuel]; [lia|]. cbn [back_scan].
    replace (0 <? Z.of_nat (S k)) with true by (symmetry; apply Z.ltb_lt; lia).
    rewrite (load_lookup _ (S k) c) by apply lookup_run.
    cbn [obind]. rewrite Ascii.eqb_refl.
    rewrite store_inside by (cbn; rewrite length_app, !length_replicate; lia).
    cbn [obind].
    replace (Z.of_nat (S k) - 1) with (Z.of_nat k) by lia.
    rewrite insert_run, IH by lia.
    replace (S k + m)%nat with (k + S m)%nat by lia.
    f_equal. f_equal. destruct k; reflexivity.
Qed.

Lemma trimstr_run (n : nat) :
  (1 <= n)%nat -> Z.of_nat n + 1 < 2 ^ 32 ->
  trimstr (replicate n c ++ [nul]) (Z.of_nat n + 1) c = Ret (replicate (n + 1) nul).
Proof.
  intros Hn Hsz. unfold trimstr.
  rewrite (find_end_run 0 n) by (rewrite ?length_app, ?length_replicate; cbn; lia).
  cbn [obind Nat.add].
  destruct n as [|k]; [lia|].
  replace (uint32 (Z.of_nat (S k) - 1)) with (Z.of_nat k)
    by (unfold uint32; rewrite Z.mod_small; lia).
  replace (replicate (S k) c ++ [nul]) with (c :: replicate k c ++ replicate 1 nul)
    by reflexivity.
  rewrite back_scan_run by (cbn; rewrite length_app, length_replicate; lia).
  cbn [obind].
  set (e := if (k =? 0)%nat then Z.of_nat (S k) else 1).
  assert (He : e = 1) by (subst e; destruct k; reflexivity).
  rewrite He.
  replace (k + 1)%nat with (S k) by lia.
  cbn [length]. rewrite length_replicate.
  cbn [lead_run replicate].
  replace (0 <? Z.of_nat (S k) + 1) with true by (symmetry; apply Z.ltb_lt; lia).
  rewrite load_lookup with (k := 0%nat) (a := c) by reflexivity.
  cbn [obind]. rewrite Ascii.eqb_refl.
  replace (0 + 1 <? Z.of_nat (S k) + 1) with true by (symmetry; apply Z.ltb_lt; lia).
  rewrite load_lookup with (k := 1%nat) (a := nul) by reflexivity.
  cbn [obind]. rewrite (eqb_neq_false nul c) by congruence.
  cbn [obind]. change (uint32 (1 + 1 - (0 + 1))) with 1.
  unfold snprintf. cbn [extent format_loop fetch].
  rewrite load_lookup with (k := 1%nat) (a := nul) by reflexivity.
  cbn [obind]. rewrite Ascii.eqb_refl. cbn [obind].
  change (0 <? 1) with true. cbv iota.
  rewrite store_inside with (k := 0%nat) by (cbn; lia).
  cbn [obind]. replace (S k + 1)%nat with (S (S k)) by lia. reflexivity.
Qed.

End AllSentinel.

Lemma find_end_found (s : list ascii) :
  forall pre rest fuel strSize,
    ~ In nul s -> len pre + len s < strSize -> (length s < fuel)%nat ->
    find_end fuel (pre ++ s ++ nul :: rest) strSize (len pre) = Ret (len pre + len s).
Proof.
  induction s as [|a s IH]; intros pre rest fuel strSize Hs Hlt Hf;
    (destruct fuel as [|fuel]; [cbn in Hf; lia|]); cbn [find_end app];
    (replace (len pre <? strSize) with true
      by (symmetry; apply Z.ltb_lt; unfold len in *; cbn [length] in *; lia));
    rewrite load_middle; cbn [obind].
  - rewrite Ascii.eqb_refl. cbn [negb]. f_equal. unfold len. cbn. lia.
  - rewrite (eqb_neq_false a nul) by (intros ->; apply Hs; now left). cbn [negb].
    specialize (IH (pre ++ [a]) rest fuel strSize).
    rewrite <- app_assoc in IH. cbn [app] in IH.
    replace (len (pre ++ [a])) with (len pre + 1) in IH
      by (rewrite len_app; reflexivity).
    rewrite IH.
    + f_equal. rewrite len_cons. lia.
    + intros Hin. apply Hs. now right.
    + rewrite len_cons in Hlt. lia.
    + cbn in Hf. lia.
Qed.

Section Trim.
Variable c : ascii.

(** The backward scan over a trailing run of [t] sentinel bytes that follows
    a byte [x] other than the sentinel. *)
Lemma back_scan_trailing (t : nat) :
  forall pre x tail fuel endPos,
    x <> c -> (t < fuel)%nat ->
    back_scan fuel (pre ++ x :: replicate t c ++ tail) c (len pre + Z.of_nat t) endPos
    = Ret (pre ++ x :: replicate t nul ++ tail,
           if (t =? 0)%nat then endPos else len pre + 1).
Proof.
  induction t as [|t IH]; intros pre x tail fuel endPos Hx Hf;
    (destruct fuel as [|fuel]; [lia|]); cbn [back_scan].
  - rewrite Z.add_0_r. destruct (0 <? len pre); [|reflexivity].
    rewrite load_middle. cbn [obind]. now rewrite (eqb_neq_false x c).
  - pose proof (len_nonneg pre).
    replace (0 <? len pre + Z.of_nat (S t)) with true by (symmetry; apply Z.ltb_lt; lia).
    assert (Hshape : pre ++ x :: replicate (S t) c ++ tail
                     = (pre ++ x :: replicate t c) ++ c :: tail).
    { rewrite replicate_S_end, <- !app_assoc. reflexivity. }
    assert (Hidx : len pre + Z.of_nat (S t) = len (pre ++ x :: replicate t c)).
    { rewrite len_app, len_cons, len_replicate. lia. }
    rewrite Hshape, Hidx, load_middle. cbn [obind]. rewrite Ascii.eqb_refl.
    unfold len at 1. rewrite store_inside by (rewrite !length_app; cbn; lia).
    cbn [obind].
    rewrite insert_app_r_alt by lia. rewrite Nat.sub_diag. cbn [insert list_insert].
    rewrite <- app_assoc. cbn [app].
    replace (len (pre ++ x :: replicate t c) - 1) with (len pre + Z.of_nat t)
      by (rewrite len_app, len_cons, len_replicate; lia).
    rewrite IH by (assumption || lia).
    f_equal. f_equal.
    + rewrite replicate_S_end, <- !app_assoc. reflexivity.
    + rewrite len_app, len_cons, len_replicate. destruct t; cbn [Nat.eqb]; lia.
Qed.

(** The forward scan over a leading run of [m] sentinel bytes. *)
Lemma lead_run_found (m : nat) :
  forall pre y rest fuel strSize trimPos,
    y <> c -> len pre + Z.of_nat m < strSize -> (m < fuel)%nat ->
    lead_run fuel (pre ++ replicate m c ++ y :: rest) strSize c (len pre) trimPos
    = Ret (if (m =? 0)%nat then trimPos else len pre + Z.of_nat m).
Proof.
  induction m as [|m IH]; intros pre y rest fuel strSize trimPos Hy Hlt Hf;
    (destruct fuel as [|fuel]; [lia|]); cbn [lead_run replicate app];
    (replace (len pre <? strSize) with true by (symmetry; apply Z.ltb_lt; lia));
    rewrite load_middle; cbn [obind].
  - now rewrite (eqb_neq_false y c).
  - rewrite Ascii.eqb_refl.
    specialize (IH (pre ++ [c]) y rest fuel strSize (len pre + 1)).
    rewrite <- app_assoc in IH. cbn [app] in IH.
    replace (len (pre ++ [c])) with (len pre + 1) in IH
      by (rewrite len_app; reflexivity).
    rewrite IH by (assumption || lia).
    f_equal. destruct m; cbn [Nat.eqb]; lia.
Qed.

End Trim.

(** What [trimstr] does to a string that starts with [c] and keeps at least
    one byte: *)
Theorem trimstr_spec (c : ascii) (p t : nat) (v rest : list ascii) (strSize : Z) :
  (1 <= p)%nat -> c <> nul -> v <> [] -> Forall plain v ->
  head v <> Some c -> last v <> Some c ->
  Z.of_nat (p + length v + t) < strSize -> strSize < 2 ^ 32 ->
  trimstr (replicate p c ++ v ++ replicate t c ++ nul :: rest) strSize c
  = Ret (v ++ nul ::
           drop (S (length v)) (replicate p c ++ v ++ replicate (S t) nul ++ rest)).
Proof.
  intros Hp Hc Hv Hplain Hhd Hlast Hsize H32. unfold trimstr.
  set (str := replicate p c ++ v ++ replicate t c ++ nul :: rest).
  assert (Hlen : length str = (p + length v + t + 1 + length rest)%nat).
  { subst str. rewrite !length_app, !length_replicate. cbn. lia. }
  assert (Hvlen : (0 < length v)%nat) by (destruct v; [congruence | cbn; lia]).
  remember (length str) as fuel eqn:Hfuel. rewrite Hlen in Hfuel.
  (* the end of the string *)
  assert (Hend : find_end fuel str strSize 0 = Ret (Z.of_nat (p + length v + t))).
  { pose proof (find_end_found (replicate p c ++ v ++ replicate t c) [] rest
                  fuel strSize) as H.
    rewrite <- !app_assoc in H. cbn [app] in H. change (len []) with 0 in H.
    fold str in H. rewrite H.
    - f_equal. unfold len. rewrite !length_app, !length_replicate. lia.
    - rewrite !in_app_iff. intros [Hin|[Hin|Hin]].
      + revert Hin. apply not_in_replicate. congruence.
      + revert Hin. now apply plain_not_nul.
      + revert Hin. apply not_in_replicate. congruence.
    - unfold len. rewrite !length_app, !length_replicate. lia.
    - rewrite !length_app, !length_replicate. lia. }
  rewrite Hend. cbn [obind].
  replace (uint32 (Z.of_nat (p + length v + t) - 1))
    with (Z.of_nat (p + length v + t) - 1) by (unfold uint32; rewrite Z.mod_small; lia).
  (* the trailing run *)
  destruct (exists_last Hv) as (v0 & x & Hv0).
  assert (Hx : x <> c).
  { intros ->. apply Hlast. rewrite Hv0. apply last_snoc. }
  assert (Hback : back_scan fuel str c (Z.of_nat (p + length v + t) - 1)
                    (Z.of_nat (p + length v + t))
                  = Ret (replicate p c ++ v ++ replicate t nul ++ nul :: rest,
                         Z.of_nat (p + length v))).
  { pose proof (back_scan_trailing c t (replicate p c ++ v0) x (nul :: rest)
                  fuel (Z.of_nat (p + length v + t)) Hx) as H.
    assert (Hv1 : length v = S (length v0)) by (rewrite Hv0, length_app; cbn; lia).
    replace (len (replicate p c ++ v0) + Z.of_nat t)
      with (Z.of_nat (p + length v + t) - 1) in H
      by (rewrite len_app, len_replicate; unfold len; lia).
    replace (len (replicate p c ++ v0) + 1) with (Z.of_nat (p + length v)) in H
      by (rewrite len_app, len_replicate; unfold len; lia).
    replace ((replicate p c ++ v0) ++ x :: replicate t c ++ nul :: rest)
      with str in H by (unfold str; rewrite Hv0, <- !app_assoc; reflexivity).
    replace ((replicate p c ++ v0) ++ x :: replicate t nul ++ nul :: rest)
      with (replicate p c ++ v ++ replicate t nul ++ nul :: rest) in H
      by (rewrite Hv0, <- !app_assoc; reflexivity).
    rewrite H by lia. f_equal. f_equal.
    destruct t; cbn [Nat.eqb]; lia. }
  rewrite Hback. cbn [obind]. clear Hback Hend.
  set (str2 := replicate p c ++ v ++ replicate t nul ++ nul :: rest).
  assert (Hlen2 : length str2 = fuel).
  { subst str2 fuel. rewrite !length_app, !length_replicate. cbn. lia. }
  (* the leading run *)
  rewrite Hlen2.
  assert (Hlead : lead_run fuel str2 strSize c 0 0 = Ret (Z.of_nat p)).
  { destruct v as [|y v1]; [congruence|].
    assert (Hy : y <> c) by (intros ->; now apply Hhd).
    pose proof (lead_run_found c p [] y (v1 ++ replicate t nul ++ nul :: rest)
                  fuel strSize 0 Hy) as H.
    cbn [app] in H. change (len []) with 0 in H.
    unfold str2. cbn [app]. rewrite H by (cbn [length] in *; lia).
    destruct p; reflexivity. }
  rewrite Hlead. cbn [obind]. clear Hlead.
  replace (uint32 (Z.of_nat (p + length v) + 1 - Z.of_nat p))
    with (len v + 1) by (unfold uint32, len; rewrite Z.mod_small; lia).
  (* the copy *)
  unfold snprintf. cbn [extent].
  assert (Hshape : str2 = replicate p c ++ v ++ nul :: (replicate t nul ++ rest)).
  { subst str2. now rewrite replicate_shift. }
  rewrite Hshape at 2.
  rewrite (format_loop_same v (replicate p c) _ _ _ (Z.of_nat p) 0 0 0%nat);
    [ | exact Hplain | rewrite Hlen2; lia
      | rewrite len_replicate; lia | reflexivity | lia ].
  cbn [obind overlaps]. rewrite <- Hshape.
  replace (Z.of_nat p <=? 0) with false by (symmetry; apply Z.leb_gt; lia).
  replace (len v + 1 - 1 - 0) with (len v) by lia.
  replace (Z.to_nat (len v)) with (length v) by (unfold len; lia).
  rewrite firstn_all.
  replace (0 <? len v + 1) with true by (symmetry; apply Z.ltb_lt; unfold len; lia).
  replace (0 + Z.min (0 + len v) (len v + 1 - 1)) with (Z.of_nat (length v))
    by (unfold len; lia).
  rewrite store_inside by (rewrite length_inserts, Hlen2; lia).
  cbn [obind]. f_equal.
  rewrite <- (take_drop (length v) str2) at 1.
  rewrite list_inserts_0_r by (rewrite length_take, Hlen2; lia).
  rewrite insert_app_r_alt by lia. rewrite Nat.sub_diag.
  f_equal.
  assert (Hnth : exists z, str2 !! length v = Some z).
  { apply lookup_lt_is_Some_2. rewrite Hlen2. lia. }
  destruct Hnth as (z & Hz). rewrite (drop_S _ _ _ Hz). cbn [insert list_insert].
  f_equal. subst str2. now rewrite replicate_shift.
Qed.

(** ** Computations over the world *)

Lemma bind_Ret_inv {A B} (m : M A) (f : A -> M B) w b w' :
  bind m f w = (Ret b, w') ->
  exists a w1, m w = (Ret a, w1) /\ f a w1 = (Ret b, w').
Proof.
  unfold bind. destruct (m w) as [[a| |u|] w1]; intros H; try discriminate.
  exists a, w1. split; [reflexivity | exact H].
Qed.

Lemma bind_Ret {A B} (m : M A) (f : A -> M B) w a w1 :
  m w = (Ret a, w1) -> bind m f w = f a w1.
Proof. unfold bind. now intros ->. Qed.

Lemma lift_Ret {A} (o : outcome A) w a w' :
  lift o w = (Ret a, w') -> o = Ret a /\ w' = w.
Proof. unfold lift. intros H. inversion H. auto. Qed.

Lemma read_array_Ret b w l w' :
  read_array b w = (Ret l, w') -> mem w !! b = Some l /\ w' = w.
Proof.
  unfold read_array. destruct (mem w !! b); intros H; inversion H; auto.
Qed.

Lemma ready_Ret w r w' :
  WIFI_IS_CMDDATA_READY w = (Ret r, w') ->
  trace w' = trace w ++ [EvReady r] /\ mem w' = mem w.
Proof.
  unfold WIFI_IS_CMDDATA_READY.
  destruct (ready w) as [|x rest]; intros H; inversion H; subst; split; reflexivity.
Qed.

Lemma event_Ret e w u w' :
  emit_event e w = (Ret u, w') -> trace w' = trace w ++ [e] /\ mem w' = mem w.
Proof. intros H. inversion H; subst. split; reflexivity. Qed.

(** *** Events of every run *)

Lemma emits_nothing {A} Q (m : M A) :
  (forall w, trace (snd (m w)) = trace w) -> emits Q m.
Proof. intros H w. exists []. rewrite H, app_nil_r. split; [reflexivity | constructor]. Qed.

Lemma emits_ret {A} Q (a : A) : emits Q (ret a).
Proof. now apply emits_nothing. Qed.

Lemma emits_lift {A} Q (o : outcome A) : emits Q (lift o).
Proof. now apply emits_nothing. Qed.

Lemma emits_bind {A B} Q (m : M A) (f : A -> M B) :
  emits Q m -> (forall a, emits Q (f a)) -> emits Q (bind m f).
Proof.
  intros Hm Hf w. destruct (Hm w) as (e1 & H1 & Q1). unfold bind.
  destruct (m w) as [[a| |u|] w1]; cbn [snd] in *;
    try (exists e1; split; assumption).
  destruct (Hf a w1) as (e2 & H2 & Q2).
  exists (e1 ++ e2). rewrite H2, H1, app_assoc. split; [reflexivity|].
  apply Forall_app; split; assumption.
Qed.

Lemma emits_event Q (e : event) : Q e -> emits Q (emit_event e).
Proof. intros H w. exists [e]. split; [reflexivity | repeat constructor; exact H]. Qed.

Lemma emits_ready Q :
  Q (EvReady true) -> Q (EvReady false) -> emits Q WIFI_IS_CMDDATA_READY.
Proof.
  intros Ht Hf w. unfold WIFI_IS_CMDDATA_READY.
  destruct (ready w) as [|[] rest]; eexists [_]; (split; [reflexivity|]);
    repeat constructor; assumption.
Qed.

Lemma emits_Error_Handler {A} Q : Q EvErrorHandler -> emits Q (@Error_Handler A).
Proof. intros H w. exists [EvErrorHandler]. split; [reflexivity | repeat constructor; exact H]. Qed.

Lemma emits_read_array Q b : emits Q (read_array b).
Proof.
  apply emits_nothing. intros w. unfold read_array. now destruct (mem w !! b).
Qed.

Lemma emits_write_array Q b l : emits Q (write_array b l).
Proof. now apply emits_nothing. Qed.

Lemma emits_HAL_SPI_Receive Q buffer cursor :
  (forall d, Q (EvSpiRx cursor d)) -> emits Q (HAL_SPI_Receive buffer cursor).
Proof.
  intros H w. unfold HAL_SPI_Receive.
  destruct (spi_rx w) as [|[[a b]|] rest].
  - eexists [_]. split; [reflexivity | repeat constructor; apply H].
  - set (w1 := log _ _).
    assert (Hs : emits Q (bind (read_array buffer) (fun l =>
              bind (lift (store l cursor a)) (fun l1 =>
              bind (lift (store l1 (cursor + 1) b)) (fun l2 =>
              bind (write_array buffer l2) (fun _ => ret true)))))).
    { repeat (apply emits_bind; [|intros ?]);
        auto using emits_read_array, emits_lift, emits_write_array, emits_ret. }
    destruct (Hs w1) as (evs & He & HQ).
    exists (EvSpiRx cursor (Some (a, b)) :: evs). rewrite He. subst w1. cbn [trace log].
    rewrite <- app_assoc. split; [reflexivity|]. constructor; [apply H | exact HQ].
  - eexists [_]. split; [reflexivity | repeat constructor; apply H].
Qed.

Lemma emits_HAL_SPI_Transmit Q data units :
  (forall d ok, Q (EvSpiTx d ok)) -> emits Q (HAL_SPI_Transmit data units).
Proof.
  intros H w. unfold HAL_SPI_Transmit. destruct (2 * units <=? len data).
  - destruct (spi_tx w); eexists [_]; (split; [reflexivity | repeat constructor; apply H]).
  - exists []. cbn. rewrite app_nil_r. split; [reflexivity | constructor].
Qed.

Lemma emits_wait_ready Q fuel :
  Q (EvReady true) -> Q (EvReady false) -> emits Q (wait_ready fuel).
Proof.
  intros Ht Hf. induction fuel as [|fuel IH].
  - now apply emits_nothing.
  - cbn [wait_ready]. apply emits_bind; [now apply emits_ready|].
    intros []; cbn [negb]; [apply emits_ret | exact IH].
Qed.

Lemma emits_fuel {A} Q (loop : nat -> M A) (fuel : world -> nat) :
  (forall n, emits Q (loop n)) -> emits Q (fun w => loop (fuel w) w).
Proof. intros H w. apply (H (fuel w) w). Qed.

Lemma emits_while_not_ready Q :
  Q (EvReady true) -> Q (EvReady false) -> emits Q while_not_ready.
Proof.
  intros Ht Hf. unfold while_not_ready.
  apply (emits_fuel Q wait_ready). intros n. now apply emits_wait_ready.
Qed.

(** *** Memory *)

Lemma keeps_mem_ret {A} (a : A) : keeps_mem (ret a).
Proof. intros w. reflexivity. Qed.

Lemma keeps_mem_lift {A} (o : outcome A) : keeps_mem (lift o).
Proof. intros w. reflexivity. Qed.

Lemma keeps_mem_bind {A B} (m : M A) (f : A -> M B) :
  keeps_mem m -> (forall a, keeps_mem (f a)) -> keeps_mem (bind m f).
Proof.
  intros Hm Hf w. specialize (Hm w). unfold bind.
  destruct (m w) as [[a| |u|] w1]; cbn [snd] in *; try exact Hm.
  rewrite (Hf a w1). exact Hm.
Qed.

Lemma keeps_mem_read_array b : keeps_mem (read_array b).
Proof. intros w. unfold read_array. now destruct (mem w !! b). Qed.

Lemma keeps_mem_automatic n : keeps_mem (automatic n).
Proof. intros w. reflexivity. Qed.

Lemma keeps_mem_string_at_address a : keeps_mem (string_at_address a).
Proof. intros w. unfold string_at_address. now destruct (flash w _). Qed.

Lemma keeps_mem_HAL_SPI_Transmit data units : keeps_mem (HAL_SPI_Transmit data units).
Proof.
  intros w. unfold HAL_SPI_Transmit.
  destruct (2 * units <=? len data); [|reflexivity].
  now destruct (spi_tx w).
Qed.

Lemma keeps_mem_Error_Handler {A} : keeps_mem (@Error_Handler A).
Proof. intros w. reflexivity. Qed.

(** *** The phases of the exchange *)

Lemma steps_app p evs1 evs2 q :
  steps p evs1 = Some q -> steps p (evs1 ++ evs2) = steps q evs2.
Proof.
  revert p. induction evs1 as [|e evs1 IH]; intros p H; cbn in *.
  - now injection H as ->.
  - destruct (step p e); [now apply IH | discriminate].
Qed.

Lemma follows_bind {A B} p (m : M A) q (f : A -> M B) r :
  follows p m q -> (forall a, follows (q a) (f a) r) -> follows p (bind m f) r.
Proof.
  intros Hm Hf w. destruct (Hm w) as (e1 & r1 & H1 & S1 & O1). unfold bind.
  destruct (m w) as [[a| |u|] w1]; cbn [fst snd] in *;
    try (exists e1, r1; repeat split; assumption).
  subst r1. destruct (Hf a w1) as (e2 & r2 & H2 & S2 & O2).
  exists (e1 ++ e2), r2. rewrite H2, H1, app_assoc.
  split; [reflexivity|]. split; [|exact O2].
  now rewrite (steps_app _ _ _ _ S1).
Qed.

Lemma follows_quiet {A} p (m : M A) : quiet m -> follows p m (fun _ => p).
Proof.
  intros H w. destruct (H w) as [Ht Hf]. exists [], p.
  rewrite Ht, app_nil_r. repeat split.
  revert Hf. destruct (fst (m w)); intros; try reflexivity; try exact I; congruence.
Qed.

Lemma follows_weaken {A} p (m : M A) (q q' : A -> phase) :
  (forall a, q a = q' a) -> follows p m q -> follows p m q'.
Proof.
  intros Hq H w. destruct (H w) as (evs & r & Ht & Hs & Ho).
  exists evs, r. repeat split; try assumption.
  destruct (fst (m w)); try assumption. now rewrite <- Hq.
Qed.

Lemma follows_ret {A} p (a : A) q : q a = p -> follows p (ret a) q.
Proof.
  intros H w. exists [], p. cbn. rewrite app_nil_r. auto.
Qed.

Lemma follows_event p e q : step p e = Some q -> follows p (emit_event e) (fun _ => q).
Proof.
  intros H w. exists [e], q. cbn. rewrite H. auto.
Qed.

Lemma follows_ready p qt qf :
  step p (EvReady true) = Some qt -> step p (EvReady false) = Some qf ->
  follows p WIFI_IS_CMDDATA_READY (fun r : bool => if r then qt else qf).
Proof.
  intros Ht Hf w. unfold WIFI_IS_CMDDATA_READY.
  destruct (ready w) as [|[] rest];
    [ exists [EvReady false], qf | exists [EvReady true], qt | exists [EvReady false], qf ];
    cbn [fst snd trace log steps]; rewrite ?Ht, ?Hf; auto.
Qed.

Lemma follows_Error_Handler {A} p (q : A -> phase) :
  step p EvErrorHandler = Some Aborted -> follows p (@Error_Handler A) q.
Proof.
  intros H w. exists [EvErrorHandler], Aborted. cbn. rewrite H. auto.
Qed.

Lemma quiet_ret {A} (a : A) : quiet (ret a).
Proof. intros w. split; [reflexivity | discriminate]. Qed.

Lemma quiet_lift {A} (o : outcome A) : o <> Fatal -> quiet (lift o).
Proof. intros H w. split; [reflexivity | exact H]. Qed.

Lemma quiet_pure {A} (o : outcome A) : pure o -> quiet (lift o).
Proof. intros [H _]. now apply quiet_lift. Qed.

Lemma quiet_read_array b : quiet (read_array b).
Proof.
  intros w. unfold read_array. destruct (mem w !! b); split;
    reflexivity || discriminate.
Qed.

Lemma quiet_write_array b l : quiet (write_array b l).
Proof. intros w. split; [reflexivity | discriminate]. Qed.

Lemma quiet_bind {A B} (m : M A) (f : A -> M B) :
  quiet m -> (forall a, quiet (f a)) -> quiet (bind m f).
Proof.
  intros Hm Hf w. destruct (Hm w) as [Ht Ho]. unfold bind.
  destruct (m w) as [[a| |u|] w1]; cbn [fst snd] in *;
    try (split; [exact Ht | congruence]).
  destruct (Hf a w1) as [Ht' Ho']. split; [congruence | exact Ho'].
Qed.

Lemma follows_wait_ready p q fuel :
  step p (EvReady false) = Some p -> step p (EvReady true) = Some q ->
  follows p (wait_ready fuel) (fun _ => q).
Proof.
  intros Hf Ht. induction fuel as [|fuel IH].
  - intros w. exists [], p. cbn. rewrite app_nil_r. auto.
  - cbn [wait_ready].
    apply (follows_bind p _ (fun r : bool => if r then q else p)).
    + now apply follows_ready.
    + intros [|]; cbn [negb]; [now apply follows_ret | exact IH].
Qed.

Lemma follows_while_not_ready p q :
  step p (EvReady false) = Some p -> step p (EvReady true) = Some q ->
  follows p while_not_ready (fun _ => q).
Proof.
  intros Hf Ht w. unfold while_not_ready. now apply follows_wait_ready.
Qed.

Lemma follows_status_check p (st : WIFI_StatusTypeDef) :
  follows (after_status p st)
    (if negb (status_eqb st WIFI_OK) then Error_Handler else ret tt) (fun _ => p).
Proof.
  unfold after_status. destruct st; cbn [status_eqb negb].
  - now apply follows_ret.
  - now apply follows_Error_Handler.
Qed.

(** ** [WIFI_SPI_Transmit] *)

Lemma keeps_mem_WIFI_SPI_Transmit pad buffer size :
  keeps_mem (WIFI_SPI_Transmit pad buffer size).
Proof.
  unfold WIFI_SPI_Transmit.
  apply keeps_mem_bind; [apply keeps_mem_automatic | intros bTx].
  apply keeps_mem_bind; [apply keeps_mem_read_array | intros cmd].
  apply keeps_mem_bind; [apply keeps_mem_lift | intros [bTx' n]].
  apply keeps_mem_bind.
  { destruct (size mod 2 =? 0); [|apply keeps_mem_ret].
    apply keeps_mem_bind; [apply keeps_mem_string_at_address | intros s].
    apply keeps_mem_lift. }
  intros bTx''.
  apply keeps_mem_bind; [apply keeps_mem_HAL_SPI_Transmit | intros ok].
  apply keeps_mem_bind; [|intros _; apply keeps_mem_ret].
  destruct ok; [apply keeps_mem_ret | apply keeps_mem_Error_Handler].
Qed.

Lemma HAL_SPI_Transmit_Ret data units w ok w' :
  HAL_SPI_Transmit data units w = (Ret ok, w') ->
  trace w' = trace w ++ [EvSpiTx (take (Z.to_nat (2 * units)) data) ok].
Proof.
  unfold HAL_SPI_Transmit. destruct (2 * units <=? len data); [|discriminate].
  destruct (spi_tx w); intros H; inversion H; subst; reflexivity.
Qed.

Lemma WIFI_SPI_Transmit_Ret pad buffer size w st w' :
  WIFI_SPI_Transmit pad buffer size w = (Ret st, w') ->
  exists data, trace w' = trace w ++ [EvSpiTx data true] /\ st = WIFI_OK.
Proof.
  unfold WIFI_SPI_Transmit. intros H.
  apply bind_Ret_inv in H as (bTx & w1 & H1 & H). injection H1 as _ <-.
  apply bind_Ret_inv in H as (cmd & w2 & H2 & H).
  apply read_array_Ret in H2 as [_ ->].
  apply bind_Ret_inv in H as ([bTx' n] & w3 & H3 & H).
  apply lift_Ret in H3 as [_ ->].
  apply bind_Ret_inv in H as (bTx'' & w4 & H4 & H).
  assert (w4 = w) as ->.
  { destruct (size mod 2 =? 0).
    - apply bind_Ret_inv in H4 as (s & w5 & H5 & H4).
      apply lift_Ret in H4 as [_ ->].
      unfold string_at_address in H5. destruct (flash w _); inversion H5; reflexivity.
    - now injection H4 as _ <-. }
  apply bind_Ret_inv in H as (ok & w5 & H5 & H).
  apply HAL_SPI_Transmit_Ret in H5.
  apply bind_Ret_inv in H as ([] & w6 & H6 & H).
  destruct ok; [|discriminate]. injection H6 as <-. injection H as <- <-.
  eexists. split; [exact H5 | reflexivity].
Qed.

Lemma follows_HAL_SPI_Transmit data units :
  follows SelectedWrite (HAL_SPI_Transmit data units)
    (fun ok : bool => if ok then Written else Faulted).
Proof.
  intros w. unfold HAL_SPI_Transmit. destruct (2 * units <=? len data).
  - destruct (spi_tx w) as [|[] rest];
      [ exists [EvSpiTx (take (Z.to_nat (2 * units)) data) false], Faulted
      | exists [EvSpiTx (take (Z.to_nat (2 * units)) data) true], Written
      | exists [EvSpiTx (take (Z.to_nat (2 * units)) data) false], Faulted ];
      cbn; auto.
  - exists [], SelectedWrite. cbn. rewrite app_nil_r. auto.
Qed.

Lemma follows_WIFI_SPI_Transmit pad buffer size :
  follows SelectedWrite (WIFI_SPI_Transmit pad buffer size) (after_status Written).
Proof.
  unfold WIFI_SPI_Transmit.
  apply (follows_bind _ _ (fun _ => SelectedWrite)).
  { apply follows_quiet. intros w. split; [reflexivity | discriminate]. }
  intros bTx.
  apply (follows_bind _ _ (fun _ => SelectedWrite));
    [apply follows_quiet, quiet_read_array | intros cmd].
  apply (follows_bind _ _ (fun _ => SelectedWrite));
    [apply follows_quiet, quiet_pure, pure_snprintf | intros [bTx' n]].
  apply (follows_bind _ _ (fun _ => SelectedWrite)).
  { apply follows_quiet. destruct (size mod 2 =? 0); [|apply quiet_ret].
    apply quiet_bind; [|intros s; apply quiet_pure, pure_strcat].
    intros w. unfold string_at_address.
    destruct (flash w _); split; reflexivity || discriminate. }
  intros bTx''.
  apply (follows_bind _ _ (fun ok : bool => if ok then Written else Faulted));
    [apply follows_HAL_SPI_Transmit | intros ok].
  apply (follows_bind _ _ (fun _ => Written)).
  - destruct ok; cbn [negb];
      [now apply follows_ret | now apply follows_Error_Handler].
  - intros _. now apply follows_ret.
Qed.

(** ** [WIFI_SPI_Receive] *)

Section Receive.
Variable WIFI_RX_PADDING : ascii.
Variable buffer : N.
Variable size : Z.
Hypothesis size_uint16 : 0 <= size < 2 ^ 16.

Lemma receive_loop_inside (fuel : nat) :
  forall cnt, 0 <= cnt -> emits (rx_inside size) (receive_loop fuel buffer size cnt).
Proof.
  induction fuel as [|fuel IH]; intros cnt Hc.
  - now apply emits_nothing.
  - cbn [receive_loop]. apply emits_bind; [apply emits_ready; exact I|].
    intros [|]; [|apply emits_ret].
    apply emits_bind.
    + destruct (Z.ltb_spec (size - 2) cnt); [apply emits_ret|].
      apply emits_bind; [|intros ?; apply emits_ret].
      apply emits_HAL_SPI_Receive. intros d. cbn. lia.
    + intros failed. apply emits_bind.
      * destruct failed; [apply emits_Error_Handler; exact I | apply emits_ret].
      * intros _. apply IH. unfold uint16. apply Z.mod_pos_bound. lia.
Qed.

Lemma WIFI_SPI_Receive_inside :
  emits (rx_inside size) (WIFI_SPI_Receive WIFI_RX_PADDING buffer size).
Proof.
  unfold WIFI_SPI_Receive.
  repeat (apply emits_bind; [|intros ?]);
    auto using emits_read_array, emits_lift, emits_write_array, emits_ret.
  apply (emits_fuel _ (fun n => receive_loop n buffer size 0)).
  intros n. apply receive_loop_inside. lia.
Qed.

Lemma receive_loop_overflow (k : nat) :
  forall fuel w cnt l,
    take (S k) (ready w) = replicate (S k) true ->
    (k < fuel)%nat ->
    0 <= cnt -> size - 2 < cnt + 2 * Z.of_nat k ->
    mem w !! buffer = Some l -> size <= len l ->
    exists w', receive_loop fuel buffer size cnt w = (Fatal, w').
Proof.
  induction k as [|k IH]; intros fuel w cnt l Hr Hf Hc Hk Hm Hl;
    (destruct fuel as [|fuel]; [lia|]);
    (destruct (ready w) as [|r rest] eqn:Er; [discriminate|]);
    assert (Hr1 : r = true) by (cbn in Hr; congruence);
    subst r; cbn [receive_loop];
    unfold bind at 1, WIFI_IS_CMDDATA_READY; rewrite Er.
  - replace (size - 2 <? cnt) with true by (symmetry; apply Z.ltb_lt; lia).
    eexists. reflexivity.
  - destruct (Z.ltb_spec (size - 2) cnt) as [Hov|Hfit]; [eexists; reflexivity|].
    set (w1 := log _ _).
    unfold bind at 1. unfold bind at 1. unfold HAL_SPI_Receive.
    destruct (spi_rx w1) as [|[[a b]|] rx] eqn:Erx; try (eexists; reflexivity).
    set (w2 := log _ _).
    unfold bind at 1, read_array.
    replace (mem w2 !! buffer) with (Some l) by (symmetry; exact Hm).
    unfold bind at 1, lift. rewrite store_inside_Z by lia.
    unfold bind at 1. rewrite store_inside_Z
      by (unfold len in *; rewrite length_insert; lia).
    unfold bind at 1, write_array, ret. cbn [negb]. unfold bind at 1.
    set (w3 := set_mem _ _).
    apply (IH fuel w3 _ (<[Z.to_nat (cnt + 1) := b]> (<[Z.to_nat cnt := a]> l))).
    + subst w3 w2 w1. cbn in Hr |- *. congruence.
    + lia.
    + unfold uint16. apply Z.mod_pos_bound. lia.
    + unfold uint16. rewrite Z.mod_small by lia. lia.
    + subst w3. cbn [mem set_mem]. apply lookup_insert_eq.
    + unfold len in *. rewrite !length_insert. exact Hl.
Qed.

Lemma receive_loop_Ret (fuel : nat) :
  forall cnt w w',
    0 <= cnt ->
    receive_loop fuel buffer size cnt w = (Ret tt, w') ->
    exists frames,
      trace w' = trace w ++ rx_events frames cnt ++ [EvReady false].
Proof.
  induction fuel as [|fuel IH]; intros cnt w w' Hc H; [discriminate|].
  cbn [receive_loop] in H.
  apply bind_Ret_inv in H as ([|] & w1 & Hp & H).
  - apply bind_Ret_inv in H as (failed & w2 & Hx & H).
    apply bind_Ret_inv in H as ([] & w3 & Hy & H).
    destruct failed; [discriminate|]. injection Hy as <-.
    destruct (Z.ltb_spec (size - 2) cnt) as [Hov|Hfit]; [discriminate|].
    apply bind_Ret_inv in Hx as (ok & w4 & Hx & Hz).
    injection Hz as Hz <-. destruct ok; [|discriminate].
    apply IH in H as (frames & H);
      [|unfold uint16; apply Z.mod_pos_bound; lia].
    unfold uint16 in H. rewrite Z.mod_small in H by lia.
    unfold HAL_SPI_Receive in Hx.
    assert (Hw1 : trace w1 = trace w ++ [EvReady true]).
    { unfold WIFI_IS_CMDDATA_READY in Hp.
      destruct (ready w) as [|r rest]; [discriminate|].
      injection Hp as -> <-. reflexivity. }
    destruct (spi_rx w1) as [|[[a b]|] rx]; try discriminate.
    apply bind_Ret_inv in Hx as (l & w5 & H5 & Hx).
    apply bind_Ret_inv in Hx as (l1 & w6 & H6 & Hx).
    apply bind_Ret_inv in Hx as (l2 & w7 & H7 & Hx).
    apply bind_Ret_inv in Hx as ([] & w8 & H8 & Hx).
    injection Hx as <-. injection H8 as <-.
    injection H7 as _ <-. injection H6 as _ <-.
    unfold read_array in H5. destruct (mem _ !! buffer); [|discriminate].
    injection H5 as _ <-.
    exists ((a, b) :: frames). rewrite H. cbn [trace set_mem log set_spi_rx rx_events].
    rewrite Hw1, <- !app_assoc. reflexivity.
  - injection H as <-. exists []. cbn [rx_events app].
    unfold WIFI_IS_CMDDATA_READY in Hp.
    destruct (ready w) as [|r rest]; inversion Hp; subst; reflexivity.
Qed.

End Receive.

Lemma WIFI_SPI_Receive_Ret pad buffer size w st w' :
  0 <= size < 2 ^ 16 ->
  WIFI_SPI_Receive pad buffer size w = (Ret st, w') ->
  exists frames,
    trace w' = trace w ++ rx_events frames 0 ++ [EvReady false] /\ st = WIFI_OK.
Proof.
  unfold WIFI_SPI_Receive. intros Hs H.
  apply bind_Ret_inv in H as (b & w1 & H1 & H). apply read_array_Ret in H1 as [_ ->].
  apply bind_Ret_inv in H as (b1 & w2 & H2 & H). apply lift_Ret in H2 as [_ ->].
  apply bind_Ret_inv in H as ([] & w3 & H3 & H). injection H3 as <-.
  apply bind_Ret_inv in H as ([] & w4 & H4 & H).
  apply receive_loop_Ret in H4 as (frames & H4); [|exact Hs|lia].
  apply bind_Ret_inv in H as (b2 & w5 & H5 & H). apply read_array_Ret in H5 as [_ ->].
  apply bind_Ret_inv in H as (b3 & w6 & H6 & H). apply lift_Ret in H6 as [_ ->].
  apply bind_Ret_inv in H as ([] & w7 & H7 & H). injection H7 as <-.
  injection H as <- <-. exists frames. split; [exact H4 | reflexivity].
Qed.

Lemma receive_loop_quiet (Q : event -> Prop) (buffer : N) (size : Z) (fuel : nat) :
  (forall e, ~ is_transmit e -> Q e) ->
  forall cnt, emits Q (receive_loop fuel buffer size cnt).
Proof.
  intros HQ. induction fuel as [|fuel IH]; intros cnt.
  - now apply emits_nothing.
  - cbn [receive_loop]. apply emits_bind; [apply emits_ready; apply HQ; intros []|].
    intros [|]; [|apply emits_ret].
    apply emits_bind.
    + destruct (_ <? cnt); [apply emits_ret|].
      apply emits_bind; [|intros ?; apply emits_ret].
      apply emits_HAL_SPI_Receive. intros d. apply HQ. intros [].
    + intros failed. apply emits_bind; [|intros _; apply IH].
      destruct failed; [apply emits_Error_Handler; apply HQ; intros [] | apply emits_ret].
Qed.

Lemma WIFI_SPI_Receive_quiet (Q : event -> Prop) (pad : ascii) (buffer : N) (size : Z) :
  (forall e, ~ is_transmit e -> Q e) ->
  emits Q (WIFI_SPI_Receive pad buffer size).
Proof.
  intros HQ. unfold WIFI_SPI_Receive.
  apply emits_bind; [apply emits_read_array | intros b].
  apply emits_bind; [apply emits_lift | intros b1].
  apply emits_bind; [apply emits_write_array | intros _].
  apply emits_bind.
  { apply (emits_fuel Q (fun n => receive_loop n buffer size 0)).
    intros n. now apply receive_loop_quiet. }
  intros _.
  apply emits_bind; [apply emits_read_array | intros b2].
  apply emits_bind; [apply emits_lift | intros b3].
  apply emits_bind; [apply emits_write_array | intros _].
  apply emits_ret.
Qed.

Lemma follows_HAL_SPI_Receive buffer cursor :
  follows Receiving (HAL_SPI_Receive buffer cursor)
    (fun ok : bool => if ok then SelectedRead else Faulted).
Proof.
  intros w. unfold HAL_SPI_Receive.
  destruct (spi_rx w) as [|[[a b]|] rest].
  - exists [EvSpiRx cursor None], Faulted. cbn. auto.
  - set (w1 := log _ _).
    assert (Hq : quiet (bind (read_array buffer) (fun l =>
              bind (lift (store l cursor a)) (fun l1 =>
              bind (lift (store l1 (cursor + 1) b)) (fun l2 =>
              bind (write_array buffer l2) (fun _ => ret true)))))).
    { repeat (apply quiet_bind; [|intros ?]);
        auto using quiet_read_array, quiet_write_array, quiet_ret,
                   quiet_pure, pure_store. }
    destruct (follows_quiet SelectedRead _ Hq w1) as (evs & r & He & Hs & Ho).
    exists (EvSpiRx cursor (Some (a, b)) :: evs), r.
    rewrite He. subst w1. cbn [trace log steps step].
    rewrite <- app_assoc. split; [reflexivity|]. split; [exact Hs|].
    clear He. revert Ho.
    match goal with |- context [fst ?x] => destruct (fst x) as [[]| | |] eqn:E end;
      auto.
    (* the stores return [true] *)
    intros _. exfalso. revert E. unfold bind, read_array, lift, write_array, ret.
    repeat match goal with
           | |- context [match ?x with _ => _ end] => destruct x
           end; cbn; congruence.
  - exists [EvSpiRx cursor None], Faulted. cbn. auto.
Qed.

Lemma follows_receive_loop buffer size fuel :
  forall cnt, follows SelectedRead (receive_loop fuel buffer size cnt)
                (fun _ => OverflowCheck).
Proof.
  induction fuel as [|fuel IH]; intros cnt.
  - intros w. exists [], SelectedRead. cbn. rewrite app_nil_r. auto.
  - cbn [receive_loop].
    apply (follows_bind _ _ (fun r : bool => if r then Receiving else OverflowCheck));
      [now apply follows_ready | intros [|]]; [|now apply follows_ret].
    destruct (size - 2 <? cnt).
    + apply (follows_bind _ _ (fun failed : bool => if failed then Receiving else SelectedRead));
        [now apply follows_ret | intros failed].
      apply (follows_bind _ _ (fun _ => SelectedRead)); [|intros _; apply IH].
      destruct failed; [now apply follows_Error_Handler | now apply follows_ret].
    + apply (follows_bind _ _ (fun failed : bool => if failed then Faulted else SelectedRead)).
      * apply (follows_bind _ _ (fun ok : bool => if ok then SelectedRead else Faulted));
          [apply follows_HAL_SPI_Receive | intros []; now apply follows_ret].
      * intros failed.
        apply (follows_bind _ _ (fun _ => SelectedRead)); [|intros _; apply IH].
        destruct failed; [now apply follows_Error_Handler | now apply follows_ret].
Qed.

Lemma follows_WIFI_SPI_Receive pad buffer size :
  follows SelectedRead (WIFI_SPI_Receive pad buffer size) (after_status OverflowCheck).
Proof.
  unfold WIFI_SPI_Receive.
  apply (follows_bind _ _ (fun _ => SelectedRead));
    [apply follows_quiet, quiet_read_array | intros b].
  apply (follows_bind _ _ (fun _ => SelectedRead));
    [apply follows_quiet, quiet_pure, pure_memset | intros b1].
  apply (follows_bind _ _ (fun _ => SelectedRead));
    [apply follows_quiet, quiet_write_array | intros _].
  apply (follows_bind _ _ (fun _ => OverflowCheck)).
  { intros w. apply follows_receive_loop. }
  intros _.
  apply (follows_bind _ _ (fun _ => OverflowCheck));
    [apply follows_quiet, quiet_read_array | intros b2].
  apply (follows_bind _ _ (fun _ => OverflowCheck));
    [apply follows_quiet, quiet_pure, pure_trimstr | intros b3].
  apply (follows_bind _ _ (fun _ => OverflowCheck));
    [apply follows_quiet, quiet_write_array | intros _].
  now apply follows_ret.
Qed.

(** ** [WIFI_SendATCommand] *)

Lemma wait_ready_Ret (fuel : nat) :
  forall w w', wait_ready fuel w = (Ret tt, w') ->
    exists n, trace w' = trace w ++ replicate n (EvReady false) ++ [EvReady true].
Proof.
  induction fuel as [|fuel IH]; intros w w' H; [discriminate|].
  cbn [wait_ready] in H. apply bind_Ret_inv in H as (r & w1 & Hp & H).
  apply ready_Ret in Hp as [Hp _]. destruct r; cbn [negb] in H.
  - injection H as <-. exists 0%nat. exact Hp.
  - apply IH in H as (n & H). exists (S n). rewrite H, Hp, <- app_assoc. reflexivity.
Qed.

Lemma while_not_ready_Ret w w' :
  while_not_ready w = (Ret tt, w') ->
  exists n, trace w' = trace w ++ replicate n (EvReady false) ++ [EvReady true].
Proof. apply wait_ready_Ret. Qed.

Section Exchange.
Variable WIFI_RX_PADDING WIFI_TX_PADDING : ascii.
Variable bCmd bRx : N.
Variable sizeCmd sizeRx : Z.
Hypothesis sizeRx_uint16 : 0 <= sizeRx < 2 ^ 16.

Local Abbreviation SendATCommand :=
  (WIFI_SendATCommand WIFI_RX_PADDING WIFI_TX_PADDING bCmd sizeCmd bRx sizeRx).
Local Abbreviation until_received :=
  (SendATCommand_until_received WIFI_RX_PADDING WIFI_TX_PADDING bCmd sizeCmd bRx sizeRx).

Lemma SendATCommand_until_received_Ret w st w1 :
  until_received w = (Ret st, w1) ->
  st = WIFI_OK /\
  exists a data b frames,
    trace w1 = trace w
      ++ replicate a (EvReady false)
      ++ [EvReady true; EvNSS true; EvSpiTx data true; EvNSS false]
      ++ replicate b (EvReady false)
      ++ [EvReady true; EvNSS true]
      ++ rx_events frames 0 ++ [EvReady false].
Proof.
  unfold SendATCommand_until_received. intros H.
  apply bind_Ret_inv in H as ([] & w2 & H2 & H). apply while_not_ready_Ret in H2 as (a & H2).
  apply bind_Ret_inv in H as ([] & w3 & H3 & H). apply event_Ret in H3 as [H3 _].
  apply bind_Ret_inv in H as (st1 & w4 & H4 & H).
  apply WIFI_SPI_Transmit_Ret in H4 as (data & H4 & ->).
  apply bind_Ret_inv in H as ([] & w5 & H5 & H). injection H5 as <-.
  apply bind_Ret_inv in H as ([] & w6 & H6 & H). apply event_Ret in H6 as [H6 _].
  apply bind_Ret_inv in H as ([] & w7 & H7 & H). apply while_not_ready_Ret in H7 as (b & H7).
  apply bind_Ret_inv in H as ([] & w8 & H8 & H). apply event_Ret in H8 as [H8 _].
  apply WIFI_SPI_Receive_Ret in H as (frames & H & ->); [|exact sizeRx_uint16].
  split; [reflexivity|]. exists a, data, b, frames.
  rewrite H, H8, H7, H6, H4, H3, H2. rewrite <- !app_assoc. reflexivity.
Qed.

Lemma SendATCommand_split w :
  SendATCommand w =
  bind until_received (fun st =>
    bind (if negb (status_eqb st WIFI_OK) then Error_Handler else ret tt) (fun _ =>
    bind WIFI_IS_CMDDATA_READY (fun r =>
    bind (if r : bool then Error_Handler else ret tt) (fun _ =>
    bind WIFI_DISABLE_NSS (fun _ => ret WIFI_OK))))) w.
Proof.
  unfold WIFI_SendATCommand, SendATCommand_until_received, bind.
  repeat match goal with
         | |- context [match ?m ?w with _ => _ end] =>
             lazymatch m with
             | fun _ => _ => fail
             | _ => destruct (m w) as [[?| |?|] ?]
             end
         end; try reflexivity.
Qed.

(** The trace of a call that returns, and the overflow check. *)
Lemma SendATCommand_trace w :
  (forall st w', SendATCommand w = (Ret st, w') ->
     exists a data b frames,
       trace w' = trace w ++ exchange_events a data b frames)
  /\
  (forall st w1 rest, until_received w = (Ret st, w1) ->
     ready w1 = true :: rest ->
     exists w', SendATCommand w = (Fatal, w')
       /\ trace w' = trace w1 ++ [EvReady true; EvErrorHandler]).
Proof.
  split.
  - intros st w' H. rewrite SendATCommand_split in H.
    apply bind_Ret_inv in H as (st1 & w1 & H1 & H).
    apply SendATCommand_until_received_Ret in H1 as (-> & a & data & b & frames & H1).
    apply bind_Ret_inv in H as ([] & w2 & H2 & H). injection H2 as <-.
    apply bind_Ret_inv in H as (r & w3 & H3 & H). apply ready_Ret in H3 as [H3 _].
    apply bind_Ret_inv in H as ([] & w4 & H4 & H).
    destruct r; [discriminate|]. injection H4 as <-.
    apply bind_Ret_inv in H as ([] & w5 & H5 & H). apply event_Ret in H5 as [H5 _].
    injection H as _ <-.
    exists a, data, b, frames. rewrite H5, H3, H1. unfold exchange_events.
    rewrite <- !app_assoc. reflexivity.
  - intros st w1 rest H Hr. rewrite SendATCommand_split.
    rewrite (bind_Ret _ _ _ _ _ H).
    apply SendATCommand_until_received_Ret in H as (-> & _).
    cbn [status_eqb negb]. unfold bind at 1. cbn [ret].
    unfold bind at 1, WIFI_IS_CMDDATA_READY. rewrite Hr.
    eexists. split; [reflexivity|]. cbn. rewrite <- app_assoc. reflexivity.
Qed.

End Exchange.

(** Every call of [WIFI_SendATCommand], however it ends, goes through the
    phases of the exchange in their order. *)
Lemma follows_WIFI_SendATCommand rxp txp bCmd sizeCmd bRx sizeRx :
  follows WaitReadyForCmd (WIFI_SendATCommand rxp txp bCmd sizeCmd bRx sizeRx)
    (fun _ => Done).
Proof.
  unfold WIFI_SendATCommand, WIFI_ENABLE_NSS, WIFI_DISABLE_NSS.
  apply (follows_bind _ _ (fun _ => ReadyForCmd));
    [now apply follows_while_not_ready | intros _].
  apply (follows_bind _ _ (fun _ => SelectedWrite));
    [now apply follows_event | intros _].
  apply (follows_bind _ _ (after_status Written));
    [apply follows_WIFI_SPI_Transmit | intros st].
  apply (follows_bind _ _ (fun _ => Written));
    [apply follows_status_check | intros _].
  apply (follows_bind _ _ (fun _ => WaitReadyForResp));
    [now apply follows_event | intros _].
  apply (follows_bind _ _ (fun _ => ReadyForResp));
    [now apply follows_while_not_ready | intros _].
  apply (follows_bind _ _ (fun _ => SelectedRead));
    [now apply follows_event | intros _].
  apply (follows_bind _ _ (after_status OverflowCheck));
    [apply follows_WIFI_SPI_Receive | intros st'].
  apply (follows_bind _ _ (fun _ => OverflowCheck));
    [apply follows_status_check | intros _].
  apply (follows_bind _ _ (fun r : bool => if r then Faulted else Checked));
    [now apply follows_ready | intros r].
  apply (follows_bind _ _ (fun _ => Checked)).
  - destruct r; [now apply follows_Error_Handler | now apply follows_ret].
  - intros _.
    apply (follows_bind _ _ (fun _ => Done)); [now apply follows_event | intros _].
    now apply follows_ret.
Qed.

(** ** [WIFI_Init] *)

Lemma WIFI_Init_no_transmit (WIFI_RX_PADDING : ascii) (WIFI_MSG_POWERUP : list ascii)
    (WIFI_RX_BUFFER_SIZE : Z) :
  emits (fun e => ~ is_transmit e)
    (WIFI_Init WIFI_RX_PADDING WIFI_MSG_POWERUP WIFI_RX_BUFFER_SIZE).
Proof.
  unfold WIFI_Init, WIFI_RESET_MODULE, WIFI_ENABLE_NSS, WIFI_DISABLE_NSS.
  apply emits_bind; [apply emits_event; intros [] | intros _].
  apply emits_bind; [apply emits_event; intros [] | intros _].
  apply emits_bind; [apply emits_while_not_ready; intros [] | intros _].
  apply emits_bind; [apply WIFI_SPI_Receive_quiet; auto | intros st].
  apply emits_bind.
  { destruct (negb _); [apply emits_Error_Handler; intros [] | apply emits_ret]. }
  intros _.
  apply emits_bind; [apply emits_read_array | intros rx].
  apply emits_bind; [apply emits_lift | intros d].
  apply emits_bind.
  { destruct (negb _); [apply emits_Error_Handler; intros [] | apply emits_ret]. }
  intros _.
  apply emits_bind; [apply emits_event; intros [] | intros _].
  apply emits_ret.
Qed.

Lemma WIFI_Init_after_receive (WIFI_RX_PADDING : ascii)
    (WIFI_MSG_POWERUP : list ascii) (WIFI_RX_BUFFER_SIZE : Z) (w w1 : world)
    (st : WIFI_StatusTypeDef) (rx s : list ascii) :
  ~ In nul WIFI_MSG_POWERUP ->
  Init_until_received WIFI_RX_PADDING WIFI_RX_BUFFER_SIZE w = (Ret st, w1) ->
  mem w1 !! wifiRxBuffer = Some rx ->
  cstring rx 0 = Ret s ->
  exists d,
    (d = 0 <-> s = WIFI_MSG_POWERUP)
    /\ WIFI_Init WIFI_RX_PADDING WIFI_MSG_POWERUP WIFI_RX_BUFFER_SIZE w
       = if d =? 0 then (Ret WIFI_OK, log (EvNSS false) w1)
         else (Fatal, log EvErrorHandler w1).
Proof.
  intros Hmsg Hrun Hm Hs.
  unfold WIFI_Init. unfold Init_until_received in Hrun.
  apply bind_Ret_inv in Hrun as ([] & w2 & H2 & Hrun). rewrite (bind_Ret _ _ _ _ _ H2).
  apply bind_Ret_inv in Hrun as ([] & w3 & H3 & Hrun). rewrite (bind_Ret _ _ _ _ _ H3).
  apply bind_Ret_inv in Hrun as ([] & w4 & H4 & Hrun). rewrite (bind_Ret _ _ _ _ _ H4).
  rewrite (bind_Ret _ _ _ _ _ Hrun).
  assert (st = WIFI_OK) as ->.
  { unfold WIFI_SPI_Receive in Hrun.
    repeat (apply bind_Ret_inv in Hrun as (? & ? & _ & Hrun)).
    now injection Hrun as <-. }
  cbn [status_eqb negb]. unfold bind at 1. cbn [ret].
  unfold bind at 1, read_array. rewrite Hm.
  apply cstring_inv in Hs as (rest & -> & Hnul).
  pose proof (strcmp_spec s WIFI_MSG_POWERUP rest Hnul Hmsg) as Hcmp.
  unfold bind at 1, lift.
  destruct (strcmp _ _) as [d| | |]; cbn [zero_iff] in Hcmp; try contradiction.
  exists d. split; [exact Hcmp|].
  destruct (d =? 0); reflexivity.
Qed.

(** ** [WIFI_CreateNewNetwork] *)

Lemma save_address_status (hwifi : WIFI_HandleTypeDef) (w : world) (rest : list ascii) :
  mem w !! wifiRxBuffer = Some (status_response ++ nul :: rest) ->
  9 <= len (ipAddress hwifi) ->
  save_address hwifi w =
  (Ret (Handle (securityType hwifi) (passphrase hwifi) (ssid hwifi)
          (transportProtocol hwifi) (port hwifi)
          (bytes "10.0.0.5" ++ replicate (length (ipAddress hwifi) - 8) nul)), w).
Proof.
  intros Hm Hl. unfold save_address, bind at 1, read_array. rewrite Hm.
  unfold bind at 1, lift.
  change (status_response ++ nul :: rest)
    with ([] ++ bytes "AT" ++ ","%char :: (bytes "10.0.0.5,END" ++ CR :: nul :: rest)).
  change 0 with (len []) at 1.
  rewrite strstr_found by (cbn; intuition discriminate).
  change (len [] + len (bytes "AT") + 1) with (len (bytes "AT,")).
  unfold bind at 1.
  change ([] ++ bytes "AT" ++ ","%char :: (bytes "10.0.0.5,END" ++ CR :: nul :: rest))
    with (bytes "AT," ++ bytes "10.0.0.5" ++ ","%char :: (bytes "END" ++ CR :: nul :: rest)).
  rewrite strstr_found by (cbn; intuition discriminate).
  unfold bind at 1. rewrite memset_all. unfold bind at 1.
  change (uint32 (len (bytes "AT,") + len (bytes "10.0.0.5") - len (bytes "AT,") + 1)) with 9.
  unfold snprintf.
  change (bytes "AT," ++ bytes "10.0.0.5" ++ ","%char :: (bytes "END" ++ CR :: nul :: rest))
    with (bytes "AT," ++ (bytes "10.0.0.5,END" ++ [CR]) ++ nul :: rest).
  rewrite (format_loop_other _ _ _ _ _ 0 (9 - 1) _ 0 0 0%nat).
  - cbn [obind]. change (0 <? 9) with true. cbv iota.
    change (0 + Z.min (0 + len (bytes "10.0.0.5,END" ++ [CR])) (9 - 1)) with (Z.of_nat 8).
    unfold len in Hl.
    destruct (ipAddress hwifi) as [|i0 [|i1 [|i2 [|i3 [|i4 [|i5 [|i6 [|i7 [|i8 ip]]]]]]]]];
      try (cbn in Hl; lia).
    rewrite store_inside
      by (rewrite length_inserts, length_replicate; cbn; lia).
    cbn [obind ret]. reflexivity.
  - repeat constructor; discriminate.
  - cbn. lia.
  - reflexivity.
  - reflexivity.
  - right. rewrite length_replicate. unfold len in Hl.
    change (Z.to_nat (9 - 1 - 0)) with 8%nat. cbn [length bytes app].
    cbn. lia.
Qed.
(** * The claims *)

(** C1 (the code breaks it).  Trimming twice is not trimming once.  The
    string of one sentinel byte is trimmed to the empty string by the first
    call; on the empty string [endPos] is 0, [endPos - 1] wraps to
    [2^32 - 1], and the second call reads [str[4294967295]] where a no-op
    is claimed. *)
Theorem trimstr_twice :
  trimstr [NAK; nul] 2 NAK = Ret [nul; nul]
  /\ trimstr [nul; nul] 2 NAK = Undef (OutOfBounds 4294967295).
Proof. split; vm_compute; reflexivity. Qed.

(** C2 (the code breaks it).  When the first byte of the buffer is the
    terminator, [endPos] is 0, [endPos - 1] wraps to [2^32 - 1], and the
    backward scan reads [str[4294967295]], whatever the sentinel. *)
Theorem back_scan_of_empty_string (c : ascii) :
  find_end 2 [nul; nul] 2 0 = Ret 0
  /\ back_scan 2 [nul; nul] c (uint32 (0 - 1)) 0 = Undef (OutOfBounds 4294967295)
  /\ trimstr [nul; nul] 2 c = Undef (OutOfBounds 4294967295).
Proof. repeat split; vm_compute; reflexivity. Qed.

(** C3, as the spec states it, fails: with the sentinel [\x00] the first
    byte of both buffers is the end of the string, so the string is empty
    and nothing of [AAA] or [hello] is recovered. *)
Lemma trimstr_nul_sentinel :
  find_end 7 (nul :: bytes "AAA" ++ [nul; nul; nul]) 7 0 = Ret 0
  /\ (forall out, trimstr (nul :: bytes "AAA" ++ [nul; nul; nul]) 7 nul = Ret out ->
        cstring out 0 <> Ret (bytes "AAA"))
  /\ find_end 9 (nul :: nul :: bytes "hello" ++ [nul; nul]) 9 0 = Ret 0
  /\ (forall out, trimstr (nul :: nul :: bytes "hello" ++ [nul; nul]) 9 nul = Ret out ->
        cstring out 0 <> Ret (bytes "hello")).
Proof.
  repeat split; try (vm_compute; reflexivity);
    intros out H; vm_compute in H; discriminate.
Qed.

(** C3, amended.  With a sentinel [c] that is not the terminator (and is not
    a byte of the text), trimming [c A A A c c \0] with capacity 7 yields
    the string [AAA], and trimming [c c h e l l o c \0] with capacity 9
    yields [hello]: the leading run and the trailing run are both stripped. *)
Theorem trimstr_strips_both_runs (c : ascii) :
  c <> nul -> ~ In c (bytes "Ahelo") ->
  (exists out,
     trimstr (c :: bytes "AAA" ++ [c; c; nul]) 7 c = Ret out
     /\ cstring out 0 = Ret (bytes "AAA"))
  /\ (exists out,
        trimstr (c :: c :: bytes "hello" ++ [c; nul]) 9 c = Ret out
        /\ cstring out 0 = Ret (bytes "hello")).
Proof.
  intros Hn Hin.
  destruct c as [[] [] [] [] [] [] [] []];
    first [ exfalso; apply Hn; reflexivity
          | exfalso; apply Hin; vm_compute; tauto
          | split; eexists; (split; [vm_compute; reflexivity | vm_compute; reflexivity]) ].
Qed.

Lemma trimstr_strips_both_runs_witness :
  (exists out,
     trimstr ("x"%char :: bytes "AAA" ++ ["x"%char; "x"%char; nul]) 7 "x"%char = Ret out
     /\ cstring out 0 = Ret (bytes "AAA"))
  /\ (exists out,
        trimstr ("x"%char :: "x"%char :: bytes "hello" ++ ["x"%char; nul]) 9 "x"%char
        = Ret out
        /\ cstring out 0 = Ret (bytes "hello")).
Proof.
  apply (trimstr_strips_both_runs "x"%char).
  - discriminate.
  - vm_compute. intuition discriminate.
Defined.

(** C4 (the code breaks it).  A buffer that holds the sentinel [\x00] and
    nothing else is the empty string: [endPos] is 0, the [endPos - 1] of
    line 242 wraps to [2^32 - 1], and the backward scan reads
    [str[4294967295]] where the empty string without underflow is claimed;
    for length 1 and for length 3. *)
Theorem trimstr_all_nul :
  trimstr (replicate 1 nul ++ [nul]) (Z.of_nat 1 + 1) nul
  = Undef (OutOfBounds 4294967295)
  /\ trimstr (replicate 3 nul ++ [nul]) (Z.of_nat 3 + 1) nul
     = Undef (OutOfBounds 4294967295).
Proof. split; vm_compute; reflexivity. Qed.

(** For every length [n >= 1] and every sentinel [c] other than the
    terminator, trimming [n] sentinel bytes followed by the terminator
    returns, and leaves terminators only: the empty string. *)
Lemma trimstr_all_sentinel (c : ascii) (n : nat) :
  c <> nul -> (1 <= n)%nat -> Z.of_nat n + 1 < 2 ^ 32 ->
  trimstr (replicate n c ++ [nul]) (Z.of_nat n + 1) c = Ret (replicate (n + 1) nul)
  /\ cstring (replicate (n + 1) nul) 0 = Ret [].
Proof.
  intros Hc Hn Hs. split; [now apply trimstr_run|].
  replace (n + 1)%nat with (S n) by lia. apply cstring_all_nul.
Qed.

Lemma trimstr_all_sentinel_example :
  trimstr (replicate 3 NAK ++ [nul]) (Z.of_nat 3 + 1) NAK = Ret (replicate (3 + 1) nul)
  /\ cstring (replicate (3 + 1) nul) 0 = Ret [].
Proof.
  apply (trimstr_all_sentinel NAK 3); [discriminate | lia | vm_compute; reflexivity].
Qed.

(** C5.  If Ready is still high at the reading that follows the frame that
    fills the buffer (the first [size / 2 + 1] readings are high), the call
    does not return: it ends in [Error_Handler]; and every transfer it made
    stored its two bytes inside the [size] bytes of the buffer. *)
Theorem WIFI_SPI_Receive_overflow (WIFI_RX_PADDING : ascii) (buffer : N)
    (size : Z) (w : world) (l : list ascii) :
  0 <= size < 2 ^ 16 ->
  mem w !! buffer = Some l -> size <= len l ->
  take (S (Z.to_nat (size / 2))) (ready w) = replicate (S (Z.to_nat (size / 2))) true ->
  exists w' evs,
    WIFI_SPI_Receive WIFI_RX_PADDING buffer size w = (Fatal, w')
    /\ trace w' = trace w ++ evs
    /\ Forall (rx_inside size) evs.
Proof.
  intros Hs Hm Hl Hr.
  destruct (WIFI_SPI_Receive_inside WIFI_RX_PADDING buffer size w) as (evs & He & Hq).
  assert (Hf : exists w', WIFI_SPI_Receive WIFI_RX_PADDING buffer size w = (Fatal, w')).
  { unfold WIFI_SPI_Receive, bind at 1, read_array. rewrite Hm.
    unfold bind at 1, lift, memset.
    replace (size <=? len l) with true by (symmetry; apply Z.leb_le; lia).
    unfold bind at 1, write_array. unfold bind at 1.
    set (w1 := set_mem _ w).
    destruct (receive_loop_overflow buffer size Hs (Z.to_nat (size / 2))
                (S (length (ready w1))) w1 0
                (replicate (Z.to_nat size) nul ++ drop (Z.to_nat size) l))
      as (w' & Hw').
    - exact Hr.
    - apply (f_equal length) in Hr. rewrite length_take, length_replicate in Hr.
      subst w1. cbn [ready set_mem]. lia.
    - lia.
    - pose proof (Z.mul_div_le size 2). pose proof (Z.mod_pos_bound size 2).
      pose proof (Z.div_mod size 2). lia.
    - subst w1. cbn [mem set_mem]. apply lookup_insert_eq.
    - rewrite len_app, len_replicate. unfold len in *. rewrite length_drop. lia.
    - rewrite Hw'. eexists. reflexivity. }
  destruct Hf as (w' & Hf). exists w', evs. rewrite Hf in He. auto.
Qed.

Lemma WIFI_SPI_Receive_overflow_witness :
  exists w' evs,
    WIFI_SPI_Receive NAK wifiRxBuffer 32
      (board (replicate 17 true) [replicate 32 "x"%char] []) = (Fatal, w')
    /\ trace w' = [] ++ evs
    /\ Forall (rx_inside 32) evs.
Proof.
  apply (WIFI_SPI_Receive_overflow NAK wifiRxBuffer 32
           (board (replicate 17 true) [replicate 32 "x"%char] []) (replicate 32 nul)).
  - lia.
  - vm_compute; reflexivity.
  - vm_compute; discriminate.
  - vm_compute; reflexivity.
Defined.

(** C6 (the code breaks it).  With an even declared size the byte
    [WIFI_TX_PADDING] is handed to [strcat] as the address of the string to
    append: what is appended is the string found at that address.  Where it
    is empty the command [A?\r] of size 4 goes out followed by its
    terminator, not by the padding byte; where that address cannot be read
    the call has no defined behaviour.  With an odd declared size nothing is
    appended, whatever the flash holds: [A2=secret\r] of size 11 goes out as
    it is, in 5 frames. *)
Theorem WIFI_SPI_Transmit_even_size :
  fst (WIFI_SPI_Transmit LF wifiTxBuffer 4 transmit_board) = Ret WIFI_OK
  /\ trace (snd (WIFI_SPI_Transmit LF wifiTxBuffer 4 transmit_board))
     = [EvSpiTx (bytes "A?" ++ [CR; nul]) true]
  /\ fst (WIFI_SPI_Transmit LF wifiTxBuffer 4 (without_flash transmit_board))
     = Undef (WildPointer 10)
  /\ trace (snd (WIFI_SPI_Transmit LF wifiTxBuffer 11
                   (without_flash
                      (with_command (bytes "A2=secret" ++ [CR]) transmit_board))))
     = [EvSpiTx (bytes "A2=secret" ++ [CR]) true].
Proof. repeat split; vm_compute; reflexivity. Qed.

(** C7.  Every call, however it ends, goes through the phases of the
    exchange in their order: the wait for Ready, select, the transfer of the
    command, deselect, the wait for Ready, select, the receive loop, the
    overflow check, deselect.  A call that returns has done all of it and
    nothing else.  And when Ready reads high right after
    [WIFI_SPI_Receive] has returned, the call ends in [Error_Handler]. *)
Theorem WIFI_SendATCommand_order (WIFI_RX_PADDING WIFI_TX_PADDING : ascii)
    (bCmd : N) (sizeCmd : Z) (bRx : N) (sizeRx : Z) :
  0 <= sizeRx < 2 ^ 16 ->
  follows WaitReadyForCmd
    (WIFI_SendATCommand WIFI_RX_PADDING WIFI_TX_PADDING bCmd sizeCmd bRx sizeRx)
    (fun _ => Done)
  /\ (forall w st w',
        WIFI_SendATCommand WIFI_RX_PADDING WIFI_TX_PADDING bCmd sizeCmd bRx sizeRx w
        = (Ret st, w') ->
        exists a data b frames,
          trace w' = trace w ++ exchange_events a data b frames)
  /\ (forall w st w1 rest,
        SendATCommand_until_received WIFI_RX_PADDING WIFI_TX_PADDING
          bCmd sizeCmd bRx sizeRx w = (Ret st, w1) ->
        ready w1 = true :: rest ->
        exists w',
          WIFI_SendATCommand WIFI_RX_PADDING WIFI_TX_PADDING bCmd sizeCmd bRx sizeRx w
          = (Fatal, w')
          /\ trace w' = trace w1 ++ [EvReady true; EvErrorHandler]).
Proof.
  intros Hs. split; [apply follows_WIFI_SendATCommand|].
  split; intros w.
  - apply (SendATCommand_trace _ _ _ _ _ _ Hs w).
  - apply (SendATCommand_trace _ _ _ _ _ _ Hs w).
Qed.

Lemma WIFI_SendATCommand_order_witness :
  (exists evs q,
     trace (snd (WIFI_SendATCommand NAK LF wifiTxBuffer 4 wifiRxBuffer 32 exchange_board))
     = trace exchange_board ++ evs
     /\ steps WaitReadyForCmd evs = Some q
     /\ q = Done)
  /\ (exists a data b frames,
        trace (snd (WIFI_SendATCommand NAK LF wifiTxBuffer 4 wifiRxBuffer 32
                      exchange_board))
        = trace exchange_board ++ exchange_events a data b frames)
  /\ (exists w',
        WIFI_SendATCommand NAK LF wifiTxBuffer 4 wifiRxBuffer 32 overflow_board
        = (Fatal, w')
        /\ trace w'
           = trace (snd (SendATCommand_until_received NAK LF wifiTxBuffer 4
                           wifiRxBuffer 32 overflow_board))
             ++ [EvReady true; EvErrorHandler]).
Proof.
  destruct (WIFI_SendATCommand_order NAK LF wifiTxBuffer 4 wifiRxBuffer 32)
    as (Hphases & Hret & Hover); [lia|].
  split; [|split].
  - exact (Hphases exchange_board).
  - refine (Hret exchange_board WIFI_OK _ _). vm_compute. reflexivity.
  - refine (Hover overflow_board WIFI_OK _ [] _ _); vm_compute; reflexivity.
Defined.

(** C8.  Once the response to the reset has been received, [WIFI_Init]
    compares it with [WIFI_MSG_POWERUP]: when the two strings differ it ends
    in [Error_Handler], and it returns [WIFI_OK] only on an exact match; in
    no case does it transmit anything. *)
Theorem WIFI_Init_banner (WIFI_RX_PADDING : ascii) (WIFI_MSG_POWERUP : list ascii)
    (WIFI_RX_BUFFER_SIZE : Z) (w w1 : world) (st : WIFI_StatusTypeDef)
    (rx s : list ascii) :
  ~ In nul WIFI_MSG_POWERUP ->
  Init_until_received WIFI_RX_PADDING WIFI_RX_BUFFER_SIZE w = (Ret st, w1) ->
  mem w1 !! wifiRxBuffer = Some rx ->
  cstring rx 0 = Ret s ->
  let r := WIFI_Init WIFI_RX_PADDING WIFI_MSG_POWERUP WIFI_RX_BUFFER_SIZE w in
  (s <> WIFI_MSG_POWERUP ->
     fst r = Fatal /\ trace (snd r) = trace w1 ++ [EvErrorHandler])
  /\ (s = WIFI_MSG_POWERUP -> fst r = Ret WIFI_OK)
  /\ (exists evs, trace (snd r) = trace w ++ evs
                  /\ Forall (fun e => ~ is_transmit e) evs).
Proof.
  intros Hmsg Hrun Hm Hs r.
  destruct (WIFI_Init_after_receive _ WIFI_MSG_POWERUP _ _ _ _ _ _ Hmsg Hrun Hm Hs)
    as (d & Hd & Hr).
  split; [|split]; [| |apply WIFI_Init_no_transmit].
  - intros Hneq. subst r. rewrite Hr.
    destruct (Z.eqb_spec d 0); [tauto|]. split; reflexivity.
  - intros Heq. subst r. rewrite Hr.
    destruct (Z.eqb_spec d 0); [reflexivity | tauto].
Qed.

Lemma WIFI_Init_banner_witness :
  let r := WIFI_Init NAK (bytes "OK") 32 (board [true; true; true] [padded (bytes "ok!")] []) in
  (bytes "ok!" <> bytes "OK" ->
     fst r = Fatal
     /\ trace (snd r)
        = trace (snd (Init_until_received NAK 32
                        (board [true; true; true] [padded (bytes "ok!")] [])))
          ++ [EvErrorHandler])
  /\ (bytes "ok!" = bytes "OK" -> fst r = Ret WIFI_OK)
  /\ (exists evs, trace (snd r) = [] ++ evs
                  /\ Forall (fun e => ~ is_transmit e) evs).
Proof.
  apply (WIFI_Init_banner NAK (bytes "OK") 32
           (board [true; true; true] [padded (bytes "ok!")] [])
           (snd (Init_until_received NAK 32 (board [true; true; true] [padded (bytes "ok!")] [])))
           WIFI_OK
           (bytes "ok!" ++ replicate 29 nul) (bytes "ok!")).
  - vm_compute. intuition discriminate.
  - vm_compute. reflexivity.
  - vm_compute. reflexivity.
  - vm_compute. reflexivity.
Defined.

(** C9.  When the five commands have been exchanged and the response buffer
    holds [AT,10.0.0.5,END\r], [WIFI_CreateNewNetwork] returns [WIFI_OK] with
    [10.0.0.5], the text between the first comma and the next one, in the
    [ipAddress] field of the handle, followed by terminators. *)
Theorem WIFI_CreateNewNetwork_address (WIFI_RX_PADDING WIFI_TX_PADDING : ascii)
    (WIFI_RX_BUFFER_SIZE : Z) (hwifi : WIFI_HandleTypeDef) (w w1 : world)
    (rest : list ascii) :
  commands WIFI_RX_PADDING WIFI_TX_PADDING WIFI_RX_BUFFER_SIZE hwifi w = (Ret tt, w1) ->
  mem w1 !! wifiRxBuffer = Some (status_response ++ nul :: rest) ->
  9 <= len (ipAddress hwifi) ->
  exists hwifi',
    WIFI_CreateNewNetwork WIFI_RX_PADDING WIFI_TX_PADDING WIFI_RX_BUFFER_SIZE hwifi w
    = (Ret (hwifi', WIFI_OK), w1)
    /\ ipAddress hwifi'
       = bytes "10.0.0.5" ++ replicate (length (ipAddress hwifi) - 8) nul
    /\ cstring (ipAddress hwifi') 0 = Ret (bytes "10.0.0.5").
Proof.
  intros Hrun Hm Hl. unfold WIFI_CreateNewNetwork.
  rewrite (bind_Ret _ _ _ _ _ Hrun).
  unfold bind at 1. rewrite (save_address_status hwifi w1 rest Hm Hl).
  eexists. split; [reflexivity|]. cbn [ipAddress]. split; [reflexivity|].
  unfold len in Hl.
  destruct (ipAddress hwifi) as [|i0 [|i1 [|i2 [|i3 [|i4 [|i5 [|i6 [|i7 [|i8 ip]]]]]]]]];
    try (cbn in Hl; lia).
  cbn [length Nat.sub replicate].
  apply cstring_spec. vm_compute. intuition discriminate.
Qed.

Lemma WIFI_CreateNewNetwork_address_witness :
  exists hwifi',
    WIFI_CreateNewNetwork NAK LF 32 example_handle example_board
    = (Ret (hwifi', WIFI_OK), snd (commands NAK LF 32 example_handle example_board))
    /\ ipAddress hwifi'
       = bytes "10.0.0.5" ++ replicate (length (ipAddress example_handle) - 8) nul
    /\ cstring (ipAddress hwifi') 0 = Ret (bytes "10.0.0.5").
Proof.
  apply (WIFI_CreateNewNetwork_address NAK LF 32 example_handle example_board
           (snd (commands NAK LF 32 example_handle example_board))
           (replicate 15 nul)).
  - vm_compute. reflexivity.
  - vm_compute. reflexivity.
  - vm_compute. discriminate.
Defined.

(** C10.  [WIFI_SPI_Transmit] works on its own array [bTx]: whatever the
    call does, the bytes of the caller's command buffer (and of every other
    array) are the same after the call as before it. *)
Theorem WIFI_SPI_Transmit_keeps_command (WIFI_TX_PADDING : ascii) (buffer : N)
    (size : Z) (w : world) :
  mem (snd (WIFI_SPI_Transmit WIFI_TX_PADDING buffer size w)) = mem w
  /\ mem (snd (WIFI_SPI_Transmit WIFI_TX_PADDING buffer size w)) !! buffer
     = mem w !! buffer.
Proof. now rewrite keeps_mem_WIFI_SPI_Transmit. Qed.

(** * Further properties *)

(** Runs a computation on a world whose fields are known. *)
Ltac run_world :=
  repeat progress
    (cbv beta iota delta
       [bind ret lift read_array write_array emit_event Error_Handler
        WIFI_IS_CMDDATA_READY HAL_SPI_Receive WIFI_RESET_MODULE WIFI_ENABLE_NSS
        WIFI_DISABLE_NSS set_mem set_ready set_spi_rx set_spi_tx log
        mem ready spi_rx spi_tx flash stack trace];
     cbn [mem ready spi_rx spi_tx flash stack trace
          set_mem set_ready set_spi_rx set_spi_tx log
          replicate app map length negb fst snd obind status_eqb]).

(** ** More on the C library functions *)

Lemma take_inserts_0 (k l : list ascii) :
  (length k <= length l)%nat -> take (length k) (list_inserts 0 k l) = k.
Proof.
  intros H. rewrite <- (take_drop (length k) l).
  rewrite list_inserts_0_r by (rewrite length_take; lia).
  apply take_app_length.
Qed.

Lemma inserts_terminated (ip : list ascii) (n : nat) :
  (length ip < n)%nat ->
  <[length ip := nul]> (list_inserts 0 ip (replicate n nul))
  = ip ++ replicate (n - length ip) nul.
Proof.
  intros H.
  replace n with (length ip + (n - length ip))%nat at 1 by lia.
  rewrite replicate_add, list_inserts_0_r by now rewrite length_replicate.
  rewrite insert_app_r_alt by lia. rewrite Nat.sub_diag.
  destruct (n - length ip)%nat eqn:E; [lia | reflexivity].
Qed.

Lemma load_second (pre : list ascii) (a b : ascii) (post : list ascii) :
  load (pre ++ a :: b :: post) (len pre + 1) = Ret b.
Proof.
  replace (pre ++ a :: b :: post) with ((pre ++ [a]) ++ b :: post)
    by (rewrite <- app_assoc; reflexivity).
  replace (len pre + 1) with (len (pre ++ [a])) by (rewrite len_app; reflexivity).
  apply load_middle.
Qed.

Lemma plain_comma : plain comma.
Proof. split; discriminate. Qed.

(** A format with a conversion other than [%%]: the bytes in front of it are
    copied, then an argument is read that was never passed. *)
Lemma format_loop_conversion (s : list ascii) :
  forall pre x post fuel dst d room ofs k j p,
    Forall plain s -> x <> percent -> (length s < fuel)%nat ->
    ofs + k = len pre -> Z.of_nat p = d + j ->
    (room <= j \/
     (p + Nat.min (length s) (Z.to_nat (room - j)) <= length dst)%nat) ->
    format_loop fuel dst d room (Other (pre ++ s ++ percent :: x :: post) ofs) k j
    = Undef FormatArgument.
Proof.
  induction s as [|a s IH]; intros pre x post fuel dst d room ofs k j p Hs Hx Hf Hk Hp Hb;
    (destruct fuel as [|fuel]; [cbn in Hf; lia|]); cbn [format_loop fetch app].
  - rewrite Hk, load_middle. cbn [obind].
    change (Ascii.eqb percent nul) with false. rewrite Ascii.eqb_refl.
    replace (ofs + (k + 1)) with (len pre + 1) by lia.
    rewrite load_second. cbn [obind]. now rewrite (eqb_neq_false x percent).
  - inversion Hs as [|? ? [Ha1 Ha2] Hs']; subst.
    rewrite Hk, load_middle. cbn [obind].
    rewrite (eqb_neq_false a nul), (eqb_neq_false a percent) by assumption.
    specialize (IH (pre ++ [a]) x post fuel).
    rewrite <- app_assoc in IH. cbn [app] in IH.
    unfold emit. destruct (Z.ltb_spec j room) as [Hlt|Hge].
    + destruct Hb as [Hb|Hb]; [lia|].
      replace (Z.to_nat (room - j)) with (S (Z.to_nat (room - (j + 1)))) in * by lia.
      cbn [length] in Hb.
      rewrite <- Hp, store_inside by lia. cbn [obind].
      apply (IH _ d room ofs (k + 1) (j + 1) (S p)); auto.
      * cbn in Hf. lia.
      * rewrite len_app. unfold len at 2. cbn. lia.
      * lia.
      * right. rewrite length_insert. lia.
    + cbn [obind].
      apply (IH _ d room ofs (k + 1) (j + 1) (S p)); auto.
      * cbn in Hf. lia.
      * rewrite len_app. unfold len at 2. cbn. lia.
      * lia.
      * left. lia.
Qed.

(** [snprintf] inside one array with a conversion in the format. *)
Lemma format_loop_same_conversion (v : list ascii) :
  forall pre x post fuel room ofs k j (p : nat),
    Forall plain v -> x <> percent -> (length v < fuel)%nat ->
    ofs + k = len pre -> j = Z.of_nat p -> (p <= length pre)%nat ->
    format_loop fuel (pre ++ v ++ percent :: x :: post) 0 room (Same ofs) k j
    = Undef FormatArgument.
Proof.
  induction v as [|a v IH]; intros pre x post fuel room ofs k j p Hv Hx Hf Hk Hj Hp;
    (destruct fuel as [|fuel]; [cbn in Hf; lia|]); cbn [format_loop fetch app].
  - rewrite Hk, load_middle. cbn [obind].
    change (Ascii.eqb percent nul) with false. rewrite Ascii.eqb_refl.
    replace (ofs + (k + 1)) with (len pre + 1) by lia.
    rewrite load_second. cbn [obind]. now rewrite (eqb_neq_false x percent).
  - inversion Hv as [|? ? [Ha1 Ha2] Hv']; subst.
    rewrite Hk, load_middle. cbn [obind].
    rewrite (eqb_neq_false a nul), (eqb_neq_false a percent) by assumption.
    assert (Hshape : pre ++ a :: v ++ percent :: x :: post
                     = (pre ++ [a]) ++ v ++ percent :: x :: post)
      by (rewrite <- app_assoc; reflexivity).
    unfold emit. destruct (Z.ltb_spec (Z.of_nat p) room) as [Hlt|Hge].
    + rewrite Z.add_0_l, store_inside by (rewrite length_app; cbn; lia).
      cbn [obind].
      rewrite Hshape, insert_app_l by (rewrite length_app; cbn; lia).
      apply (IH _ x post fuel room ofs (k + 1) (Z.of_nat p + 1) (S p)); auto.
      * cbn in Hf. lia.
      * unfold len in *. rewrite length_insert, length_app. cbn. lia.
      * lia.
      * rewrite length_insert, length_app. cbn. lia.
    + cbn [obind]. rewrite Hshape.
      apply (IH _ x post fuel room ofs (k + 1) (Z.of_nat p + 1) (S p)); auto.
      * cbn in Hf. lia.
      * rewrite len_app. unfold len at 2. cbn. lia.
      * lia.
      * rewrite length_app. cbn. lia.
Qed.

(** A format without conversions whose output does not fit the array behind
    [dst + d]: the first byte that does not fit is stored outside. *)
Lemma format_loop_overflow (s : list ascii) :
  forall pre post fuel dst d room ofs k j p,
    Forall plain s -> (length s < fuel)%nat ->
    ofs + k = len pre -> Z.of_nat p = d + j -> (p <= length dst)%nat ->
    (length dst < p + Nat.min (length s) (Z.to_nat (room - j)))%nat ->
    format_loop fuel dst d room (Other (pre ++ s ++ nul :: post) ofs) k j
    = Undef (OutOfBounds (len dst)).
Proof.
  induction s as [|a s IH]; intros pre post fuel dst d room ofs k j p Hs Hf Hk Hp Hd Hb;
    (destruct fuel as [|fuel]; [cbn in Hf; lia|]); cbn [format_loop fetch app].
  - cbn in Hb. lia.
  - inversion Hs as [|? ? [Ha1 Ha2] Hs']; subst.
    rewrite Hk, load_middle. cbn [obind].
    rewrite (eqb_neq_false a nul), (eqb_neq_false a percent) by assumption.
    assert (Hj : j < room) by (destruct (Z.ltb_spec j room); lia).
    unfold emit. replace (j <? room) with true by (symmetry; apply Z.ltb_lt; lia).
    destruct (Nat.eq_dec p (length dst)) as [Heq|Hne].
    + unfold store, in_bounds.
      replace (d + j <? len dst) with false
        by (symmetry; apply Z.ltb_ge; unfold len; lia).
      rewrite andb_false_r. cbn [obind]. do 2 f_equal. unfold len. lia.
    + rewrite <- Hp, store_inside by lia. cbn [obind].
      specialize (IH (pre ++ [a]) post fuel).
      rewrite <- app_assoc in IH. cbn [app] in IH.
      rewrite (IH _ d room ofs (k + 1) (j + 1) (S p)); auto.
      * unfold len. now rewrite length_insert.
      * cbn in Hf. lia.
      * rewrite len_app. unfold len at 2. cbn. lia.
      * lia.
      * rewrite length_insert. lia.
      * rewrite length_insert. cbn [length] in Hb.
        replace (Z.to_nat (room - j)) with (S (Z.to_nat (room - (j + 1)))) in Hb by lia.
        lia.
Qed.

(** [strstr] for a needle of one byte that the string does not hold. *)
Lemma strstr_loop_missing (x : ascii) (pre : list ascii) :
  forall done post fuel,
    x <> nul -> ~ In x pre -> ~ In nul pre -> (length pre < fuel)%nat ->
    strstr_loop fuel (done ++ pre ++ nul :: post) (len done) [x] = Ret None.
Proof.
  induction pre as [|a pre IH]; intros done post fuel Hx0 Hx Hn Hf;
    (destruct fuel as [|fuel]; [cbn in Hf; lia|]); cbn [strstr_loop match_at app].
  - rewrite load_middle. cbn [obind].
    rewrite (eqb_neq_false nul x) by congruence. cbn [obind]. reflexivity.
  - rewrite load_middle. cbn [obind].
    rewrite (eqb_neq_false a x) by (intros ->; apply Hx; now left). cbn [obind].
    rewrite (eqb_neq_false a nul) by (intros ->; apply Hn; now left).
    specialize (IH (done ++ [a]) post fuel).
    rewrite <- app_assoc in IH. cbn [app] in IH.
    replace (len (done ++ [a])) with (len done + 1) in IH
      by (rewrite len_app; reflexivity).
    apply IH; auto.
    + intros Hin. apply Hx. now right.
    + intros Hin. apply Hn. now right.
    + cbn in Hf. lia.
Qed.

Lemma strstr_missing (x : ascii) (done pre post : list ascii) :
  x <> nul -> ~ In x pre -> ~ In nul pre ->
  strstr (done ++ pre ++ nul :: post) (len done) [x] = Ret None.
Proof.
  intros Hx0 Hx Hn. unfold strstr. apply strstr_loop_missing; auto.
  rewrite !length_app. lia.
Qed.

(** ** More on [trimstr] *)

(** X1.  For a sentinel [c] other than the terminator: when the buffer holds
    [p >= 1] sentinel bytes, a text [v] that is not empty, has neither a [%]
    nor a terminator, and neither starts nor ends with [c], then [t]
    sentinel bytes and the terminator, all within [strSize], [trimstr]
    returns; the buffer then starts with [v] and its terminator, and the
    rest of it is what it was, the trailing run replaced by terminators:
    the string of the buffer is [v]. *)
Theorem trimstr_strips_runs (c : ascii) (p t : nat) (v rest : list ascii)
    (strSize : Z) :
  (1 <= p)%nat -> c <> nul -> v <> [] -> Forall plain v ->
  head v <> Some c -> last v <> Some c ->
  Z.of_nat (p + length v + t) < strSize -> strSize < 2 ^ 32 ->
  let out := v ++ nul ::
               drop (S (length v)) (replicate p c ++ v ++ replicate (S t) nul ++ rest) in
  trimstr (replicate p c ++ v ++ replicate t c ++ nul :: rest) strSize c = Ret out
  /\ cstring out 0 = Ret v.
Proof.
  intros Hp Hc Hv Hplain Hhd Hlast Hsize H32 out. split.
  - now apply trimstr_spec.
  - apply cstring_spec. now apply plain_not_nul.
Qed.

Lemma trimstr_strips_runs_witness :
  let out := bytes "OK" ++ nul ::
               drop (S (length (bytes "OK")))
                 (replicate 1 NAK ++ bytes "OK" ++ replicate (S 2) nul ++ []) in
  trimstr (replicate 1 NAK ++ bytes "OK" ++ replicate 2 NAK ++ nul :: []) 6 NAK = Ret out
  /\ cstring out 0 = Ret (bytes "OK").
Proof.
  apply (trimstr_strips_runs NAK 1 2 (bytes "OK") [] 6);
    try discriminate; try (vm_compute; reflexivity); try lia.
  repeat constructor; discriminate.
Defined.

Lemma find_end_none (fuel : nat) :
  forall str strSize i,
    0 <= i -> strSize <= len str ->
    ~ In nul (drop (Z.to_nat i) (take (Z.to_nat strSize) str)) ->
    strSize - i <= Z.of_nat fuel ->
    find_end fuel str strSize i = Ret 0.
Proof.
  induction fuel as [|fuel IH]; intros str strSize i Hi Hs Hn Hf; cbn [find_end];
    destruct (Z.ltb_spec i strSize) as [Hlt|Hge]; try reflexivity; [lia|].
  destruct (load_inside str i) as (a & Ha & ->); [lia|]. cbn [obind].
  assert (Hd : take (Z.to_nat strSize) str !! Z.to_nat i = Some a).
  { rewrite lookup_take_lt by lia. exact Ha. }
  rewrite (drop_S _ _ _ Hd) in Hn.
  rewrite (eqb_neq_false a nul) by (intros ->; apply Hn; now left). cbn [negb].
  apply IH; try lia.
  replace (Z.to_nat (i + 1)) with (S (Z.to_nat i)) by lia.
  intros Hin. apply Hn. now right.
Qed.

(** A buffer without a terminator among its first [strSize] bytes. *)
Lemma trimstr_no_terminator (str : list ascii) (strSize : Z) (c : ascii) :
  ~ In nul (take (Z.to_nat strSize) str) ->
  strSize <= len str -> len str < 2 ^ 32 ->
  trimstr str strSize c = Undef (OutOfBounds (2 ^ 32 - 1)).
Proof.
  intros Hn Hs Hl. unfold trimstr.
  rewrite find_end_none; [|lia|exact Hs|exact Hn|unfold len in *; lia].
  cbn [obind]. change (uint32 (0 - 1)) with (2 ^ 32 - 1).
  destruct (length str) as [|n] eqn:E; cbn [back_scan];
    change (0 <? 2 ^ 32 - 1) with true; cbv iota; [reflexivity|].
  rewrite load_outside by lia. reflexivity.
Qed.

(** X3.  A buffer without a terminator among its first [strSize] bytes (a
    text that fills the buffer): the first loop leaves [endPos] at 0, as for
    the empty string, and the backward scan starts at index [2^32 - 1],
    outside the array, whatever the sentinel. *)
Theorem trimstr_without_terminator (str : list ascii) (strSize : Z) (c : ascii) :
  ~ In nul (take (Z.to_nat strSize) str) ->
  strSize <= len str -> len str < 2 ^ 32 ->
  trimstr str strSize c = Undef (OutOfBounds (2 ^ 32 - 1)).
Proof. apply trimstr_no_terminator. Qed.

Lemma trimstr_without_terminator_witness :
  trimstr (bytes "ABCD") 4 NAK = Undef (OutOfBounds (2 ^ 32 - 1)).
Proof.
  apply trimstr_without_terminator.
  - vm_compute. intuition discriminate.
  - vm_compute. discriminate.
  - vm_compute. reflexivity.
Defined.

(** The three scans of [trimstr] on a text between two runs of the sentinel:
    what is left to do is the copy. *)
Lemma trimstr_until_copy (c : ascii) (p t : nat) (v rest : list ascii) (strSize : Z) :
  c <> nul -> v <> [] -> ~ In nul v ->
  head v <> Some c -> last v <> Some c ->
  Z.of_nat (p + length v + t) < strSize -> strSize < 2 ^ 32 ->
  trimstr (replicate p c ++ v ++ replicate t c ++ nul :: rest) strSize c
  = obind (snprintf (replicate p c ++ v ++ replicate t nul ++ nul :: rest) 0
             (len v + 1) (Same (Z.of_nat p)))
      (fun r => Ret (fst r)).
Proof.
  intros Hc Hv Hnul Hhd Hlast Hsize H32. unfold trimstr.
  set (str := replicate p c ++ v ++ replicate t c ++ nul :: rest).
  assert (Hlen : length str = (p + length v + t + 1 + length rest)%nat).
  { subst str. rewrite !length_app, !length_replicate. cbn. lia. }
  assert (Hvlen : (0 < length v)%nat) by (destruct v; [congruence | cbn; lia]).
  remember (length str) as fuel eqn:Hfuel. rewrite Hlen in Hfuel.
  assert (Hend : find_end fuel str strSize 0 = Ret (Z.of_nat (p + length v + t))).
  { pose proof (find_end_found (replicate p c ++ v ++ replicate t c) [] rest
                  fuel strSize) as H.
    rewrite <- !app_assoc in H. cbn [app] in H. change (len []) with 0 in H.
    fold str in H. rewrite H.
    - f_equal. unfold len. rewrite !length_app, !length_replicate. lia.
    - rewrite !in_app_iff. intros [Hin|[Hin|Hin]].
      + revert Hin. apply not_in_replicate. congruence.
      + contradiction.
      + revert Hin. apply not_in_replicate. congruence.
    - unfold len. rewrite !length_app, !length_replicate. lia.
    - rewrite !length_app, !length_replicate. lia. }
  rewrite Hend. cbn [obind].
  replace (uint32 (Z.of_nat (p + length v + t) - 1))
    with (Z.of_nat (p + length v + t) - 1) by (unfold uint32; rewrite Z.mod_small; lia).
  destruct (exists_last Hv) as (v0 & x & Hv0).
  assert (Hx : x <> c).
  { intros ->. apply Hlast. rewrite Hv0. apply last_snoc. }
  assert (Hback : back_scan fuel str c (Z.of_nat (p + length v + t) - 1)
                    (Z.of_nat (p + length v + t))
                  = Ret (replicate p c ++ v ++ replicate t nul ++ nul :: rest,
                         Z.of_nat (p + length v))).
  { pose proof (back_scan_trailing c t (replicate p c ++ v0) x (nul :: rest)
                  fuel (Z.of_nat (p + length v + t)) Hx) as H.
    assert (Hv1 : length v = S (length v0)) by (rewrite Hv0, length_app; cbn; lia).
    replace (len (replicate p c ++ v0) + Z.of_nat t)
      with (Z.of_nat (p + length v + t) - 1) in H
      by (rewrite len_app, len_replicate; unfold len; lia).
    replace (len (replicate p c ++ v0) + 1) with (Z.of_nat (p + length v)) in H
      by (rewrite len_app, len_replicate; unfold len; lia).
    replace ((replicate p c ++ v0) ++ x :: replicate t c ++ nul :: rest)
      with str in H by (unfold str; rewrite Hv0, <- !app_assoc; reflexivity).
    replace ((replicate p c ++ v0) ++ x :: replicate t nul ++ nul :: rest)
      with (replicate p c ++ v ++ replicate t nul ++ nul :: rest) in H
      by (rewrite Hv0, <- !app_assoc; reflexivity).
    rewrite H by lia. f_equal. f_equal.
    destruct t; cbn [Nat.eqb]; lia. }
  rewrite Hback. cbn [obind]. clear Hback Hend.
  set (str2 := replicate p c ++ v ++ replicate t nul ++ nul :: rest).
  assert (Hlen2 : length str2 = fuel).
  { subst str2 fuel. rewrite !length_app, !length_replicate. cbn. lia. }
  rewrite Hlen2.
  assert (Hlead : lead_run fuel str2 strSize c 0 0 = Ret (Z.of_nat p)).
  { destruct v as [|y v1]; [congruence|].
    assert (Hy : y <> c) by (intros ->; now apply Hhd).
    pose proof (lead_run_found c p [] y (v1 ++ replicate t nul ++ nul :: rest)
                  fuel strSize 0 Hy) as H.
    cbn [app] in H. change (len []) with 0 in H.
    unfold str2. cbn [app]. rewrite H by (cbn [length] in *; lia).
    destruct p; reflexivity. }
  rewrite Hlead. cbn [obind]. clear Hlead.
  replace (uint32 (Z.of_nat (p + length v) + 1 - Z.of_nat p))
    with (len v + 1) by (unfold uint32, len; rewrite Z.mod_small; lia).
  destruct (snprintf str2 0 (len v + 1) (Same (Z.of_nat p))) as [[o n]| | |];
    reflexivity.
Qed.

Lemma trimstr_format (c : ascii) (p t : nat) (v1 v2 rest : list ascii) (strSize : Z) :
  c <> nul -> Forall plain v1 -> ~ In nul v2 -> head v2 <> Some percent ->
  head (v1 ++ percent :: v2) <> Some c -> last (v1 ++ percent :: v2) <> Some c ->
  Z.of_nat (p + length (v1 ++ percent :: v2) + t) < strSize -> strSize < 2 ^ 32 ->
  trimstr (replicate p c ++ (v1 ++ percent :: v2) ++ replicate t c ++ nul :: rest)
    strSize c
  = Undef FormatArgument.
Proof.
  intros Hc Hv1 Hv2 Hnext Hhd Hlast Hsize H32.
  rewrite trimstr_until_copy; try assumption.
  - unfold snprintf. cbn [extent].
    assert (Hshape : exists x post,
               x <> percent /\
               replicate p c ++ (v1 ++ percent :: v2) ++ replicate t nul ++ nul :: rest
               = replicate p c ++ v1 ++ percent :: x :: post).
    { destruct v2 as [|y v2'].
      - exists nul, (replicate t nul ++ rest). split; [discriminate|].
        rewrite <- !app_assoc. cbn [app]. now rewrite replicate_shift.
      - exists y, (v2' ++ replicate t nul ++ nul :: rest).
        split; [intros ->; now apply Hnext|].
        rewrite <- !app_assoc. reflexivity. }
    destruct Hshape as (x & post & Hx & Hshape). rewrite Hshape.
    rewrite (format_loop_same_conversion v1 (replicate p c) x post _ _
               (Z.of_nat p) 0 0 0%nat);
      [ reflexivity | exact Hv1 | exact Hx | rewrite !length_app; cbn; lia
      | rewrite len_replicate; lia | reflexivity | lia ].
  - now destruct v1.
  - rewrite in_app_iff. cbn [In]. intros [Hin|[Hin|Hin]].
    + revert Hin. now apply plain_not_nul.
    + discriminate.
    + contradiction.
Qed.

(** X4.  The text is the format of the [snprintf] call of line 257, which
    is given no argument.  When the text between the two runs of the
    sentinel holds a [%] that is not followed by a second [%] (the bytes in
    front of it being ordinary), the three scans succeed and the copy reads
    an argument that was never passed: the call has no defined behaviour. *)
Theorem trimstr_conversion (c : ascii) (p t : nat) (v1 v2 rest : list ascii)
    (strSize : Z) :
  c <> nul -> Forall plain v1 -> ~ In nul v2 -> head v2 <> Some percent ->
  head (v1 ++ percent :: v2) <> Some c -> last (v1 ++ percent :: v2) <> Some c ->
  Z.of_nat (p + length (v1 ++ percent :: v2) + t) < strSize -> strSize < 2 ^ 32 ->
  trimstr (replicate p c ++ (v1 ++ percent :: v2) ++ replicate t c ++ nul :: rest)
    strSize c
  = Undef FormatArgument.
Proof. apply trimstr_format. Qed.

Lemma trimstr_conversion_witness :
  trimstr (replicate 1 NAK ++ (bytes "RSSI=" ++ percent :: bytes "d") ++ replicate 1 NAK
           ++ nul :: []) 10 NAK
  = Undef FormatArgument.
Proof.
  apply (trimstr_conversion NAK 1 1 (bytes "RSSI=") (bytes "d") [] 10);
    try discriminate; try (vm_compute; reflexivity);
    try (vm_compute; intuition discriminate).
  repeat constructor; discriminate.
Defined.

(** A text with no sentinel byte in front of it: [trimPos] is 0, and the
    format of line 257 is the output itself. *)
Lemma trimstr_unpadded (c : ascii) (t : nat) (v rest : list ascii) (strSize : Z) :
  c <> nul -> v <> [] -> Forall plain v ->
  head v <> Some c -> last v <> Some c ->
  Z.of_nat (length v + t) < strSize -> strSize < 2 ^ 32 ->
  trimstr (v ++ replicate t c ++ nul :: rest) strSize c = Undef Overlap.
Proof.
  intros Hc Hv Hplain Hhd Hlast Hsize H32.
  pose proof (trimstr_until_copy c 0 t v rest strSize Hc Hv
                (plain_not_nul v Hplain) Hhd Hlast Hsize H32) as H.
  cbn [replicate app Z.of_nat] in H. rewrite H. clear H.
  unfold snprintf. cbn [extent].
  replace (v ++ replicate t nul ++ nul :: rest)
    with ([] ++ v ++ nul :: (replicate t nul ++ rest))
    by (cbn [app]; now rewrite replicate_shift).
  rewrite (format_loop_same v [] _ _ _ 0 0 0 0%nat);
    [ reflexivity | exact Hplain | rewrite !length_app; cbn; lia
    | reflexivity | reflexivity | cbn; lia ].
Qed.

(** X2.  A second call of [trimstr] on the trimmed buffer.  Under the
    conditions of X1 the first call returns and leaves the text at the
    first byte of the buffer; the text does not start with the sentinel, so
    in the second call [trimPos] is 0 and line 257 is
    [snprintf (str, n, str)], a copy between objects that overlap: the
    second call has no defined behaviour. *)
Theorem trimstr_second_call (c : ascii) (p t : nat) (v rest : list ascii)
    (strSize : Z) :
  (1 <= p)%nat -> c <> nul -> v <> [] -> Forall plain v ->
  head v <> Some c -> last v <> Some c ->
  Z.of_nat (p + length v + t) < strSize -> strSize < 2 ^ 32 ->
  exists out,
    trimstr (replicate p c ++ v ++ replicate t c ++ nul :: rest) strSize c = Ret out
    /\ cstring out 0 = Ret v
    /\ trimstr out strSize c = Undef Overlap.
Proof.
  intros Hp Hc Hv Hplain Hhd Hlast Hsize H32.
  eexists. split; [now apply trimstr_spec|].
  set (rest' := drop (S (length v)) _).
  split; [apply cstring_spec; now apply plain_not_nul|].
  apply (trimstr_unpadded c 0 v rest' strSize); auto. lia.
Qed.

Lemma trimstr_second_call_witness :
  exists out,
    trimstr (replicate 2 NAK ++ bytes "+OK" ++ replicate 1 NAK ++ nul :: [nul]) 8 NAK
    = Ret out
    /\ cstring out 0 = Ret (bytes "+OK")
    /\ trimstr out 8 NAK = Undef Overlap.
Proof.
  apply (trimstr_second_call NAK 2 1 (bytes "+OK") [nul] 8);
    try discriminate; try (vm_compute; reflexivity); try lia.
  repeat constructor; discriminate.
Defined.

(** X25.  A text with no sentinel byte in front of it.  When the buffer
    starts with a text that is not empty, has neither [%] nor terminator and
    neither starts nor ends with the sentinel, the scans leave [trimPos] at
    0 and line 257 is [snprintf (str, n, str)]: the format is the output
    itself, a copy between objects that overlap, and the call has no
    defined behaviour. *)
Theorem trimstr_unpadded_text (c : ascii) (t : nat) (v rest : list ascii)
    (strSize : Z) :
  c <> nul -> v <> [] -> Forall plain v ->
  head v <> Some c -> last v <> Some c ->
  Z.of_nat (length v + t) < strSize -> strSize < 2 ^ 32 ->
  trimstr (v ++ replicate t c ++ nul :: rest) strSize c = Undef Overlap.
Proof. apply trimstr_unpadded. Qed.

Lemma trimstr_unpadded_text_witness :
  trimstr (bytes "OK" ++ replicate 1 NAK ++ nul :: []) 4 NAK = Undef Overlap.
Proof.
  apply (trimstr_unpadded_text NAK 1 (bytes "OK") [] 4);
    try discriminate; try (vm_compute; reflexivity).
  repeat constructor; discriminate.
Defined.

(** ** The waits *)

Lemma wait_ready_stuck (rd : list bool) :
  forall m x t f s tr,
    Forall (eq false) rd ->
    wait_ready (S (length rd)) (World m rd x t f s tr)
    = (Hang, World m [] x t f s (tr ++ replicate (S (length rd)) (EvReady false))).
Proof.
  induction rd as [|b rd IH]; intros m x t f s tr Hrd.
  - cbn [wait_ready length]. run_world. reflexivity.
  - inversion Hrd as [|? ? <- Hrd']; subst.
    cbn [length]. change (wait_ready (S (S (length rd))))
      with (bind WIFI_IS_CMDDATA_READY
              (fun r => if negb r then wait_ready (S (length rd)) else ret tt)).
    run_world. rewrite IH by exact Hrd'. rewrite <- app_assoc. reflexivity.
Qed.

Lemma while_not_ready_stuck m rd x t f s tr :
  Forall (eq false) rd ->
  while_not_ready (World m rd x t f s tr)
  = (Hang, World m [] x t f s (tr ++ replicate (S (length rd)) (EvReady false))).
Proof. intros H. unfold while_not_ready. cbn [ready]. now apply wait_ready_stuck. Qed.

Lemma wait_ready_lows (a : nat) :
  forall fuel m rd x t f s tr,
    (a < fuel)%nat ->
    wait_ready fuel (World m (replicate a false ++ true :: rd) x t f s tr)
    = (Ret tt, World m rd x t f s (tr ++ replicate a (EvReady false) ++ [EvReady true])).
Proof.
  induction a as [|a IH]; intros fuel m rd x t f s tr Hf;
    (destruct fuel as [|fuel]; [lia|]); cbn [wait_ready]; run_world.
  - reflexivity.
  - rewrite IH by lia. rewrite <- app_assoc. reflexivity.
Qed.

Lemma while_not_ready_lows (a : nat) m rd x t f s tr :
  while_not_ready (World m (replicate a false ++ true :: rd) x t f s tr)
  = (Ret tt, World m rd x t f s (tr ++ replicate a (EvReady false) ++ [EvReady true])).
Proof.
  unfold while_not_ready. apply wait_ready_lows.
  cbn [ready]. rewrite length_app, length_replicate. cbn. lia.
Qed.

(** ** The arrays a computation writes *)

Lemma writes_only_keeps {A} bs (m : M A) : keeps_mem m -> writes_only bs m.
Proof. intros H w b _. now rewrite H. Qed.

Lemma writes_only_bind {A B} bs (m : M A) (f : A -> M B) :
  writes_only bs m -> (forall a, writes_only bs (f a)) -> writes_only bs (bind m f).
Proof.
  intros Hm Hf w b Hb. specialize (Hm w b Hb). unfold bind.
  destruct (m w) as [[a| |u|] w1]; cbn [snd] in *; try exact Hm.
  rewrite (Hf a w1 b Hb). exact Hm.
Qed.

Lemma writes_only_write_array bs b l : In b bs -> writes_only bs (write_array b l).
Proof.
  intros Hin w b' Hb'. cbn. apply lookup_insert_ne. intros ->. contradiction.
Qed.

Lemma writes_only_fuel {A} bs (loop : nat -> M A) (fuel : world -> nat) :
  (forall n, writes_only bs (loop n)) -> writes_only bs (fun w => loop (fuel w) w).
Proof. intros H w. apply (H (fuel w) w). Qed.

Lemma keeps_mem_ready : keeps_mem WIFI_IS_CMDDATA_READY.
Proof. intros w. unfold WIFI_IS_CMDDATA_READY. now destruct (ready w). Qed.

Lemma keeps_mem_event e : keeps_mem (emit_event e).
Proof. intros w. reflexivity. Qed.

Lemma keeps_mem_wait_ready fuel : keeps_mem (wait_ready fuel).
Proof.
  induction fuel as [|fuel IH]; [intros w; reflexivity|]. cbn [wait_ready].
  apply keeps_mem_bind; [apply keeps_mem_ready|].
  intros []; [apply keeps_mem_ret | exact IH].
Qed.

Lemma keeps_mem_while_not_ready : keeps_mem while_not_ready.
Proof. intros w. apply keeps_mem_wait_ready. Qed.

Lemma writes_only_HAL_SPI_Receive bs buffer cursor :
  In buffer bs -> writes_only bs (HAL_SPI_Receive buffer cursor).
Proof.
  intros Hin w b Hb. unfold HAL_SPI_Receive.
  destruct (spi_rx w) as [|[[x y]|] rest]; try reflexivity.
  set (w1 := log _ _).
  assert (Hs : writes_only bs (bind (read_array buffer) (fun l =>
              bind (lift (store l cursor x)) (fun l1 =>
              bind (lift (store l1 (cursor + 1) y)) (fun l2 =>
              bind (write_array buffer l2) (fun _ => ret true)))))).
  { repeat (apply writes_only_bind; [|intros ?]);
      auto using writes_only_keeps, keeps_mem_read_array, keeps_mem_lift,
                 writes_only_write_array, keeps_mem_ret. }
  apply (Hs w1 b Hb).
Qed.

Lemma writes_only_receive_loop bs buffer size fuel :
  In buffer bs -> forall cnt, writes_only bs (receive_loop fuel buffer size cnt).
Proof.
  intros Hin. induction fuel as [|fuel IH]; intros cnt; [intros w b _; reflexivity|].
  cbn [receive_loop].
  apply writes_only_bind; [apply writes_only_keeps, keeps_mem_ready | intros [|]];
    [|apply writes_only_keeps, keeps_mem_ret].
  apply writes_only_bind.
  - destruct (_ <? cnt); [apply writes_only_keeps, keeps_mem_ret|].
    apply writes_only_bind; [now apply writes_only_HAL_SPI_Receive|].
    intros ok. apply writes_only_keeps, keeps_mem_ret.
  - intros failed. apply writes_only_bind; [|intros _; apply IH].
    destruct failed; apply writes_only_keeps;
      [apply keeps_mem_Error_Handler | apply keeps_mem_ret].
Qed.

Lemma writes_only_WIFI_SPI_Receive bs pad buffer size :
  In buffer bs -> writes_only bs (WIFI_SPI_Receive pad buffer size).
Proof.
  intros Hin. unfold WIFI_SPI_Receive.
  apply writes_only_bind; [apply writes_only_keeps, keeps_mem_read_array | intros b].
  apply writes_only_bind; [apply writes_only_keeps, keeps_mem_lift | intros b1].
  apply writes_only_bind; [now apply writes_only_write_array | intros _].
  apply writes_only_bind.
  { apply (writes_only_fuel bs (fun n => receive_loop n buffer size 0)).
    intros n. now apply writes_only_receive_loop. }
  intros _.
  apply writes_only_bind; [apply writes_only_keeps, keeps_mem_read_array | intros b2].
  apply writes_only_bind; [apply writes_only_keeps, keeps_mem_lift | intros b3].
  apply writes_only_bind; [now apply writes_only_write_array | intros _].
  apply writes_only_keeps, keeps_mem_ret.
Qed.

Lemma writes_only_status_check bs (st : WIFI_StatusTypeDef) :
  writes_only bs (if negb (status_eqb st WIFI_OK) then Error_Handler else ret tt).
Proof.
  apply writes_only_keeps.
  destruct (negb _); [apply keeps_mem_Error_Handler | apply keeps_mem_ret].
Qed.

Lemma writes_only_WIFI_SendATCommand bs rxp txp bCmd sizeCmd bRx sizeRx :
  In bRx bs -> writes_only bs (WIFI_SendATCommand rxp txp bCmd sizeCmd bRx sizeRx).
Proof.
  intros Hin. unfold WIFI_SendATCommand, WIFI_ENABLE_NSS, WIFI_DISABLE_NSS.
  apply writes_only_bind; [apply writes_only_keeps, keeps_mem_while_not_ready | intros _].
  apply writes_only_bind; [apply writes_only_keeps, keeps_mem_event | intros _].
  apply writes_only_bind;
    [apply writes_only_keeps, keeps_mem_WIFI_SPI_Transmit | intros st].
  apply writes_only_bind; [apply writes_only_status_check | intros _].
  apply writes_only_bind; [apply writes_only_keeps, keeps_mem_event | intros _].
  apply writes_only_bind; [apply writes_only_keeps, keeps_mem_while_not_ready | intros _].
  apply writes_only_bind; [apply writes_only_keeps, keeps_mem_event | intros _].
  apply writes_only_bind; [now apply writes_only_WIFI_SPI_Receive | intros st'].
  apply writes_only_bind; [apply writes_only_status_check | intros _].
  apply writes_only_bind; [apply writes_only_keeps, keeps_mem_ready | intros r].
  apply writes_only_bind.
  { apply writes_only_keeps.
    destruct r; [apply keeps_mem_Error_Handler | apply keeps_mem_ret]. }
  intros _.
  apply writes_only_bind; [apply writes_only_keeps, keeps_mem_event | intros _].
  apply writes_only_keeps, keeps_mem_ret.
Qed.

(** ** The values a computation returns *)

Lemma returns_only_ret {A} (a : A) : returns_only a (ret a).
Proof. intros w b w' H. now injection H as <-. Qed.

Lemma returns_only_bind {A B} (m : M A) (f : A -> M B) (b : B) :
  (forall a, returns_only b (f a)) -> returns_only b (bind m f).
Proof.
  intros Hf w b' w' H. apply bind_Ret_inv in H as (a & w1 & _ & H).
  exact (Hf a w1 b' w' H).
Qed.

Ltac returns_only_tac :=
  repeat first
    [ apply returns_only_ret
    | apply returns_only_bind; intros ?
    | match goal with
      | |- returns_only _ (let 'pair _ _ := ?x in _) => destruct x
      end ].

Lemma returns_only_WIFI_SPI_Receive pad buffer size :
  returns_only WIFI_OK (WIFI_SPI_Receive pad buffer size).
Proof. unfold WIFI_SPI_Receive. returns_only_tac. Qed.

Lemma returns_only_WIFI_SPI_Transmit pad buffer size :
  returns_only WIFI_OK (WIFI_SPI_Transmit pad buffer size).
Proof. unfold WIFI_SPI_Transmit. returns_only_tac. Qed.

Lemma returns_only_WIFI_Init pad msg size :
  returns_only WIFI_OK (WIFI_Init pad msg size).
Proof. unfold WIFI_Init. returns_only_tac. Qed.

Lemma returns_only_WIFI_SendATCommand rxp txp bCmd sizeCmd bRx sizeRx :
  returns_only WIFI_OK (WIFI_SendATCommand rxp txp bCmd sizeCmd bRx sizeRx).
Proof. unfold WIFI_SendATCommand. returns_only_tac. Qed.

Lemma returns_only_WIFI_WebServerInit rxp txp size hwifi :
  returns_only WIFI_OK (WIFI_WebServerInit rxp txp size hwifi).
Proof. unfold WIFI_WebServerInit. returns_only_tac. Qed.

(** ** More on [WIFI_SPI_Receive] *)

(** X5.  In every run of [WIFI_SPI_Receive], however it ends, each transfer
    stores its two bytes inside the first [size] bytes of the buffer: the
    test of line 23 comes before the transfer. *)
Theorem WIFI_SPI_Receive_transfers_inside (WIFI_RX_PADDING : ascii) (buffer : N)
    (size : Z) (w : world) :
  exists evs,
    trace (snd (WIFI_SPI_Receive WIFI_RX_PADDING buffer size w)) = trace w ++ evs
    /\ Forall (rx_inside size) evs.
Proof. apply WIFI_SPI_Receive_inside. Qed.

Lemma rx_events_inside (size : Z) (frames : list (ascii * ascii)) :
  forall cnt, Forall (rx_inside size) (rx_events frames cnt) -> cnt <= size ->
    cnt + 2 * Z.of_nat (length frames) <= size.
Proof.
  induction frames as [|f frames IH]; intros cnt H Hc; cbn [length rx_events] in *; [lia|].
  inversion H as [|? ? _ H1]; subst. inversion H1 as [|? ? Hin H2]; subst.
  cbn [rx_inside] in Hin. specialize (IH (cnt + 2) H2). lia.
Qed.

(** X6.  A call of [WIFI_SPI_Receive] that returns has made nothing but
    transfers that succeeded, one after each high reading of Ready, at the
    offsets 0, 2, 4, ...; there are at most [size / 2] of them; the last
    thing it did to the board is the low reading of Ready that ends the
    loop; and the status is [WIFI_OK]. *)
Theorem WIFI_SPI_Receive_returned (WIFI_RX_PADDING : ascii) (buffer : N) (size : Z)
    (w : world) (st : WIFI_StatusTypeDef) (w' : world) :
  0 <= size < 2 ^ 16 ->
  WIFI_SPI_Receive WIFI_RX_PADDING buffer size w = (Ret st, w') ->
  st = WIFI_OK
  /\ exists frames,
       trace w' = trace w ++ rx_events frames 0 ++ [EvReady false]
       /\ 2 * Z.of_nat (length frames) <= size.
Proof.
  intros Hs H.
  destruct (WIFI_SPI_Receive_Ret _ _ _ _ _ _ Hs H) as (frames & Ht & ->).
  split; [reflexivity|]. exists frames. split; [exact Ht|].
  destruct (WIFI_SPI_Receive_inside WIFI_RX_PADDING buffer size w) as (evs & He & Hin).
  rewrite H in He. cbn [snd] in He. rewrite Ht in He. apply app_inv_head in He.
  subst evs. apply Forall_app in Hin as [Hin _].
  apply rx_events_inside in Hin; lia.
Qed.

Lemma WIFI_SPI_Receive_returned_witness :
  WIFI_OK = WIFI_OK
  /\ exists frames,
       trace (snd (WIFI_SPI_Receive NAK wifiRxBuffer 32
                     (board [true; true; false] [padded (bytes "OK")] [])))
       = trace (board [true; true; false] [padded (bytes "OK")] [])
         ++ rx_events frames 0 ++ [EvReady false]
       /\ 2 * Z.of_nat (length frames) <= 32.
Proof.
  apply (WIFI_SPI_Receive_returned NAK wifiRxBuffer 32
           (board [true; true; false] [padded (bytes "OK")] [])).
  - lia.
  - vm_compute. reflexivity.
Defined.

Lemma length_unframe frames : length (unframe frames) = (2 * length frames)%nat.
Proof.
  induction frames as [|[a b] frames IH]; [reflexivity|].
  cbn [unframe flat_map length app] in *. unfold unframe in IH. lia.
Qed.

Lemma unframe_inserts (frames : list (ascii * ascii)) (n : nat) (l : list ascii) :
  (2 * length frames <= n)%nat -> (n <= length l)%nat ->
  list_inserts 0 (unframe frames) (replicate n nul ++ drop n l)
  = unframe frames ++ replicate (n - 2 * length frames) nul ++ drop n l.
Proof.
  intros Hk Hn.
  replace n with (2 * length frames + (n - 2 * length frames))%nat at 1 by lia.
  rewrite replicate_add, <- app_assoc.
  apply list_inserts_0_r. now rewrite length_unframe, length_replicate.
Qed.

Section ReceiveFrames.
Variable buffer : N.
Variable size : Z.
Hypothesis size_uint16 : size < 2 ^ 16.

(** The loop on a board that delivers [frames] and then reads low. *)
Lemma receive_loop_frames (frames : list (ascii * ascii)) :
  forall fuel m r x t f s tr l (i : nat),
    Z.of_nat i + 2 * Z.of_nat (length frames) <= size -> size <= len l ->
    m !! buffer = Some l ->
    (length frames < fuel)%nat ->
    receive_loop fuel buffer size (Z.of_nat i)
      (World m (replicate (length frames) true ++ false :: r)
         (map Some frames ++ x) t f s tr)
    = (Ret tt,
       World (<[buffer := list_inserts i (unframe frames) l]> m) r x t f s
         (tr ++ rx_events frames (Z.of_nat i) ++ [EvReady false])).
Proof.
  induction frames as [|[a b] frames IH]; intros fuel m r x t f s tr l i Hi Hl Hm Hf;
    (destruct fuel as [|fuel]; [cbn in Hf; lia|]); cbn [receive_loop].
  - cbn. rewrite (insert_id m buffer l Hm). reflexivity.
  - cbn [length] in Hi.
    run_world.
    replace (size - 2 <? Z.of_nat i) with false by (symmetry; apply Z.ltb_ge; lia).
    run_world. rewrite Hm. run_world.
    rewrite store_inside by (unfold len in Hl; lia). run_world.
    replace (Z.of_nat i + 1) with (Z.of_nat (S i)) by lia.
    rewrite store_inside by (rewrite length_insert; unfold len in Hl; lia). run_world.
    replace (uint16 (Z.of_nat i + 2)) with (Z.of_nat (S (S i)))
      by (unfold uint16; rewrite Z.mod_small; lia).
    rewrite (IH fuel _ r x t f s _ (<[S i := b]> (<[i := a]> l)) (S (S i))).
    + rewrite insert_insert_eq. f_equal. f_equal.
      * cbn [unframe flat_map app list_inserts fst snd].
        rewrite !list_insert_inserts_lt by lia.
        rewrite (list_insert_insert_ne _ i (S i)) by lia. reflexivity.
      * rewrite <- !app_assoc. cbn [rx_events app].
        replace (Z.of_nat i + 2) with (Z.of_nat (S (S i))) by lia. reflexivity.
    + lia.
    + unfold len in *. rewrite !length_insert. exact Hl.
    + apply lookup_insert_eq.
    + cbn in Hf. lia.
Qed.

End ReceiveFrames.

(** The call on a board that delivers [frames] and then reads low: what
    is left to do is to trim the buffer. *)
Lemma WIFI_SPI_Receive_delivered (pad : ascii) (buffer : N) (size : Z)
    (frames : list (ascii * ascii)) (l : list ascii)
    (m : gmap N (list ascii)) r x tx f s tr :
  2 * Z.of_nat (length frames) <= size -> size <= len l -> size < 2 ^ 16 ->
  m !! buffer = Some l ->
  WIFI_SPI_Receive pad buffer size
    (World m (replicate (length frames) true ++ false :: r)
       (map Some frames ++ x) tx f s tr)
  = let filled := unframe frames
                    ++ replicate (Z.to_nat size - 2 * length frames) nul
                    ++ drop (Z.to_nat size) l in
    let events := tr ++ rx_events frames 0 ++ [EvReady false] in
    match trimstr filled size pad with
    | Ret out => (Ret WIFI_OK, World (<[buffer := out]> m) r x tx f s events)
    | Fatal => (Fatal, World (<[buffer := filled]> m) r x tx f s events)
    | Undef u => (Undef u, World (<[buffer := filled]> m) r x tx f s events)
    | Hang => (Hang, World (<[buffer := filled]> m) r x tx f s events)
    end.
Proof.
  intros Hk Hl H16 Hm.
  unfold WIFI_SPI_Receive. run_world. rewrite Hm. run_world.
  unfold memset.
  replace (size <=? len l) with true by (symmetry; apply Z.leb_le; lia).
  run_world. rewrite length_app, length_replicate. cbn [length].
  set (n := Z.to_nat size).
  pose proof (receive_loop_frames buffer size H16 frames
                (S (length frames + S (length r)))
                (<[buffer := replicate n nul ++ drop n l]> m) r x tx f s tr
                (replicate n nul ++ drop n l) 0) as Hloop.
  change (Z.of_nat 0) with 0 in Hloop. rewrite Hloop; clear Hloop.
  - run_world. rewrite lookup_insert_eq. run_world.
    rewrite unframe_inserts by (unfold len in Hl; lia).
    rewrite !insert_insert_eq.
    destruct (trimstr _ size pad) as [out| |u|]; run_world;
      rewrite ?insert_insert_eq; reflexivity.
  - lia.
  - rewrite len_app, len_replicate. unfold len in *. rewrite length_drop. lia.
  - apply lookup_insert_eq.
  - lia.
Qed.

(** The call on a board that answers with [frames], whose bytes are the
    text [v] between two runs of the padding byte, the first of at least
    one byte. *)
Lemma WIFI_SPI_Receive_frames (pad : ascii) (buffer : N) (size : Z)
    (frames : list (ascii * ascii)) (p t : nat) (v l : list ascii)
    (m : gmap N (list ascii)) :
  (1 <= p)%nat -> pad <> nul -> v <> [] -> Forall plain v ->
  head v <> Some pad -> last v <> Some pad ->
  unframe frames = replicate p pad ++ v ++ replicate t pad ->
  2 * Z.of_nat (length frames) < size -> size <= len l -> size < 2 ^ 16 ->
  m !! buffer = Some l ->
  exists out,
    cstring out 0 = Ret v
    /\ length out = length l
    /\ forall r x tx f s tr,
         WIFI_SPI_Receive pad buffer size
           (World m (replicate (length frames) true ++ false :: r)
              (map Some frames ++ x) tx f s tr)
         = (Ret WIFI_OK,
            World (<[buffer := out]> m) r x tx f s
              (tr ++ rx_events frames 0 ++ [EvReady false])).
Proof.
  intros Hp Hpad Hv Hplain Hhd Hlast Hfr Hk Hl H16 Hm.
  assert (Hlen : (2 * length frames = p + length v + t)%nat).
  { rewrite <- length_unframe, Hfr, !length_app, !length_replicate. lia. }
  set (n := Z.to_nat size).
  set (rest := replicate (n - 2 * length frames - 1) nul ++ drop n l).
  pose proof (trimstr_spec pad p t v rest size Hp Hpad Hv Hplain Hhd Hlast) as Htrim.
  exists (v ++ nul ::
            drop (S (length v)) (replicate p pad ++ v ++ replicate (S t) nul ++ rest)).
  split; [|split].
  - apply cstring_spec. now apply plain_not_nul.
  - unfold rest.
    repeat progress (rewrite ?length_app, ?length_drop, ?length_replicate; cbn [length]).
    unfold len in Hl. lia.
  - intros r x tx f s tr.
    rewrite (WIFI_SPI_Receive_delivered pad buffer size frames l)
      by (assumption || lia).
    cbv zeta. fold n.
    rewrite Hfr.
    replace (n - 2 * length frames)%nat with (S (n - 2 * length frames - 1)) by lia.
    cbn [replicate]. rewrite <- !app_assoc. cbn [app]. fold rest.
    rewrite Htrim by lia. reflexivity.
Qed.

(** X7.  The answer arrives as it was sent, when it comes behind a padding
    byte.  On a board that delivers the frames of an answer (Ready high once
    for each frame, then low) whose bytes are a text [v] between [p >= 1]
    and [t] padding bytes, with [v] not
    empty, without [%] and terminator, neither starting nor ending with the
    padding byte, and [2 * frames < size], the call returns [WIFI_OK] having
    taken these frames and nothing else; the buffer keeps its size and its
    string is [v]; no other array has changed. *)
Theorem WIFI_SPI_Receive_answer (WIFI_RX_PADDING : ascii) (buffer : N) (size : Z)
    (frames : list (ascii * ascii)) (p t : nat) (v l : list ascii) (w : world)
    (r : list bool) (x : list (option (ascii * ascii))) :
  (1 <= p)%nat ->
  WIFI_RX_PADDING <> nul -> v <> [] -> Forall plain v ->
  head v <> Some WIFI_RX_PADDING -> last v <> Some WIFI_RX_PADDING ->
  unframe frames = replicate p WIFI_RX_PADDING ++ v ++ replicate t WIFI_RX_PADDING ->
  2 * Z.of_nat (length frames) < size -> size <= len l -> size < 2 ^ 16 ->
  mem w !! buffer = Some l ->
  ready w = replicate (length frames) true ++ false :: r ->
  spi_rx w = map Some frames ++ x ->
  exists out,
    WIFI_SPI_Receive WIFI_RX_PADDING buffer size w
    = (Ret WIFI_OK,
       World (<[buffer := out]> (mem w)) r x (spi_tx w) (flash w) (stack w)
         (trace w ++ rx_events frames 0 ++ [EvReady false]))
    /\ cstring out 0 = Ret v
    /\ length out = length l.
Proof.
  intros Hp Hpad Hv Hplain Hhd Hlast Hfr Hk Hl H16 Hm Hr Hx.
  destruct w as [m rd rx tx f s tr]. cbn [mem ready spi_rx spi_tx flash stack trace] in *.
  subst rd rx.
  destruct (WIFI_SPI_Receive_frames WIFI_RX_PADDING buffer size frames p t v l m
              Hp Hpad Hv Hplain Hhd Hlast Hfr Hk Hl H16 Hm) as (out & Hs & Hlen & Hrun).
  exists out. rewrite Hrun. auto.
Qed.

Lemma WIFI_SPI_Receive_answer_witness :
  exists out,
    WIFI_SPI_Receive NAK wifiRxBuffer 32
      (board [true; true; false] [padded (bytes "OK!")] [])
    = (Ret WIFI_OK,
       World (<[wifiRxBuffer := out]>
                (mem (board [true; true; false] [padded (bytes "OK!")] [])))
         [] [] [] (fun _ => Some []) (fun _ => "x"%char)
         ([] ++ rx_events (frames_of (padded (bytes "OK!"))) 0 ++ [EvReady false]))
    /\ cstring out 0 = Ret (bytes "OK!")
    /\ length out = length (replicate 32 nul).
Proof.
  apply (WIFI_SPI_Receive_answer NAK wifiRxBuffer 32 (frames_of (padded (bytes "OK!")))
           1 0 (bytes "OK!") (replicate 32 nul)
           (board [true; true; false] [padded (bytes "OK!")] []) [] []);
    try discriminate; try (vm_compute; reflexivity); try lia.
  repeat constructor; discriminate.
Defined.

(** X26.  An answer with no padding byte in front of it.  On a board that
    delivers the frames of an answer whose bytes are a text [v] (not empty,
    without [%] and terminator, neither starting nor ending with the padding
    byte) followed by [t] padding bytes, the frames are stored and the loop
    ends as in X7, but [trimstr] is then called on a text that starts at the
    first byte of the buffer: line 257 copies between objects that overlap,
    and the call has no defined behaviour. *)
Theorem WIFI_SPI_Receive_unpadded_answer (WIFI_RX_PADDING : ascii) (buffer : N)
    (size : Z) (frames : list (ascii * ascii)) (t : nat) (v l : list ascii)
    (w : world) (r : list bool) (x : list (option (ascii * ascii))) :
  WIFI_RX_PADDING <> nul -> v <> [] -> Forall plain v ->
  head v <> Some WIFI_RX_PADDING -> last v <> Some WIFI_RX_PADDING ->
  unframe frames = v ++ replicate t WIFI_RX_PADDING ->
  2 * Z.of_nat (length frames) < size -> size <= len l -> size < 2 ^ 16 ->
  mem w !! buffer = Some l ->
  ready w = replicate (length frames) true ++ false :: r ->
  spi_rx w = map Some frames ++ x ->
  fst (WIFI_SPI_Receive WIFI_RX_PADDING buffer size w) = Undef Overlap.
Proof.
  intros Hpad Hv Hplain Hhd Hlast Hfr Hk Hl H16 Hm Hr Hx.
  destruct w as [m rd rx tx f s tr]. cbn [mem ready spi_rx] in *. subst rd rx.
  assert (Hlen : (2 * length frames = length v + t)%nat).
  { rewrite <- length_unframe, Hfr, length_app, length_replicate. lia. }
  rewrite (WIFI_SPI_Receive_delivered WIFI_RX_PADDING buffer size frames l)
    by (assumption || lia).
  cbv zeta. rewrite Hfr.
  replace (Z.to_nat size - 2 * length frames)%nat
    with (S (Z.to_nat size - 2 * length frames - 1)) by lia.
  cbn [replicate]. rewrite <- !app_assoc. cbn [app].
  rewrite trimstr_unpadded; try assumption; [reflexivity | lia | lia].
Qed.

Lemma WIFI_SPI_Receive_unpadded_answer_witness :
  fst (WIFI_SPI_Receive NAK wifiRxBuffer 32
         (board [true; true; false] [bytes "OK!"] []))
  = Undef Overlap.
Proof.
  apply (WIFI_SPI_Receive_unpadded_answer NAK wifiRxBuffer 32 (frames_of (bytes "OK!"))
           1 (bytes "OK!") (replicate 32 nul)
           (board [true; true; false] [bytes "OK!"] []) [] []);
    try discriminate; try (vm_compute; reflexivity);
    try (vm_compute; discriminate).
  repeat constructor; discriminate.
Defined.

(** X8.  An answer that is empty.  When Ready reads low at the first reading
    of the loop, nothing is stored, the buffer holds the terminators of
    [memset], and [trimstr] is called on the empty string: the backward scan
    reads index [2^32 - 1] of the buffer, and the call has no defined
    behaviour. *)
Theorem WIFI_SPI_Receive_empty_answer (WIFI_RX_PADDING : ascii) (buffer : N)
    (size : Z) (w : world) (l : list ascii) :
  mem w !! buffer = Some l -> 0 < size <= len l -> len l < 2 ^ 32 ->
  head (ready w) <> Some true ->
  fst (WIFI_SPI_Receive WIFI_RX_PADDING buffer size w)
  = Undef (OutOfBounds (2 ^ 32 - 1)).
Proof.
  intros Hm Hs Hl Hr. destruct w as [m rd x tx f s tr]. cbn [mem ready] in *.
  unfold WIFI_SPI_Receive. run_world. rewrite Hm. run_world. unfold memset.
  replace (size <=? len l) with true by (symmetry; apply Z.leb_le; lia).
  run_world. cbn [receive_loop]. run_world.
  assert (Htrim : trimstr (replicate (Z.to_nat size) nul ++ drop (Z.to_nat size) l)
                    size WIFI_RX_PADDING = Undef (OutOfBounds (2 ^ 32 - 1))).
  { apply trimstr_empty_string; [|lia|].
    - replace (Z.to_nat size) with (S (Z.to_nat size - 1)) by lia. reflexivity.
    - rewrite len_app, len_replicate. unfold len in *. rewrite length_drop. lia. }
  destruct rd as [|[] rd]; [|exfalso; now apply Hr|];
    run_world; rewrite lookup_insert_eq; run_world; rewrite Htrim; reflexivity.
Qed.

Lemma WIFI_SPI_Receive_empty_answer_witness :
  fst (WIFI_SPI_Receive NAK wifiRxBuffer 32 (board [false] [] []))
  = Undef (OutOfBounds (2 ^ 32 - 1)).
Proof.
  apply (WIFI_SPI_Receive_empty_answer NAK wifiRxBuffer 32 (board [false] [] [])
           (replicate 32 nul)).
  - vm_compute. reflexivity.
  - vm_compute. split; [reflexivity | discriminate].
  - vm_compute. reflexivity.
  - discriminate.
Defined.

(** X9.  An answer that fills the buffer.  When the frames of the answer
    fill the [size] bytes of the buffer exactly and none of their bytes is
    the terminator, every transfer passes the test of line 23, the loop
    ends at the low reading of Ready, and [trimstr] is called on a buffer
    without terminator: the backward scan reads index [2^32 - 1], and the
    call has no defined behaviour. *)
Theorem WIFI_SPI_Receive_full_buffer (WIFI_RX_PADDING : ascii) (buffer : N)
    (size : Z) (frames : list (ascii * ascii)) (l : list ascii) (w : world)
    (r : list bool) (x : list (option (ascii * ascii))) :
  ~ In nul (unframe frames) ->
  2 * Z.of_nat (length frames) = size -> size < 2 ^ 16 ->
  size <= len l -> len l < 2 ^ 32 ->
  mem w !! buffer = Some l ->
  ready w = replicate (length frames) true ++ false :: r ->
  spi_rx w = map Some frames ++ x ->
  fst (WIFI_SPI_Receive WIFI_RX_PADDING buffer size w)
  = Undef (OutOfBounds (2 ^ 32 - 1)).
Proof.
  intros Hn Hk H16 Hl H32 Hm Hr Hx.
  destruct w as [m rd rx tx f s tr]. cbn [mem ready spi_rx] in *. subst rd rx.
  rewrite (WIFI_SPI_Receive_delivered WIFI_RX_PADDING buffer size frames l)
    by (assumption || lia).
  cbv zeta.
  replace (Z.to_nat size - 2 * length frames)%nat with 0%nat by lia.
  cbn [replicate app].
  rewrite trimstr_no_terminator; [reflexivity | | | ].
  - rewrite take_app_length'; [exact Hn | rewrite length_unframe; lia].
  - rewrite len_app. unfold len in *. rewrite length_unframe, length_drop. lia.
  - rewrite len_app. unfold len in *. rewrite length_unframe, length_drop. lia.
Qed.

Lemma WIFI_SPI_Receive_full_buffer_witness :
  fst (WIFI_SPI_Receive NAK wifiRxBuffer 4
         (board [true; true; false] [bytes "+OK!"] []))
  = Undef (OutOfBounds (2 ^ 32 - 1)).
Proof.
  apply (WIFI_SPI_Receive_full_buffer NAK wifiRxBuffer 4 (frames_of (bytes "+OK!"))
           (replicate 32 nul) (board [true; true; false] [bytes "+OK!"] []) [] []);
    try (vm_compute; reflexivity); try (vm_compute; discriminate).
  vm_compute. intuition discriminate.
Defined.

(** X10.  An answer with a conversion.  The answer of the module is the
    format of the [snprintf] call of [trimstr]: when the frames delivered
    hold, between two runs of the padding byte, a text with a [%] that is
    not followed by a second [%], the call has no defined behaviour. *)
Theorem WIFI_SPI_Receive_conversion (WIFI_RX_PADDING : ascii) (buffer : N) (size : Z)
    (frames : list (ascii * ascii)) (p t : nat) (v1 v2 l : list ascii) (w : world)
    (r : list bool) (x : list (option (ascii * ascii))) :
  WIFI_RX_PADDING <> nul ->
  Forall plain v1 -> ~ In nul v2 -> head v2 <> Some percent ->
  head (v1 ++ percent :: v2) <> Some WIFI_RX_PADDING ->
  last (v1 ++ percent :: v2) <> Some WIFI_RX_PADDING ->
  unframe frames
  = replicate p WIFI_RX_PADDING ++ (v1 ++ percent :: v2) ++ replicate t WIFI_RX_PADDING ->
  2 * Z.of_nat (length frames) < size -> size <= len l -> size < 2 ^ 16 ->
  mem w !! buffer = Some l ->
  ready w = replicate (length frames) true ++ false :: r ->
  spi_rx w = map Some frames ++ x ->
  fst (WIFI_SPI_Receive WIFI_RX_PADDING buffer size w) = Undef FormatArgument.
Proof.
  intros Hpad Hv1 Hv2 Hnext Hhd Hlast Hfr Hk Hl H16 Hm Hr Hx.
  destruct w as [m rd rx tx f s tr]. cbn [mem ready spi_rx] in *. subst rd rx.
  assert (Hlen : (2 * length frames
                  = p + length (v1 ++ percent :: v2) + t)%nat).
  { rewrite <- length_unframe, Hfr.
    repeat progress (rewrite ?length_app, ?length_replicate; cbn [length]). lia. }
  rewrite (WIFI_SPI_Receive_delivered WIFI_RX_PADDING buffer size frames l)
    by (assumption || lia).
  cbv zeta.
  rewrite Hfr.
  replace (Z.to_nat size - 2 * length frames)%nat
    with (S (Z.to_nat size - 2 * length frames - 1)) by lia.
  cbn [replicate]. rewrite <- (app_assoc (replicate p WIFI_RX_PADDING)).
  rewrite <- (app_assoc (v1 ++ percent :: v2)). cbn [app].
  rewrite trimstr_format; try assumption; [reflexivity | lia | lia].
Qed.

Lemma WIFI_SPI_Receive_conversion_witness :
  fst (WIFI_SPI_Receive NAK wifiRxBuffer 32
         (board [true; true; true; false] [padded (bytes "50%d")] []))
  = Undef FormatArgument.
Proof.
  apply (WIFI_SPI_Receive_conversion NAK wifiRxBuffer 32
           (frames_of (padded (bytes "50%d")))
           1 1 (bytes "50") (bytes "d") (replicate 32 nul)
           (board [true; true; true; false] [padded (bytes "50%d")] []) [] []);
    try discriminate; try (vm_compute; reflexivity);
    try (vm_compute; discriminate); try (vm_compute; intuition discriminate).
  repeat constructor; discriminate.
Defined.

(** X11.  [WIFI_SPI_Receive] writes to no array but its buffer: whatever the
    call does and however it ends, every other array holds the bytes it
    held before. *)
Theorem WIFI_SPI_Receive_writes_its_buffer (WIFI_RX_PADDING : ascii) (buffer : N)
    (size : Z) (w : world) (b : N) :
  b <> buffer ->
  mem (snd (WIFI_SPI_Receive WIFI_RX_PADDING buffer size w)) !! b = mem w !! b.
Proof.
  intros Hb.
  apply (writes_only_WIFI_SPI_Receive [buffer] WIFI_RX_PADDING buffer size
           (or_introl eq_refl) w b).
  cbn. intros [Heq|[]]. congruence.
Qed.

Lemma WIFI_SPI_Receive_writes_its_buffer_witness :
  mem (snd (WIFI_SPI_Receive NAK wifiRxBuffer 32
              (board [true; true; false] [padded (bytes "OK")] [])))
    !! wifiTxBuffer
  = mem (board [true; true; false] [padded (bytes "OK")] []) !! wifiTxBuffer.
Proof.
  apply (WIFI_SPI_Receive_writes_its_buffer NAK wifiRxBuffer 32
           (board [true; true; false] [padded (bytes "OK")] []) wifiTxBuffer).
  discriminate.
Defined.

(** ** More on [WIFI_SPI_Transmit] *)

Section Transmit.
Variable WIFI_TX_PADDING : ascii.
Variable buffer : N.
Variable size : Z.

Lemma odd_array : size mod 2 = 1 -> size / 2 * 2 + 1 = size.
Proof. intros H. pose proof (Z.div_mod size 2). lia. Qed.

(** The transfer of a command of odd declared size. *)
Lemma WIFI_SPI_Transmit_odd (cmd rest : list ascii) m r x tx f s tr :
  Forall plain cmd -> size mod 2 = 1 -> 0 < size <= len cmd + 1 ->
  m !! buffer = Some (cmd ++ nul :: rest) ->
  WIFI_SPI_Transmit WIFI_TX_PADDING buffer size (World m r x tx f s tr)
  = let sent := take (Z.to_nat (size - 1)) cmd in
    match tx with
    | true :: tx' => (Ret WIFI_OK, World m r x tx' f s (tr ++ [EvSpiTx sent true]))
    | false :: tx' =>
        (Fatal, World m r x tx' f s (tr ++ [EvSpiTx sent false] ++ [EvErrorHandler]))
    | [] => (Fatal, World m r x [] f s (tr ++ [EvSpiTx sent false] ++ [EvErrorHandler]))
    end.
Proof.
  intros Hplain Hodd Hsize Hm. unfold WIFI_SPI_Transmit, automatic.
  rewrite (odd_array Hodd). run_world. rewrite Hm. run_world.
  unfold snprintf. cbn [extent].
  rewrite (format_loop_other cmd [] rest _ _ 0 (size - 1) 0 0 0 0%nat);
    [ | exact Hplain | rewrite length_app; lia | reflexivity | reflexivity
      | right; rewrite length_map, length_seq; unfold len in Hsize; lia ].
  cbn [obind overlaps]. run_world.
  replace (0 <? size) with true by (symmetry; apply Z.ltb_lt; lia). cbv iota.
  replace (0 + Z.min (0 + len cmd) (size - 1)) with (size - 1) by lia.
  set (dst := map s (seq 0 (Z.to_nat size))).
  assert (Hdst : length dst = Z.to_nat size)
    by (unfold dst; now rewrite length_map, length_seq).
  rewrite store_inside_Z by (unfold len; rewrite length_inserts; lia).
  run_world.
  replace (size mod 2 =? 0) with false by (symmetry; apply Z.eqb_neq; lia).
  run_world. unfold HAL_SPI_Transmit.
  replace (2 * (size / 2)) with (size - 1) by (pose proof (Z.div_mod size 2); lia).
  replace (size - 1 <=? _) with true
    by (symmetry; apply Z.leb_le; unfold len; rewrite length_insert, length_inserts; lia).
  rewrite take_insert_ge by lia.
  replace (size - 1 - 0) with (size - 1) by lia.
  assert (Htake : take (Z.to_nat (size - 1))
                    (list_inserts 0 (take (Z.to_nat (size - 1)) cmd) dst)
                  = take (Z.to_nat (size - 1)) cmd).
  { assert (Hl : length (take (Z.to_nat (size - 1)) cmd) = Z.to_nat (size - 1))
      by (rewrite length_take; unfold len in Hsize; lia).
    rewrite <- Hl at 1. apply take_inserts_0. lia. }
  rewrite Htake. run_world.
  destruct tx as [|[] tx']; run_world; rewrite <- ?app_assoc; reflexivity.
Qed.

End Transmit.

(** X12.  A command of odd declared size goes out as it is.  When the
    command has neither [%] nor terminator in front of its terminator and
    [size] is odd and at most the length of the command plus one, the one
    transfer of the call carries the first [size - 1] bytes of the command
    (the whole command when [size] is its length plus one) and nothing
    else; the call returns [WIFI_OK] when the transfer succeeds and ends in
    [Error_Handler] when it does not. *)
Theorem WIFI_SPI_Transmit_odd_size (WIFI_TX_PADDING : ascii) (buffer : N) (size : Z)
    (cmd rest : list ascii) (w : world) :
  Forall plain cmd -> size mod 2 = 1 -> 0 < size <= len cmd + 1 ->
  mem w !! buffer = Some (cmd ++ nul :: rest) ->
  WIFI_SPI_Transmit WIFI_TX_PADDING buffer size w
  = let sent := take (Z.to_nat (size - 1)) cmd in
    match spi_tx w with
    | true :: tx' => (Ret WIFI_OK, log (EvSpiTx sent true) (set_spi_tx tx' w))
    | false :: tx' =>
        (Fatal, log EvErrorHandler (log (EvSpiTx sent false) (set_spi_tx tx' w)))
    | [] => (Fatal, log EvErrorHandler (log (EvSpiTx sent false) w))
    end.
Proof.
  intros Hplain Hodd Hsize Hm. destruct w as [m r x tx f s tr].
  cbn [mem spi_tx] in *.
  rewrite (WIFI_SPI_Transmit_odd WIFI_TX_PADDING buffer size cmd rest) by assumption.
  destruct tx as [|[] tx']; run_world; rewrite <- ?app_assoc; reflexivity.
Qed.

Lemma WIFI_SPI_Transmit_odd_size_witness :
  WIFI_SPI_Transmit LF wifiTxBuffer 7 port_board
  = let sent := take (Z.to_nat (7 - 1)) (bytes "P2=80" ++ [CR]) in
    match spi_tx port_board with
    | true :: tx' => (Ret WIFI_OK, log (EvSpiTx sent true) (set_spi_tx tx' port_board))
    | false :: tx' =>
        (Fatal, log EvErrorHandler (log (EvSpiTx sent false) (set_spi_tx tx' port_board)))
    | [] => (Fatal, log EvErrorHandler (log (EvSpiTx sent false) port_board))
    end.
Proof.
  apply (WIFI_SPI_Transmit_odd_size LF wifiTxBuffer 7 (bytes "P2=80" ++ [CR]) []).
  - repeat constructor; discriminate.
  - reflexivity.
  - vm_compute. split; [reflexivity | discriminate].
  - vm_compute. reflexivity.
Defined.

(** X13.  A command with a conversion.  The command is the format of the
    [snprintf] call of line 49, which is given no argument: when the command
    holds a [%] that is not followed by a second [%], the call has no
    defined behaviour, and nothing is transferred. *)
Theorem WIFI_SPI_Transmit_conversion (WIFI_TX_PADDING : ascii) (buffer : N)
    (size : Z) (pre rest : list ascii) (x : ascii) (w : world) :
  Forall plain pre -> x <> percent -> 0 <= size ->
  mem w !! buffer = Some (pre ++ percent :: x :: rest) ->
  WIFI_SPI_Transmit WIFI_TX_PADDING buffer size w = (Undef FormatArgument, w).
Proof.
  intros Hplain Hx Hsize Hm. unfold WIFI_SPI_Transmit, automatic.
  unfold bind at 1. unfold bind at 1, read_array. rewrite Hm.
  unfold bind at 1, lift, snprintf. cbn [extent].
  rewrite (format_loop_conversion pre [] x rest _ _ 0 (size - 1) 0 0 0 0%nat);
    [ reflexivity | exact Hplain | exact Hx | rewrite length_app; cbn; lia
    | reflexivity | reflexivity | ].
  right. rewrite length_map, length_seq.
  pose proof (Z.div_mod size 2). pose proof (Z.mod_pos_bound size 2). lia.
Qed.

Lemma WIFI_SPI_Transmit_conversion_witness :
  WIFI_SPI_Transmit LF wifiTxBuffer 13
    (with_command (bytes "A2=100%sure" ++ [CR]) (board [] [] [true]))
  = (Undef FormatArgument,
     with_command (bytes "A2=100%sure" ++ [CR]) (board [] [] [true])).
Proof.
  apply (WIFI_SPI_Transmit_conversion LF wifiTxBuffer 13 (bytes "A2=100")
           (bytes "ure" ++ [CR; nul]) "s"%char).
  - repeat constructor; discriminate.
  - discriminate.
  - lia.
  - vm_compute. reflexivity.
Defined.

Lemma HAL_SPI_Transmit_sent data units w ok w' :
  0 <= units ->
  HAL_SPI_Transmit data units w = (Ret ok, w') ->
  exists sent, trace w' = trace w ++ [EvSpiTx sent ok] /\ len sent = 2 * units.
Proof.
  unfold HAL_SPI_Transmit. intros Hu.
  destruct (Z.leb_spec (2 * units) (len data)); [|discriminate].
  intros Hrun. exists (take (Z.to_nat (2 * units)) data).
  assert (Hl : len (take (Z.to_nat (2 * units)) data) = 2 * units)
    by (unfold len in *; rewrite length_take; lia).
  destruct (spi_tx w); inversion Hrun; subst; auto.
Qed.

(** X14.  A call of [WIFI_SPI_Transmit] that returns has made exactly one
    transfer, of [size / 2] frames (two bytes each), that transfer has
    succeeded, and the status is [WIFI_OK]. *)
Theorem WIFI_SPI_Transmit_returned (WIFI_TX_PADDING : ascii) (buffer : N) (size : Z)
    (w : world) (st : WIFI_StatusTypeDef) (w' : world) :
  0 <= size ->
  WIFI_SPI_Transmit WIFI_TX_PADDING buffer size w = (Ret st, w') ->
  st = WIFI_OK
  /\ exists sent,
       trace w' = trace w ++ [EvSpiTx sent true] /\ len sent = 2 * (size / 2).
Proof.
  unfold WIFI_SPI_Transmit. intros Hs H.
  apply bind_Ret_inv in H as (bTx & w1 & H1 & H). injection H1 as _ <-.
  apply bind_Ret_inv in H as (cmd & w2 & H2 & H).
  apply read_array_Ret in H2 as [_ ->].
  apply bind_Ret_inv in H as ([bTx' n] & w3 & H3 & H).
  apply lift_Ret in H3 as [_ ->].
  apply bind_Ret_inv in H as (bTx'' & w4 & H4 & H).
  assert (w4 = w) as ->.
  { destruct (size mod 2 =? 0).
    - apply bind_Ret_inv in H4 as (s & w5 & H5 & H4).
      apply lift_Ret in H4 as [_ ->].
      unfold string_at_address in H5. destruct (flash w _); inversion H5; reflexivity.
    - now injection H4 as _ <-. }
  apply bind_Ret_inv in H as (ok & w5 & H5 & H).
  apply HAL_SPI_Transmit_sent in H5 as (sent & Ht & Hl);
    [|apply Z.div_pos; lia].
  apply bind_Ret_inv in H as ([] & w6 & H6 & H).
  destruct ok; [|discriminate]. injection H6 as <-. injection H as <- <-.
  split; [reflexivity|]. exists sent. auto.
Qed.

Lemma WIFI_SPI_Transmit_returned_witness :
  WIFI_OK = WIFI_OK
  /\ exists sent,
       trace (snd (WIFI_SPI_Transmit LF wifiTxBuffer 4 transmit_board))
       = trace transmit_board ++ [EvSpiTx sent true]
       /\ len sent = 2 * (4 / 2).
Proof.
  apply (WIFI_SPI_Transmit_returned LF wifiTxBuffer 4 transmit_board).
  - lia.
  - vm_compute. reflexivity.
Defined.

(** ** More on [WIFI_SendATCommand] *)

(** X15.  [WIFI_SendATCommand] writes to no array but the response buffer:
    whatever the call does and however it ends, every other array (the
    command buffer, when it is another array) holds the bytes it held
    before. *)
Theorem WIFI_SendATCommand_writes_the_response (WIFI_RX_PADDING WIFI_TX_PADDING : ascii)
    (bCmd : N) (sizeCmd : Z) (bRx : N) (sizeRx : Z) (w : world) (b : N) :
  b <> bRx ->
  mem (snd (WIFI_SendATCommand WIFI_RX_PADDING WIFI_TX_PADDING
              bCmd sizeCmd bRx sizeRx w)) !! b
  = mem w !! b.
Proof.
  intros Hb.
  apply (writes_only_WIFI_SendATCommand [bRx] WIFI_RX_PADDING WIFI_TX_PADDING
           bCmd sizeCmd bRx sizeRx (or_introl eq_refl) w b).
  cbn. intros [Heq|[]]. congruence.
Qed.

Lemma WIFI_SendATCommand_writes_the_response_witness :
  mem (snd (WIFI_SendATCommand NAK LF wifiTxBuffer 4 wifiRxBuffer 32 exchange_board))
    !! wifiTxBuffer
  = mem exchange_board !! wifiTxBuffer.
Proof.
  apply (WIFI_SendATCommand_writes_the_response NAK LF wifiTxBuffer 4 wifiRxBuffer 32
           exchange_board wifiTxBuffer).
  discriminate.
Defined.

(** X16.  One whole exchange.  The command has neither [%] nor terminator
    and an odd declared size, its length plus one; the board reads Ready
    low [a] times and then high, accepts the transfer, reads Ready low [b]
    times and then high, delivers the frames of an answer (a text behind at
    least one padding byte, with any number of padding bytes after it, that
    fits the response buffer), and then reads Ready low twice.  Then the
    call returns [WIFI_OK]; what it did to the board is exactly one
    exchange, in which the bytes of the command went out unchanged; and the
    string of the response buffer is the text of the answer. *)
Theorem WIFI_SendATCommand_exchange (WIFI_RX_PADDING WIFI_TX_PADDING : ascii)
    (bCmd : N) (sizeCmd : Z) (bRx : N) (sizeRx : Z) (cmd crest : list ascii)
    (frames : list (ascii * ascii)) (p t : nat) (v l : list ascii) (a b : nat)
    (m : gmap N (list ascii)) (r : list bool) (x : list (option (ascii * ascii)))
    (tx : list bool) (f : N -> option (list ascii)) (s : nat -> ascii)
    (tr : list event) :
  (1 <= p)%nat ->
  Forall plain cmd -> sizeCmd = len cmd + 1 -> sizeCmd mod 2 = 1 ->
  WIFI_RX_PADDING <> nul -> v <> [] -> Forall plain v ->
  head v <> Some WIFI_RX_PADDING -> last v <> Some WIFI_RX_PADDING ->
  unframe frames = replicate p WIFI_RX_PADDING ++ v ++ replicate t WIFI_RX_PADDING ->
  2 * Z.of_nat (length frames) < sizeRx -> sizeRx <= len l -> sizeRx < 2 ^ 16 ->
  m !! bCmd = Some (cmd ++ nul :: crest) ->
  m !! bRx = Some l ->
  exists out,
    WIFI_SendATCommand WIFI_RX_PADDING WIFI_TX_PADDING bCmd sizeCmd bRx sizeRx
      (World m
         (replicate a false ++ true :: replicate b false ++ true ::
          replicate (length frames) true ++ false :: false :: r)
         (map Some frames ++ x) (true :: tx) f s tr)
    = (Ret WIFI_OK,
       World (<[bRx := out]> m) r x tx f s (tr ++ exchange_events a cmd b frames))
    /\ cstring out 0 = Ret v
    /\ length out = length l.
Proof.
  intros padded_answer cmd_plain cmd_size cmd_odd pad_not_nul v_not_empty v_plain
    v_head v_last answer answer_fits sizeRx_fits sizeRx_uint16 Hcmd Hrx.
  destruct (WIFI_SPI_Receive_frames WIFI_RX_PADDING bRx sizeRx frames p t v l m
              padded_answer pad_not_nul v_not_empty v_plain v_head v_last answer answer_fits
              sizeRx_fits sizeRx_uint16 Hrx)
    as (out & Hstr & Hlen & Hrun).
  exists out. split; [|split; assumption].
  unfold WIFI_SendATCommand.
  rewrite (bind_Ret _ _ _ _ _ (while_not_ready_lows a _ _ _ _ _ _ _)).
  run_world.
  rewrite (WIFI_SPI_Transmit_odd WIFI_TX_PADDING bCmd sizeCmd cmd crest)
    by (assumption || (pose proof (len_nonneg cmd); lia)).
  cbv zeta. run_world.
  replace (Z.to_nat (sizeCmd - 1)) with (length cmd) by (unfold len in cmd_size; lia).
  rewrite firstn_all.
  rewrite (while_not_ready_lows b). run_world.
  rewrite Hrun. run_world.
  f_equal. f_equal. unfold exchange_events. rewrite <- !app_assoc. reflexivity.
Qed.

Lemma WIFI_SendATCommand_exchange_witness :
  exists out,
    WIFI_SendATCommand NAK LF wifiTxBuffer 7 wifiRxBuffer 32
      (World (mem port_board)
         (replicate 0 false ++ true :: replicate 0 false ++ true ::
          replicate (length (frames_of (padded (bytes "OK")))) true
          ++ false :: false :: [])
         (map Some (frames_of (padded (bytes "OK"))) ++ []) (true :: [])
         (fun _ => Some []) (fun _ => "x"%char) [])
    = (Ret WIFI_OK,
       World (<[wifiRxBuffer := out]> (mem port_board)) [] [] []
         (fun _ => Some []) (fun _ => "x"%char)
         ([] ++ exchange_events 0 (bytes "P2=80" ++ [CR]) 0
                  (frames_of (padded (bytes "OK")))))
    /\ cstring out 0 = Ret (bytes "OK")
    /\ length out = length (replicate 32 nul).
Proof.
  apply (WIFI_SendATCommand_exchange NAK LF wifiTxBuffer 7 wifiRxBuffer 32
           (bytes "P2=80" ++ [CR]) [] (frames_of (padded (bytes "OK"))) 1 1
           (bytes "OK") (replicate 32 nul) 0 0 (mem port_board));
    try discriminate; try (vm_compute; reflexivity); try lia;
    repeat constructor; discriminate.
Defined.

(** X17.  No wait has a time limit.  When Ready never reads high,
    [WIFI_SendATCommand] and [WIFI_Init] stay in their first wait for ever:
    [WIFI_SendATCommand] has done nothing but poll, [WIFI_Init] has reset
    and selected the module and then done nothing but poll. *)
Theorem ready_stuck_low (WIFI_RX_PADDING WIFI_TX_PADDING : ascii)
    (WIFI_MSG_POWERUP : list ascii) (WIFI_RX_BUFFER_SIZE : Z)
    (bCmd : N) (sizeCmd : Z) (bRx : N) (sizeRx : Z) (w : world) :
  Forall (eq false) (ready w) ->
  (fst (WIFI_SendATCommand WIFI_RX_PADDING WIFI_TX_PADDING bCmd sizeCmd bRx sizeRx w)
   = Hang
   /\ exists n,
        trace (snd (WIFI_SendATCommand WIFI_RX_PADDING WIFI_TX_PADDING
                      bCmd sizeCmd bRx sizeRx w))
        = trace w ++ replicate n (EvReady false))
  /\ (fst (WIFI_Init WIFI_RX_PADDING WIFI_MSG_POWERUP WIFI_RX_BUFFER_SIZE w) = Hang
      /\ exists n,
           trace (snd (WIFI_Init WIFI_RX_PADDING WIFI_MSG_POWERUP WIFI_RX_BUFFER_SIZE w))
           = trace w ++ [EvReset; EvNSS true] ++ replicate n (EvReady false)).
Proof.
  intros Hr. destruct w as [m rd x tx f s tr]. cbn [ready trace] in *.
  assert (Hsend :
            WIFI_SendATCommand WIFI_RX_PADDING WIFI_TX_PADDING bCmd sizeCmd bRx sizeRx
              (World m rd x tx f s tr)
            = (Hang, World m [] x tx f s
                       (tr ++ replicate (S (length rd)) (EvReady false)))).
  { unfold WIFI_SendATCommand, bind at 1.
    rewrite while_not_ready_stuck by exact Hr. reflexivity. }
  assert (Hinit :
            WIFI_Init WIFI_RX_PADDING WIFI_MSG_POWERUP WIFI_RX_BUFFER_SIZE
              (World m rd x tx f s tr)
            = (Hang, World m [] x tx f s
                       (tr ++ [EvReset; EvNSS true]
                           ++ replicate (S (length rd)) (EvReady false)))).
  { unfold WIFI_Init. run_world.
    rewrite while_not_ready_stuck by exact Hr. rewrite <- !app_assoc. reflexivity. }
  rewrite Hsend, Hinit. cbn [fst snd trace].
  repeat split; eexists; reflexivity.
Qed.

Lemma ready_stuck_low_witness :
  (fst (WIFI_SendATCommand NAK LF wifiTxBuffer 4 wifiRxBuffer 32
          (board [false; false] [] []))
   = Hang
   /\ exists n,
        trace (snd (WIFI_SendATCommand NAK LF wifiTxBuffer 4 wifiRxBuffer 32
                      (board [false; false] [] [])))
        = trace (board [false; false] [] []) ++ replicate n (EvReady false))
  /\ (fst (WIFI_Init NAK (bytes "OK") 32 (board [false; false] [] [])) = Hang
      /\ exists n,
           trace (snd (WIFI_Init NAK (bytes "OK") 32 (board [false; false] [] [])))
           = trace (board [false; false] [] [])
             ++ [EvReset; EvNSS true] ++ replicate n (EvReady false)).
Proof.
  apply (ready_stuck_low NAK LF (bytes "OK") 32 wifiTxBuffer 4 wifiRxBuffer 32
           (board [false; false] [] [])).
  repeat constructor.
Defined.

(** ** More on [WIFI_Init] *)

(** X18.  The whole of [WIFI_Init].  On a board that reads Ready low [a]
    times and then high and delivers the frames of an answer (a text behind
    at least one padding byte, with any number of padding bytes after it,
    that fits the buffer), the call resets and selects the module, waits, takes the frames, and then
    returns [WIFI_OK] after deselecting when the text of the answer is
    [WIFI_MSG_POWERUP], and ends in [Error_Handler], the module still
    selected, when it is any other text. *)
Theorem WIFI_Init_answer (WIFI_RX_PADDING : ascii) (WIFI_MSG_POWERUP : list ascii)
    (WIFI_RX_BUFFER_SIZE : Z) (frames : list (ascii * ascii)) (p t : nat)
    (v l : list ascii) (a : nat)
    (m : gmap N (list ascii)) (r : list bool) (x : list (option (ascii * ascii)))
    (tx : list bool) (f : N -> option (list ascii)) (s : nat -> ascii)
    (tr : list event) :
  (1 <= p)%nat ->
  WIFI_RX_PADDING <> nul -> v <> [] -> Forall plain v ->
  head v <> Some WIFI_RX_PADDING -> last v <> Some WIFI_RX_PADDING ->
  ~ In nul WIFI_MSG_POWERUP ->
  unframe frames = replicate p WIFI_RX_PADDING ++ v ++ replicate t WIFI_RX_PADDING ->
  2 * Z.of_nat (length frames) < uint16 WIFI_RX_BUFFER_SIZE ->
  uint16 WIFI_RX_BUFFER_SIZE <= len l ->
  m !! wifiRxBuffer = Some l ->
  let w := World m (replicate a false ++ true :: replicate (length frames) true
                      ++ false :: r) (map Some frames ++ x) tx f s tr in
  let events := [EvReset; EvNSS true] ++ replicate a (EvReady false) ++ [EvReady true]
                  ++ rx_events frames 0 ++ [EvReady false] in
  exists out,
    cstring out 0 = Ret v
    /\ (v = WIFI_MSG_POWERUP ->
        WIFI_Init WIFI_RX_PADDING WIFI_MSG_POWERUP WIFI_RX_BUFFER_SIZE w
        = (Ret WIFI_OK,
           World (<[wifiRxBuffer := out]> m) r x tx f s (tr ++ events ++ [EvNSS false])))
    /\ (v <> WIFI_MSG_POWERUP ->
        WIFI_Init WIFI_RX_PADDING WIFI_MSG_POWERUP WIFI_RX_BUFFER_SIZE w
        = (Fatal,
           World (<[wifiRxBuffer := out]> m) r x tx f s
             (tr ++ events ++ [EvErrorHandler]))).
Proof.
  intros padded_answer pad_not_nul v_not_empty v_plain v_head v_last banner_no_nul
    answer answer_fits size_fits Hrx w events.
  assert (H16 : uint16 WIFI_RX_BUFFER_SIZE < 2 ^ 16)
    by (unfold uint16; apply Z.mod_pos_bound; lia).
  destruct (WIFI_SPI_Receive_frames WIFI_RX_PADDING wifiRxBuffer
              (uint16 WIFI_RX_BUFFER_SIZE) frames p t v l m
              padded_answer pad_not_nul v_not_empty v_plain v_head v_last answer answer_fits
              size_fits H16 Hrx)
    as (out & Hstr & Hlen & Hrun).
  exists out. split; [exact Hstr|].
  assert (Huntil : Init_until_received WIFI_RX_PADDING WIFI_RX_BUFFER_SIZE w
                   = (Ret WIFI_OK,
                      World (<[wifiRxBuffer := out]> m) r x tx f s (tr ++ events))).
  { unfold Init_until_received, w. run_world.
    rewrite (while_not_ready_lows a). run_world.
    rewrite Hrun. f_equal. f_equal. unfold events. rewrite <- !app_assoc. reflexivity. }
  destruct (WIFI_Init_after_receive WIFI_RX_PADDING WIFI_MSG_POWERUP
              WIFI_RX_BUFFER_SIZE w _ _ out v banner_no_nul Huntil
              (lookup_insert_eq _ _ _) Hstr)
    as (d & Hd & Hinit).
  split; intros Hv; rewrite Hinit.
  - replace (d =? 0) with true by (symmetry; apply Z.eqb_eq; tauto).
    run_world. rewrite <- !app_assoc. reflexivity.
  - replace (d =? 0) with false by (symmetry; apply Z.eqb_neq; tauto).
    run_world. rewrite <- !app_assoc. reflexivity.
Qed.

Lemma WIFI_Init_answer_witness :
  let w := World (mem (board [] [] []))
             (replicate 1 false ++ true ::
              replicate (length (frames_of (padded (bytes "OK!")))) true ++ false :: [])
             (map Some (frames_of (padded (bytes "OK!"))) ++ []) [] (fun _ => None)
             (fun _ => "x"%char) [] in
  let events := [EvReset; EvNSS true] ++ replicate 1 (EvReady false) ++ [EvReady true]
                  ++ rx_events (frames_of (padded (bytes "OK!"))) 0 ++ [EvReady false] in
  exists out,
    cstring out 0 = Ret (bytes "OK!")
    /\ (bytes "OK!" = bytes "OK!" ->
        WIFI_Init NAK (bytes "OK!") 32 w
        = (Ret WIFI_OK,
           World (<[wifiRxBuffer := out]> (mem (board [] [] []))) [] [] []
             (fun _ => None) (fun _ => "x"%char) ([] ++ events ++ [EvNSS false])))
    /\ (bytes "OK!" <> bytes "OK!" ->
        WIFI_Init NAK (bytes "OK!") 32 w
        = (Fatal,
           World (<[wifiRxBuffer := out]> (mem (board [] [] []))) [] [] []
             (fun _ => None) (fun _ => "x"%char) ([] ++ events ++ [EvErrorHandler]))).
Proof.
  apply (WIFI_Init_answer NAK (bytes "OK!") 32 (frames_of (padded (bytes "OK!"))) 1 0
           (bytes "OK!") (replicate 32 nul) 1 (mem (board [] [] [])));
    try discriminate; try (vm_compute; reflexivity); try lia.
  - repeat constructor; discriminate.
  - vm_compute. intuition discriminate.
Defined.

(** ** More on [WIFI_CreateNewNetwork] *)

Section SaveAddress.
Variable hwifi : WIFI_HandleTypeDef.
Variable w : world.
Variables pre ip post rest : list ascii.
Hypothesis response :
  mem w !! wifiRxBuffer = Some (address_response pre ip post rest).
Hypothesis pre_no_comma : ~ In comma pre.
Hypothesis pre_no_nul : ~ In nul pre.
Hypothesis ip_no_comma : ~ In comma ip.
Hypothesis ip_plain : Forall plain ip.
Hypothesis post_plain : Forall plain post.
Hypothesis ip_size : len ip + 1 < 2 ^ 32.

(** The two searches and the bound of the copy. *)
Lemma save_address_steps :
  save_address hwifi w
  = bind (lift (snprintf (replicate (length (ipAddress hwifi)) nul) 0 (len ip + 1)
                  (Other (address_response pre ip post rest) (len pre + 1))))
      (fun r => ret (with_address hwifi (fst r))) w.
Proof.
  unfold save_address, bind at 1, read_array. rewrite response.
  unfold bind at 1, lift. unfold address_response.
  change (pre ++ comma :: ip ++ comma :: post ++ nul :: rest)
    with ([] ++ pre ++ comma :: (ip ++ comma :: post ++ nul :: rest)).
  change 0 with (len []) at 1.
  change (bytes ",") with [comma].
  rewrite strstr_found by assumption.
  change (len []) with 0. rewrite Z.add_0_l. unfold bind at 1.
  assert (Hshape : [] ++ pre ++ comma :: (ip ++ comma :: post ++ nul :: rest)
                   = (pre ++ [comma]) ++ ip ++ comma :: (post ++ nul :: rest)).
  { cbn [app]. rewrite <- app_assoc. reflexivity. }
  rewrite Hshape.
  replace (len pre + 1) with (len (pre ++ [comma])) by (rewrite len_app; reflexivity).
  rewrite strstr_found by (assumption || now apply plain_not_nul).
  unfold bind at 1. rewrite memset_all. unfold bind at 1.
  replace (uint32 (len (pre ++ [comma]) + len ip - len (pre ++ [comma]) + 1))
    with (len ip + 1)
    by (unfold uint32; rewrite Z.mod_small; [lia | pose proof (len_nonneg ip); lia]).
  rewrite <- Hshape. cbn [app].
  unfold bind, lift.
  destruct (snprintf _ 0 (len ip + 1) _) as [[out n]| | |]; reflexivity.
Qed.

Lemma address_format :
  address_response pre ip post rest
  = (pre ++ [comma]) ++ (ip ++ comma :: post) ++ nul :: rest
  /\ Forall plain (ip ++ comma :: post).
Proof.
  split.
  - unfold address_response. rewrite <- !app_assoc. reflexivity.
  - apply Forall_app. split; [exact ip_plain|].
    constructor; [apply plain_comma | exact post_plain].
Qed.

(** X19.  The address is the text between the first comma of the response
    and the next one.  When the response has two commas at least, no [%]
    behind the first of them, and the text between the first two is shorter
    than the [ipAddress] array, lines 156-161 leave that text in the array,
    followed by terminators, and change nothing else. *)
Theorem save_address_between_commas :
  len ip < len (ipAddress hwifi) ->
  save_address hwifi w
  = (Ret (with_address hwifi
            (ip ++ replicate (length (ipAddress hwifi) - length ip) nul)), w).
Proof.
  intros Hfit. rewrite save_address_steps.
  destruct address_format as [Hrx Hplain]. rewrite Hrx.
  unfold bind, lift, snprintf. cbn [extent].
  rewrite (format_loop_other _ _ _ _ _ 0 (len ip + 1 - 1) _ 0 0 0%nat);
    [ | exact Hplain | rewrite !length_app; cbn; lia
      | rewrite len_app; change (len [comma]) with 1; lia | reflexivity
      | right; rewrite length_replicate, length_app; unfold len in *; lia ].
  cbn [obind overlaps].
  replace (0 <? len ip + 1) with true
    by (symmetry; apply Z.ltb_lt; pose proof (len_nonneg ip); lia).
  cbv iota.
  replace (len ip + 1 - 1 - 0) with (len ip) by lia.
  replace (0 + Z.min (0 + len (ip ++ comma :: post)) (len ip + 1 - 1))
    with (Z.of_nat (length ip))
    by (rewrite len_app; pose proof (len_nonneg (comma :: post)); unfold len in *; lia).
  unfold len at 1. rewrite Nat2Z.id, take_app_length.
  rewrite store_inside
    by (rewrite length_inserts, length_replicate; unfold len in *; lia).
  cbn [obind ret fst]. rewrite inserts_terminated by (unfold len in *; lia).
  reflexivity.
Qed.

(** X20.  The bound of the copy is the length of the text, not the size of
    the array: when the text between the two commas is as long as the
    [ipAddress] array or longer, [snprintf] stores a byte behind the end of
    the array. *)
Theorem save_address_overflow :
  len (ipAddress hwifi) <= len ip ->
  save_address hwifi w = (Undef (OutOfBounds (len (ipAddress hwifi))), w).
Proof.
  intros Hbig. rewrite save_address_steps.
  destruct address_format as [Hrx Hplain]. rewrite Hrx.
  unfold bind, lift, snprintf. cbn [extent].
  destruct (Z.eq_dec (len (ipAddress hwifi)) (len ip)) as [Heq|Hne].
  - rewrite (format_loop_other _ _ _ _ _ 0 (len ip + 1 - 1) _ 0 0 0%nat);
      [ | exact Hplain | rewrite !length_app; cbn; lia
        | rewrite len_app; change (len [comma]) with 1; lia | reflexivity
        | right; rewrite length_replicate, length_app; unfold len in *; lia ].
    cbn [obind overlaps].
    replace (0 <? len ip + 1) with true
      by (symmetry; apply Z.ltb_lt; pose proof (len_nonneg ip); lia).
    cbv iota.
    replace (0 + Z.min (0 + len (ip ++ comma :: post)) (len ip + 1 - 1))
      with (len (ipAddress hwifi))
      by (rewrite len_app; pose proof (len_nonneg (comma :: post)); lia).
    unfold store, in_bounds.
    replace (len (ipAddress hwifi) <? _) with false
      by (symmetry; apply Z.ltb_ge; unfold len;
          rewrite length_inserts, length_replicate; lia).
    rewrite andb_false_r. reflexivity.
  - rewrite (format_loop_overflow _ _ _ _ _ 0 (len ip + 1 - 1) _ 0 0 0%nat);
      [ | exact Hplain | rewrite !length_app; cbn; lia
        | rewrite len_app; change (len [comma]) with 1; lia | reflexivity | lia
        | rewrite length_replicate, length_app; unfold len in *; lia ].
    cbn [obind]. rewrite len_replicate. reflexivity.
Qed.

End SaveAddress.

Lemma save_address_between_commas_witness :
  save_address example_handle
    (with_response (bytes "AP,192.168.10.1,1" ++ [CR]) (board [] [] []))
  = (Ret (with_address example_handle
            (bytes "192.168.10.1"
             ++ replicate (length (ipAddress example_handle)
                           - length (bytes "192.168.10.1")) nul)),
     with_response (bytes "AP,192.168.10.1,1" ++ [CR]) (board [] [] [])).
Proof.
  apply (save_address_between_commas example_handle
           (with_response (bytes "AP,192.168.10.1,1" ++ [CR]) (board [] [] []))
           (bytes "AP") (bytes "192.168.10.1") (bytes "1" ++ [CR]) []);
    try (vm_compute; reflexivity);
    try (vm_compute; intuition discriminate);
    repeat constructor; discriminate.
Defined.

Lemma save_address_overflow_witness :
  save_address example_handle
    (with_response (bytes "AP,0123456789abcdefXYZ,1" ++ [CR]) (board [] [] []))
  = (Undef (OutOfBounds (len (ipAddress example_handle))),
     with_response (bytes "AP,0123456789abcdefXYZ,1" ++ [CR]) (board [] [] [])).
Proof.
  apply (save_address_overflow example_handle
           (with_response (bytes "AP,0123456789abcdefXYZ,1" ++ [CR]) (board [] [] []))
           (bytes "AP") (bytes "0123456789abcdefXYZ") (bytes "1" ++ [CR]) []);
    try (vm_compute; reflexivity);
    try (vm_compute; intuition discriminate);
    try (vm_compute; discriminate);
    repeat constructor; discriminate.
Defined.

(** X21.  A response without two commas.  When the string of the response
    buffer has no comma, [strstr] returns the null pointer and line 156 adds
    1 to it; when it has one comma only, the second [strstr] returns the
    null pointer and line 161 subtracts [ipStart] from it: in both cases the
    call has no defined behaviour. *)
Theorem save_address_missing_comma (hwifi : WIFI_HandleTypeDef) (w : world)
    (text rest : list ascii) :
  mem w !! wifiRxBuffer = Some (text ++ nul :: rest) ->
  ~ In nul text ->
  (~ In comma text
   \/ exists pre s, text = pre ++ comma :: s /\ ~ In comma pre /\ ~ In comma s) ->
  save_address hwifi w = (Undef NullPointer, w).
Proof.
  intros Hm Hnul Hcase. unfold save_address, bind at 1, read_array. rewrite Hm.
  unfold bind at 1, lift. change (bytes ",") with [comma].
  destruct Hcase as [Hno|(pre & s & -> & Hpre & Hs)].
  - change (text ++ nul :: rest) with ([] ++ text ++ nul :: rest).
    change 0 with (len []) at 1.
    rewrite strstr_missing by (assumption || discriminate). reflexivity.
  - rewrite in_app_iff in Hnul. cbn [In] in Hnul.
    rewrite <- app_assoc. cbn [app].
    change (pre ++ comma :: s ++ nul :: rest)
      with ([] ++ pre ++ comma :: (s ++ nul :: rest)).
    change 0 with (len []) at 1.
    rewrite strstr_found by tauto.
    change (len []) with 0. rewrite Z.add_0_l. unfold bind at 1.
    replace ([] ++ pre ++ comma :: (s ++ nul :: rest))
      with ((pre ++ [comma]) ++ s ++ nul :: rest)
      by (cbn [app]; rewrite <- app_assoc; reflexivity).
    replace (len pre + 1) with (len (pre ++ [comma])) by (rewrite len_app; reflexivity).
    rewrite strstr_missing by (tauto || discriminate). reflexivity.
Qed.

Lemma save_address_missing_comma_witness :
  save_address example_handle (with_response (bytes "ERROR" ++ [CR]) (board [] [] []))
  = (Undef NullPointer, with_response (bytes "ERROR" ++ [CR]) (board [] [] [])).
Proof.
  apply (save_address_missing_comma example_handle
           (with_response (bytes "ERROR" ++ [CR]) (board [] [] []))
           (bytes "ERROR" ++ [CR]) []).
  - vm_compute. reflexivity.
  - vm_compute. intuition discriminate.
  - left. vm_compute. intuition discriminate.
Defined.

(** *** The commands *)

Lemma sprintf_wifiTxBuffer_Ret out w n w' :
  sprintf_wifiTxBuffer out w = (Ret n, w') ->
  exists tx,
    mem w !! wifiTxBuffer = Some tx /\ len out < len tx
    /\ w' = set_mem (<[wifiTxBuffer := out ++ nul :: drop (S (length out)) tx]> (mem w)) w.
Proof.
  unfold sprintf_wifiTxBuffer. intros H.
  apply bind_Ret_inv in H as (tx & w1 & H1 & H). apply read_array_Ret in H1 as [Hm ->].
  apply bind_Ret_inv in H as ([tx' n'] & w2 & H2 & H). apply lift_Ret in H2 as [H2 ->].
  unfold sprintf in H2. destruct (Z.ltb_spec (len out) (len tx)); [|discriminate].
  injection H2 as <- <-.
  apply bind_Ret_inv in H as ([] & w3 & H3 & H). injection H3 as <-.
  injection H as _ <-. exists tx. auto.
Qed.

(** One command that returns: one exchange, and the command is still in
    [wifiTxBuffer]. *)
Lemma command_Ret rxp txp size out w st w' :
  command rxp txp size out w = (Ret st, w') ->
  st = WIFI_OK
  /\ (exists a data b frames, trace w' = trace w ++ exchange_events a data b frames)
  /\ (exists rest, mem w' !! wifiTxBuffer = Some (out ++ nul :: rest)).
Proof.
  unfold command. intros H.
  apply bind_Ret_inv in H as (n & w1 & H1 & H).
  apply sprintf_wifiTxBuffer_Ret in H1 as (tx & Hm & Hl & ->).
  split; [exact (returns_only_WIFI_SendATCommand _ _ _ _ _ _ _ _ _ H)|]. split.
  - assert (H16 : 0 <= uint16 size < 2 ^ 16) by (apply Z.mod_pos_bound; lia).
    destruct (SendATCommand_trace rxp txp wifiTxBuffer wifiRxBuffer (uint16 (n + 1))
                (uint16 size) H16 (set_mem (<[wifiTxBuffer :=
                   out ++ nul :: drop (S (length out)) tx]> (mem w)) w)) as [Htr _].
    exact (Htr _ _ H).
  - pose proof (writes_only_WIFI_SendATCommand [wifiRxBuffer] rxp txp wifiTxBuffer
                  (uint16 (n + 1)) wifiRxBuffer (uint16 size) (or_introl eq_refl)
                  (set_mem (<[wifiTxBuffer :=
                     out ++ nul :: drop (S (length out)) tx]> (mem w)) w)
                  wifiTxBuffer) as Hmem.
    rewrite H in Hmem. cbn [snd mem set_mem] in Hmem.
    rewrite lookup_insert_eq in Hmem. eexists. apply Hmem.
    cbn. intros [Heq|[]]. discriminate.
Qed.

Lemma exchanges_one a data b frames : exchanges 1 (exchange_events a data b frames).
Proof. exists a, data, b, frames, []. now rewrite app_nil_r. Qed.

Lemma exchanges_app n1 n2 evs1 evs2 :
  exchanges n1 evs1 -> exchanges n2 evs2 -> exchanges (n1 + n2) (evs1 ++ evs2).
Proof.
  revert evs1. induction n1 as [|n1 IH]; intros evs1 H1 H2; cbn [exchanges Nat.add] in *.
  - now subst evs1.
  - destruct H1 as (a & data & b & frames & rest & -> & H1).
    exists a, data, b, frames, (rest ++ evs2). rewrite <- app_assoc. auto.
Qed.

Lemma exchanging_bind {A B} n1 n2 (m : M A) (f : A -> M B) :
  exchanging n1 m -> (forall a, exchanging n2 (f a)) -> exchanging (n1 + n2) (bind m f).
Proof.
  intros Hm Hf w b w' H. apply bind_Ret_inv in H as (a & w1 & H1 & H).
  apply Hm in H1 as (e1 & T1 & X1). apply Hf in H as (e2 & T2 & X2).
  exists (e1 ++ e2). rewrite T2, T1, app_assoc. split; [reflexivity|].
  now apply exchanges_app.
Qed.

Lemma exchanging_command rxp txp size out : exchanging 1 (command rxp txp size out).
Proof.
  intros w st w' H. apply command_Ret in H as (_ & (a & data & b & frames & H) & _).
  eexists. split; [exact H | apply exchanges_one].
Qed.

Lemma exchanging_quiet {A} (m : M A) : quiet m -> exchanging 0 m.
Proof.
  intros Hq w a w' H. exists []. destruct (Hq w) as [Ht _]. rewrite H in Ht.
  cbn in *. now rewrite app_nil_r.
Qed.

Lemma quiet_cstring buf ofs : quiet (lift (cstring buf ofs)).
Proof.
  apply quiet_pure. unfold cstring, strlen.
  repeat (apply pure_strlen_loop || pure_step).
Qed.

Lemma exchanging_commands rxp txp size hwifi :
  exchanging 5 (commands rxp txp size hwifi).
Proof.
  unfold commands.
  apply (exchanging_bind 1 4); [apply exchanging_command | intros _].
  apply (exchanging_bind 0 4); [apply exchanging_quiet, quiet_cstring | intros s1].
  apply (exchanging_bind 1 3); [apply exchanging_command | intros _].
  apply (exchanging_bind 0 3); [apply exchanging_quiet, quiet_cstring | intros s2].
  apply (exchanging_bind 1 2); [apply exchanging_command | intros _].
  apply (exchanging_bind 1 1); [apply exchanging_command | intros _].
  apply (exchanging_bind 1 0); [apply exchanging_command | intros _].
  apply exchanging_quiet, quiet_ret.
Qed.

(** X22.  A call of [WIFI_CreateNewNetwork] that returns has made five
    complete exchanges, one after the other, and nothing else on the board;
    the status is [WIFI_OK]. *)
Theorem WIFI_CreateNewNetwork_returned (WIFI_RX_PADDING WIFI_TX_PADDING : ascii)
    (WIFI_RX_BUFFER_SIZE : Z) (hwifi : WIFI_HandleTypeDef) (w : world)
    (r : WIFI_HandleTypeDef * WIFI_StatusTypeDef) (w' : world) :
  WIFI_CreateNewNetwork WIFI_RX_PADDING WIFI_TX_PADDING WIFI_RX_BUFFER_SIZE hwifi w
  = (Ret r, w') ->
  snd r = WIFI_OK
  /\ exists evs, trace w' = trace w ++ evs /\ exchanges 5 evs.
Proof.
  unfold WIFI_CreateNewNetwork. intros H.
  apply bind_Ret_inv in H as ([] & w1 & H1 & H).
  apply exchanging_commands in H1 as (evs & Ht & Hx).
  apply bind_Ret_inv in H as (h & w2 & H2 & H). injection H as <- <-.
  split; [reflexivity|]. exists evs. split; [|exact Hx].
  rewrite <- Ht. clear Ht Hx.
  unfold save_address in H2.
  apply bind_Ret_inv in H2 as (rx & w3 & H3 & H2). apply read_array_Ret in H3 as [_ ->].
  apply bind_Ret_inv in H2 as (q & w4 & H4 & H2). apply lift_Ret in H4 as [_ ->].
  destruct q as [c1|]; [|discriminate].
  apply bind_Ret_inv in H2 as (q & w5 & H5 & H2). apply lift_Ret in H5 as [_ ->].
  destruct q as [c2|]; [|discriminate].
  apply bind_Ret_inv in H2 as (ip & w6 & H6 & H2). apply lift_Ret in H6 as [_ ->].
  apply bind_Ret_inv in H2 as ([ip' n] & w7 & H7 & H2). apply lift_Ret in H7 as [_ ->].
  now injection H2 as _ <-.
Qed.

Lemma WIFI_CreateNewNetwork_returned_witness :
  snd (with_address example_handle (bytes "10.0.0.5" ++ replicate 9 nul), WIFI_OK)
  = WIFI_OK
  /\ exists evs,
       trace (snd (WIFI_CreateNewNetwork NAK LF 32 example_handle example_board))
       = trace example_board ++ evs
       /\ exchanges 5 evs.
Proof.
  apply (WIFI_CreateNewNetwork_returned NAK LF 32 example_handle example_board).
  vm_compute. reflexivity.
Defined.

(** ** [WIFI_WebServerInit] *)

(** X23.  A call of [WIFI_WebServerInit] that returns has made three
    complete exchanges, one after the other, and nothing else on the board;
    [wifiTxBuffer] still holds the last command, [P2=], the port in
    decimal and a carriage return; the status is [WIFI_OK]. *)
Theorem WIFI_WebServerInit_returned (WIFI_RX_PADDING WIFI_TX_PADDING : ascii)
    (WIFI_RX_BUFFER_SIZE : Z) (hwifi : WIFI_HandleTypeDef) (w : world)
    (st : WIFI_StatusTypeDef) (w' : world) :
  WIFI_WebServerInit WIFI_RX_PADDING WIFI_TX_PADDING WIFI_RX_BUFFER_SIZE hwifi w
  = (Ret st, w') ->
  st = WIFI_OK
  /\ (exists evs, trace w' = trace w ++ evs /\ exchanges 3 evs)
  /\ (exists rest,
        mem w' !! wifiTxBuffer
        = Some ((bytes "P2=" ++ decimal (port hwifi) ++ [CR]) ++ nul :: rest)).
Proof.
  intros H. split; [exact (returns_only_WIFI_WebServerInit _ _ _ _ _ _ _ H)|]. split.
  - revert H. apply (exchanging_bind 1 2); [apply exchanging_command | intros _].
    apply (exchanging_bind 1 1); [apply exchanging_command | intros _].
    apply (exchanging_bind 1 0); [apply exchanging_command | intros _].
    apply exchanging_quiet, quiet_ret.
  - unfold WIFI_WebServerInit in H.
    apply bind_Ret_inv in H as (s1 & w1 & _ & H).
    apply bind_Ret_inv in H as (s2 & w2 & _ & H).
    apply bind_Ret_inv in H as (s3 & w3 & H3 & H). injection H as _ <-.
    now apply command_Ret in H3 as (_ & _ & H3).
Qed.

Lemma WIFI_WebServerInit_returned_witness :
  WIFI_OK = WIFI_OK
  /\ (exists evs,
        trace (snd (WIFI_WebServerInit NAK LF 32 example_handle server_board))
        = trace server_board ++ evs
        /\ exchanges 3 evs)
  /\ (exists rest,
        mem (snd (WIFI_WebServerInit NAK LF 32 example_handle server_board))
          !! wifiTxBuffer
        = Some ((bytes "P2=" ++ decimal (port example_handle) ++ [CR]) ++ nul :: rest)).
Proof.
  apply (WIFI_WebServerInit_returned NAK LF 32 example_handle server_board).
  vm_compute. reflexivity.
Defined.

(** ** The status *)

(** X24.  No function of wifi.c returns another status than [WIFI_OK]:
    every failure ends in [Error_Handler], never in [WIFI_ERROR], so the
    tests [!= WIFI_OK] of [WIFI_Init] and [WIFI_SendATCommand] never
    succeed; the two stubs return [WIFI_OK] at once. *)
Theorem status_always_OK (WIFI_RX_PADDING WIFI_TX_PADDING : ascii)
    (WIFI_MSG_POWERUP : list ascii) (WIFI_RX_BUFFER_SIZE : Z)
    (hwifi : WIFI_HandleTypeDef) (buffer bCmd bRx : N) (size sizeCmd sizeRx : Z) :
  returns_only WIFI_OK (WIFI_SPI_Receive WIFI_RX_PADDING buffer size)
  /\ returns_only WIFI_OK (WIFI_SPI_Transmit WIFI_TX_PADDING buffer size)
  /\ returns_only WIFI_OK
       (WIFI_Init WIFI_RX_PADDING WIFI_MSG_POWERUP WIFI_RX_BUFFER_SIZE)
  /\ returns_only WIFI_OK
       (WIFI_SendATCommand WIFI_RX_PADDING WIFI_TX_PADDING bCmd sizeCmd bRx sizeRx)
  /\ (forall w r w',
        WIFI_CreateNewNetwork WIFI_RX_PADDING WIFI_TX_PADDING WIFI_RX_BUFFER_SIZE
          hwifi w = (Ret r, w') ->
        snd r = WIFI_OK)
  /\ returns_only WIFI_OK
       (WIFI_WebServerInit WIFI_RX_PADDING WIFI_TX_PADDING WIFI_RX_BUFFER_SIZE hwifi)
  /\ returns_only WIFI_OK (WIFI_WebServerListen buffer size)
  /\ returns_only WIFI_OK (WIFI_WebServerSend buffer size).
Proof.
  repeat split;
    try apply returns_only_WIFI_SPI_Receive;
    try apply returns_only_WIFI_SPI_Transmit;
    try apply returns_only_WIFI_Init;
    try apply returns_only_WIFI_SendATCommand;
    try apply returns_only_WIFI_WebServerInit;
    try apply returns_only_ret.
  intros w r w' H. unfold WIFI_CreateNewNetwork in H.
  apply bind_Ret_inv in H as (u & w2 & _ & H).
  apply bind_Ret_inv in H as (h & w3 & _ & H).
  now injection H as <- _.
Qed.
